(** * A validated CRUD record store with CSV export

    Shallow embedding of the two record stores of the repository,
    [SensorDB] (src/Mechatronics.py) and [OrderDB] (src/customerDatabase.py),
    together with the parts of the Python runtime they lean on:
    [str.strip], the [sqlite3] connection with its [with conn:] transaction
    block, the SQL statements the stores execute, [csv.writer], and
    [csv.reader] to read an exported file back.

    Modelling conventions.
    - A Python [str] is a [string]; its characters are read as code points
      below 256.
    - A Python [int] and an SQLite INTEGER are a [Z]; the 64-bit ceiling of
      SQLite row ids is outside the model.
    - A Python [float] and an SQLite REAL are the rational they denote ([Q]);
      NaN and the infinities are outside the model.  The text form of a
      float ([repr]) is a parameter of the export functions.
    - A method of a store is a function from the world before the call to
      an outcome (a returned value or a raised exception) and the world
      after it.

    The interactive code of the two programs (their input helpers, flows
    and menus) and the two scripts, src/ADDMORE.py and src/MAN.py, run on a
    console: the lines typed, which [input] consumes one by one, and what
    [print] and the prompts add to the output.
    - [input] with no line left raises [EOFError]; an interrupt from the
      keyboard is outside the model.
    - [int], [float], [date.fromisoformat], the clock and the working
      directory are parameters of the programs that use them.
    - A [while True] loop that reads a line at each turn is a function
      recursive on the lines left.  The menus run for a number of turns;
      one more than there are lines is shown to be enough. *)

From Stdlib Require Import ZArith QArith String Ascii List Bool Lia Sorted.
From Stdlib Require Import Lqa.
From stdpp Require Import base list strings gmap pretty.

Open Scope string_scope.
Open Scope list_scope.
Open Scope Z_scope.

(** ** Python values and control *)

Module Py.

(** The exceptions the stores can raise: [sqlite3.IntegrityError] (a
    NOT NULL or CHECK constraint failed) and [ValueError] with its
    message. *)
Inductive exn : Type :=
| IntegrityError
| ValueError (msg : string).

Inductive outcome (A : Type) : Type :=
| Returned (a : A)
| Raised (e : exn).
Arguments Returned {A} a.
Arguments Raised {A} e.

(** A computation over a world [W]: it ends by returning or by raising,
    and leaves a world behind in both cases. *)
Definition M (W A : Type) : Type := W -> outcome A * W.

Definition ret {W A} (a : A) : M W A := fun w => (Returned a, w).

Definition raise {W A} (e : exn) : M W A := fun w => (Raised e, w).

Definition bind {W A B} (m : M W A) (k : A -> M W B) : M W B :=
  fun w =>
    match m w with
    | (Returned a, w') => k a w'
    | (Raised e, w') => (Raised e, w')
    end.

(** [str.isspace] on one character, for the code points below 256:
    TAB, LF, VT, FF, CR, the separators FS, GS, RS, US, the space,
    NEL (0x85) and the no-break space (0xA0). *)
Definition isspace (c : ascii) : bool :=
  let n := N_of_ascii c in
  ((9 <=? n) && (n <=? 13) || (28 <=? n) && (n <=? 32)
   || (n =? 133) || (n =? 160))%N.

Fixpoint lstrip (s : string) : string :=
  match s with
  | EmptyString => EmptyString
  | String c s' => if isspace c then lstrip s' else s
  end.

Fixpoint rstrip (s : string) : string :=
  match s with
  | EmptyString => EmptyString
  | String c s' =>
      match rstrip s' with
      | EmptyString => if isspace c then EmptyString else String c EmptyString
      | r => String c r
      end
  end.

(** [s.strip()] *)
Definition strip (s : string) : string := rstrip (lstrip s).

End Py.

Import Py.

Notation "x <- m ;; k" := (bind m (fun x => k))
  (at level 100, m at next level, right associativity, only parsing).

(** ** The SQLite table behind a connection *)

Module Sqlite.

Section Table.

(** [R] is the tuple of the columns other than [id]. *)
Context {R : Type}.

(** A rowid table: the rows in key order, as the B-tree keeps them, and
    the entry of [sqlite_sequence] for the table, which AUTOINCREMENT
    maintains (the largest row id ever handed out, 0 before the first
    insert). *)
Record table : Type := Table {
  rows : list (Z * R);
  sequence : Z
}.

(** The column constraints of the CREATE TABLE statement (NOT NULL and
    CHECK), as a test on the values of a candidate row. *)
Variable check : R -> bool.

(** A table just created: no row, and no row id handed out yet. *)
Definition empty : table := {| rows := []; sequence := 0 |}.

(** [CREATE TABLE IF NOT EXISTS]: [db] is the table the database file
    already has, if it has it; an existing table is left as it is. *)
Definition create_table_if_not_exists (db : option table) : table :=
  match db with
  | Some t => t
  | None => empty
  end.

Definition max_rowid (l : list (Z * R)) : Z :=
  fold_right (fun p m => Z.max (fst p) m) 0 l.

(** The row id an AUTOINCREMENT column gives to the next row: one more
    than the largest of the recorded sequence value and the row ids
    in the table. *)
Definition next_rowid (t : table) : Z :=
  Z.max (sequence t) (max_rowid (rows t)) + 1.

(** [INSERT INTO t (columns other than id) VALUES (...)]; the value
    returned is [cursor.lastrowid]. *)
Definition insert (r : R) : M table Z :=
  fun t =>
    if check r then
      let i := next_rowid t in
      (Returned i, {| rows := rows t ++ [(i, r)]; sequence := i |})
    else (Raised IntegrityError, t).

Definition matches (i : Z) (p : Z * R) : bool := fst p =? i.

(** What UPDATE does to one row: the columns other than [id] of a row
    the WHERE clause matches are all replaced. *)
Definition rewrite_row (i : Z) (r : R) (p : Z * R) : Z * R :=
  if matches i p then (fst p, r) else p.

(** [UPDATE t SET (every column other than id) WHERE id = ?]; the
    constraints are evaluated on the rows the statement rewrites, so a
    statement that matches no row cannot fail.  The value returned is
    [cursor.rowcount]. *)
Definition update (i : Z) (r : R) : M table nat :=
  fun t =>
    match List.filter (matches i) (rows t) with
    | [] => (Returned 0%nat, t)
    | hit =>
        if check r then
          (Returned (length hit),
           {| rows := map (rewrite_row i r) (rows t);
              sequence := sequence t |})
        else (Raised IntegrityError, t)
    end.

(** [DELETE FROM t WHERE id = ?]; the value returned is
    [cursor.rowcount]. *)
Definition delete (i : Z) : M table nat :=
  fun t =>
    (Returned (length (List.filter (matches i) (rows t))),
     {| rows := List.filter (fun p => negb (matches i p)) (rows t);
        sequence := sequence t |}).

(** [SELECT * FROM t ORDER BY id] followed by [fetchall()] *)
Definition select_all (t : table) : list (Z * R) := rows t.

(** [SELECT * FROM t WHERE id = ?] followed by [fetchone()] *)
Definition select_one (i : Z) (t : table) : option (Z * R) :=
  List.find (matches i) (rows t).

Definition ids (t : table) : list Z := map fst (rows t).

(** What every table built by the statements above satisfies: the
    sequence value is not negative, the primary key is strictly
    increasing along the rows, and every row id is positive and at most
    the sequence value. *)
Definition wf (t : table) : Prop :=
  0 <= sequence t
  /\ StronglySorted Z.lt (ids t)
  /\ Forall (fun i => 0 < i <= sequence t) (ids t).

(** What one statement does to a table: the invariant is kept, the
    sequence value never goes down, no row id appears other than the
    one handed out, and that one is above the old sequence value and
    is the new one. *)
Definition advances (t t' : table) (new : option Z) : Prop :=
  wf t' /\ sequence t <= sequence t'
  /\ (forall j, In j (ids t') -> In j (ids t) \/ new = Some j)
  /\ match new with
     | Some i => sequence t < i /\ i = sequence t'
     | None => True
     end.

End Table.

Arguments table R : clear implicits.

(** The world of a store: its connection and the files on disk. *)
Record world (R : Type) : Type := World {
  conn : table R;
  files : gmap string string
}.
Arguments World {R} conn files.
Arguments conn {R} w.
Arguments files {R} w.

(** [self.conn.execute(...)] *)
Definition execute {R A} (stmt : M (table R) A) : M (world R) A :=
  fun w =>
    match stmt (conn w) with
    | (res, t) => (res, {| conn := t; files := files w |})
    end.

(** [with self.conn: body]: commit when the body returns, roll the
    database back and re-raise when it raises. *)
Definition with_conn {R A} (body : M (world R) A) : M (world R) A :=
  fun w =>
    match body w with
    | (Returned a, w') => (Returned a, w')
    | (Raised e, w') => (Raised e, {| conn := conn w; files := files w' |})
    end.

(** [open(path, "w", ...)], the writes and the close of the [with] block:
    the file is created or replaced and holds [text]. *)
Definition write_file {R} (path text : string) : M (world R) unit :=
  fun w =>
    (Returned tt, {| conn := conn w; files := <[path := text]> (files w) |}).

(** *** Sequences of calls on one store

    What a mutating call of a store answers: the id of the new row, or
    whether a row was matched. *)
Inductive reply : Type :=
| NewId (i : Z)
| Matched (b : bool).

Section Session.

Context {W C : Type}.
Variable perform : C -> M W reply.

(** The calls of [cs] made one after the other, each on the world the
    previous one left; an exception ends its call, not the sequence. *)
Fixpoint run (cs : list C) (w : W) : list (outcome reply) * W :=
  match cs with
  | [] => ([], w)
  | c :: cs' =>
      let (o, w1) := perform c w in
      let (os, w2) := run cs' w1 in
      (o :: os, w2)
  end.

End Session.

(** The ids handed out in a sequence of answers, oldest first. *)
Fixpoint assigned (os : list (outcome reply)) : list Z :=
  match os with
  | [] => []
  | Returned (NewId i) :: os' => i :: assigned os'
  | _ :: os' => assigned os'
  end.

End Sqlite.

Import Sqlite.

(** ** The [csv] module: the writer of the default dialect, and a reader *)

Module Csv.

Definition delimiter : ascii := ","%char.
Definition quotechar : ascii := "034"%char.
Definition CR : ascii := "013"%char.
Definition LF : ascii := "010"%char.
Definition lineterminator : string := String CR (String LF "").

Definition is_newline (c : ascii) : bool := Ascii.eqb c CR || Ascii.eqb c LF.

(** The characters that make [QUOTE_MINIMAL] quote a field: the
    delimiter, the quote character and those of the line terminator. *)
Definition special (c : ascii) : bool :=
  Ascii.eqb c delimiter || Ascii.eqb c quotechar || is_newline c.

Fixpoint needs_quotes (s : string) : bool :=
  match s with
  | EmptyString => false
  | String c s' => special c || needs_quotes s'
  end.

(** [doublequote=True]: a quote character inside a field is written
    twice. *)
Fixpoint double_quotes (s : string) : string :=
  match s with
  | EmptyString => EmptyString
  | String c s' =>
      if Ascii.eqb c quotechar then String c (String c (double_quotes s'))
      else String c (double_quotes s')
  end.

Definition quoted (s : string) : string :=
  String quotechar (double_quotes s +:+ String quotechar "").

(** One field as [join_append] writes it. *)
Definition field_text (s : string) : string :=
  if needs_quotes s then quoted s else s.

(** [writer.writerow(fields)]: the fields joined by the delimiter, a
    lone empty field written as two quotes, then the line terminator. *)
Definition writerow (fields : list string) : string :=
  let rec := String.concat (String delimiter "") (map field_text fields) in
  let rec :=
    match fields, rec with
    | _ :: _, EmptyString => quoted ""
    | _, _ => rec
    end in
  rec +:+ lineterminator.

(** *** The reader

    The state machine of [csv.reader] for the same dialect
    ([strict=False], no escape character), fed from a text file opened
    with [newline=""]: the file yields lines ending at LF, CR or CR LF
    with the ending kept, and the reader sees the characters of each
    line followed by an end-of-line event. *)

Inductive parser_state : Type :=
| START_RECORD | START_FIELD | IN_FIELD | IN_QUOTED_FIELD
| QUOTE_IN_QUOTED_FIELD | EAT_CRNL.

Record reader : Type := Reader {
  state : parser_state;
  field : string;
  fields : list string
}.

Inductive input : Type :=
| Char (c : ascii)
| EOL.

Definition parse_reset : reader :=
  {| state := START_RECORD; field := ""; fields := [] |}.

Definition parse_save_field (r : reader) (next : parser_state) : reader :=
  {| state := next; field := ""; fields := fields r ++ [field r] |}.

Definition parse_add_char (r : reader) (c : ascii) (next : parser_state)
  : reader :=
  {| state := next; field := field r +:+ String c ""; fields := fields r |}.

Definition goto (r : reader) (next : parser_state) : reader :=
  {| state := next; field := field r; fields := fields r |}.

(** The case [START_FIELD] of [parse_process_char], which the case
    [START_RECORD] falls through to. *)
Definition start_field (r : reader) (x : input) : reader :=
  match x with
  | EOL => parse_save_field r START_RECORD
  | Char c =>
      if is_newline c then parse_save_field r EAT_CRNL
      else if Ascii.eqb c quotechar then goto r IN_QUOTED_FIELD
      else if Ascii.eqb c delimiter then parse_save_field r START_FIELD
      else parse_add_char r c IN_FIELD
  end.

(** [parse_process_char]; [None] is [csv.Error]. *)
Definition parse_process_char (r : reader) (x : input) : option reader :=
  match state r with
  | START_RECORD =>
      match x with
      | EOL => Some r
      | Char c =>
          if is_newline c then Some (goto r EAT_CRNL)
          else Some (start_field r x)
      end
  | START_FIELD => Some (start_field r x)
  | IN_FIELD =>
      match x with
      | EOL => Some (parse_save_field r START_RECORD)
      | Char c =>
          if is_newline c then Some (parse_save_field r EAT_CRNL)
          else if Ascii.eqb c delimiter then
            Some (parse_save_field r START_FIELD)
          else Some (parse_add_char r c IN_FIELD)
      end
  | IN_QUOTED_FIELD =>
      match x with
      | EOL => Some r
      | Char c =>
          if Ascii.eqb c quotechar then Some (goto r QUOTE_IN_QUOTED_FIELD)
          else Some (parse_add_char r c IN_QUOTED_FIELD)
      end
  | QUOTE_IN_QUOTED_FIELD =>
      match x with
      | EOL => Some (parse_save_field r START_RECORD)
      | Char c =>
          if Ascii.eqb c quotechar then
            Some (parse_add_char r c IN_QUOTED_FIELD)
          else if Ascii.eqb c delimiter then
            Some (parse_save_field r START_FIELD)
          else if is_newline c then Some (parse_save_field r EAT_CRNL)
          else Some (parse_add_char r c IN_FIELD)
      end
  | EAT_CRNL =>
      match x with
      | EOL => Some (goto r START_RECORD)
      | Char c => if is_newline c then Some r else None
      end
  end.

(** Whether the character [c], followed by [rest], is the last of its
    line. *)
Definition ends_line (c : ascii) (rest : string) : bool :=
  if Ascii.eqb c LF then true
  else if Ascii.eqb c CR then
    match rest with
    | String c' _ => negb (Ascii.eqb c' LF)
    | EmptyString => true
    end
  else false.

Definition is_start_record (r : reader) : bool :=
  match state r with START_RECORD => true | _ => false end.

Definition in_quoted_field (r : reader) : bool :=
  match state r with IN_QUOTED_FIELD => true | _ => false end.

(** The end of the input in the middle of a record: a pending field is
    saved and the record returned. *)
Definition at_end_of_input (r : reader) : list (list string) :=
  match field r with
  | EmptyString =>
      if in_quoted_field r then [fields r ++ [field r]] else []
  | _ => [fields r ++ [field r]]
  end.

(** The records the iteration over the reader yields; [midline] tells
    that the current line has characters already. *)
Fixpoint records (r : reader) (midline : bool) (text : string)
  : option (list (list string)) :=
  match text with
  | EmptyString =>
      if midline then
        match parse_process_char r EOL with
        | None => None
        | Some r' =>
            if is_start_record r' then Some [fields r']
            else Some (at_end_of_input r')
        end
      else Some (at_end_of_input r)
  | String c rest =>
      match parse_process_char r (Char c) with
      | None => None
      | Some r1 =>
          if ends_line c rest then
            match parse_process_char r1 EOL with
            | None => None
            | Some r2 =>
                if is_start_record r2 then
                  option_map (cons (fields r2))
                             (records parse_reset false rest)
                else records r2 false rest
            end
          else records r1 true rest
      end
  end.

(** [list(csv.reader(f))] *)
Definition read (text : string) : option (list (list string)) :=
  records parse_reset false text.

End Csv.

(** ** The sensor-reading store (src/Mechatronics.py) *)

Module SensorDB.

(** The columns of [sensor_data] other than [id], in declaration order. *)
Record fields : Type := Fields {
  sensor_name : string;
  value : Q;
  unit : string;
  timestamp : string;
  status : string
}.

(** A row as [sqlite3.Row] gives it: the id and the other columns. *)
Definition row : Type := Z * fields.

Definition id (r : row) : Z := fst r.

(** Every column is NOT NULL and none has a CHECK; the values bound by
    the statements are never NULL. *)
Definition check (f : fields) : bool := true.

Definition world : Type := Sqlite.world fields.

(** [_create_table()]: the statement that declares the columns above and
    their constraints, [check]. *)
Definition _create_table (db : option (table fields)) : table fields :=
  create_table_if_not_exists db.

(** [SensorDB(db_file)]: [db] is the [sensor_data] table of the file, if
    the file has one, and [fs] the other files on disk. *)
Definition init (db : option (table fields)) (fs : gmap string string)
  : world :=
  {| conn := _create_table db; files := fs |}.

(** [add_reading(sensor_name, value, unit, timestamp=None, status="Normal")];
    [now] is what [datetime.datetime.now().strftime("%Y-%m-%d %H:%M:%S")]
    gives at the call, and an omitted [status] is [None] here. *)
Definition add_reading (now : string) (sensor_name : string) (value : Q)
    (unit : string) (timestamp : option string) (status : option string)
  : M world Z :=
  let status := default "Normal" status in
  let timestamp := match timestamp with None => now | Some t => t end in
  with_conn
    (execute (insert check
       {| sensor_name := strip sensor_name; value := value;
          unit := strip unit; timestamp := timestamp;
          status := strip status |})).

Definition get_all_readings (w : world) : list row := select_all (conn w).

Definition get_reading (reading_id : Z) (w : world) : option row :=
  select_one reading_id (conn w).

Definition update_reading (reading_id : Z) (sensor_name : string)
    (value : Q) (unit timestamp status : string) : M world bool :=
  rowcount <- with_conn
    (execute (update check reading_id
       {| sensor_name := strip sensor_name; value := value;
          unit := strip unit; timestamp := strip timestamp;
          status := strip status |})) ;;
  ret (0 <? rowcount)%nat.

Definition delete_reading (reading_id : Z) : M world bool :=
  rowcount <- with_conn (execute (delete reading_id)) ;;
  ret (0 <? rowcount)%nat.

(** The mutating calls, for sequences of them. *)
Inductive call : Type :=
| Add (now sensor_name : string) (value : Q) (unit : string)
      (timestamp status : option string)
| Update (reading_id : Z) (sensor_name : string) (value : Q)
         (unit timestamp status : string)
| Delete (reading_id : Z).

Definition perform (c : call) : M world reply :=
  match c with
  | Add now n v u ts st =>
      i <- add_reading now n v u ts st ;; ret (NewId i)
  | Update i n v u ts st =>
      b <- update_reading i n v u ts st ;; ret (Matched b)
  | Delete i => b <- delete_reading i ;; ret (Matched b)
  end.

Section CsvExport.

(** [repr] of a float, which [csv.writer] applies to a REAL cell. *)
Variable float_repr : Q -> string.

Definition header : list string :=
  ["id"; "sensor_name"; "value"; "unit"; "timestamp"; "status"].

(** The list [[r["id"], r["sensor_name"], ...]] a row is written from,
    each cell in the text form the writer gives it. *)
Definition cells (r : row) : list string :=
  [pretty (id r); sensor_name (snd r); float_repr (value (snd r));
   unit (snd r); timestamp (snd r); status (snd r)].

(** [export_to_csv(csv_path="sensor_log.csv")] *)
Definition export_to_csv (csv_path : option string) : M world Datatypes.unit :=
  let csv_path := default "sensor_log.csv" csv_path in
  fun w =>
    match get_all_readings w with
    | [] => raise (ValueError "No sensor data to export.") w
    | rows =>
        write_file csv_path
          (fold_left (fun f r => f +:+ Csv.writerow (cells r)) rows
                     (Csv.writerow header)) w
    end.

End CsvExport.

End SensorDB.

(** ** The order store (src/customerDatabase.py) *)

Module OrderDB.

(** The columns of [orders] other than [id], in declaration order. *)
Record fields : Type := Fields {
  customer_name : string;
  product : string;
  quantity : Z;
  unit_price : Q;
  order_date : string;
  status : string
}.

Definition row : Type := Z * fields.

Definition id (r : row) : Z := fst r.

(** [CHECK(quantity > 0)] and [CHECK(unit_price >= 0)]; every column is
    NOT NULL and the values bound are never NULL. *)
Definition check (f : fields) : bool :=
  (0 <? quantity f) && Qle_bool 0 (unit_price f).

Definition world : Type := Sqlite.world fields.

(** [_create_table()]: the statement that declares the columns above and
    their constraints, [check]. *)
Definition _create_table (db : option (table fields)) : table fields :=
  create_table_if_not_exists db.

(** [OrderDB(db_file)]: [db] is the [orders] table of the file, if the
    file has one, and [fs] the other files on disk. *)
Definition init (db : option (table fields)) (fs : gmap string string)
  : world :=
  {| conn := _create_table db; files := fs |}.

(** [add_order(customer_name, product, quantity, unit_price,
    order_date=None, status="pending")]; [today] is what
    [datetime.date.today().isoformat()] gives at the call, and an omitted
    [status] is [None] here. *)
Definition add_order (today : string) (customer_name product : string)
    (quantity : Z) (unit_price : Q) (order_date : option string)
    (status : option string) : M world Z :=
  let status := default "pending" status in
  let order_date := match order_date with None => today | Some d => d end in
  with_conn
    (execute (insert check
       {| customer_name := strip customer_name; product := strip product;
          quantity := quantity; unit_price := unit_price;
          order_date := order_date; status := strip status |})).

Definition get_all_orders (w : world) : list row := select_all (conn w).

Definition get_order (order_id : Z) (w : world) : option row :=
  select_one order_id (conn w).

Definition update_order (order_id : Z) (customer_name product : string)
    (quantity : Z) (unit_price : Q) (order_date status : string)
  : M world bool :=
  rowcount <- with_conn
    (execute (update check order_id
       {| customer_name := strip customer_name; product := strip product;
          quantity := quantity; unit_price := unit_price;
          order_date := strip order_date; status := strip status |})) ;;
  ret (0 <? rowcount)%nat.

Definition delete_order (order_id : Z) : M world bool :=
  rowcount <- with_conn (execute (delete order_id)) ;;
  ret (0 <? rowcount)%nat.

(** The mutating calls, for sequences of them. *)
Inductive call : Type :=
| Add (today customer_name product : string) (quantity : Z)
      (unit_price : Q) (order_date status : option string)
| Update (order_id : Z) (customer_name product : string) (quantity : Z)
         (unit_price : Q) (order_date status : string)
| Delete (order_id : Z).

Definition perform (c : call) : M world reply :=
  match c with
  | Add today n p q u d st =>
      i <- add_order today n p q u d st ;; ret (NewId i)
  | Update i n p q u d st =>
      b <- update_order i n p q u d st ;; ret (Matched b)
  | Delete i => b <- delete_order i ;; ret (Matched b)
  end.

Section CsvExport.

(** [repr] of a float, which [csv.writer] applies to a REAL cell. *)
Variable float_repr : Q -> string.

Definition header : list string :=
  ["id"; "customer_name"; "product"; "quantity"; "unit_price";
   "order_date"; "status"].

(** The list [[r["id"], r["customer_name"], ...]] a row is written
    from, each cell in the text form the writer gives it. *)
Definition cells (r : row) : list string :=
  [pretty (id r); customer_name (snd r); product (snd r);
   pretty (quantity (snd r)); float_repr (unit_price (snd r));
   order_date (snd r); status (snd r)].

(** [export_to_csv(csv_path)] *)
Definition export_to_csv (csv_path : string) : M world unit :=
  fun w =>
    match get_all_orders w with
    | [] => raise (ValueError "No orders to export.") w
    | rows =>
        write_file csv_path
          (fold_left (fun f r => f +:+ Csv.writerow (cells r)) rows
                     (Csv.writerow header)) w
    end.

End CsvExport.

End OrderDB.


(** ** Sample worlds

    Small worlds the examples are run on: a sensor table and an order table
    with one row each, built by the stores' own [add] on a new file. *)

Module Samples.

Definition one_reading : SensorDB.world :=
  snd (SensorDB.add_reading "2024-03-01 08:00:00" "Pump-A" (3 # 2) "kPa"
         None None (SensorDB.init None ∅)).

Definition one_order : OrderDB.world :=
  snd (OrderDB.add_order "2024-03-01" "Ada" "Valve" 3 (21 # 2) None None
         (OrderDB.init None ∅)).

(** A stand-in for [repr] of a float in the examples: the fraction,
    spelled out. *)
Definition fraction_text (q : Q) : string :=
  pretty (Qnum q) +:+ "/" +:+ pretty (Zpos (Qden q)).

(** A session on [one_order], in two parts: the only row is deleted and a
    row added; then a rejected add, a delete of the row just added, and
    two more adds. *)
Definition earlier_calls : list OrderDB.call :=
  [OrderDB.Delete 1;
   OrderDB.Add "2024-03-02" "Bob" "Pump" 1 (5 # 1) None None].

Definition later_calls : list OrderDB.call :=
  [OrderDB.Add "2024-03-03" "Cy" "Seal" 0 (1 # 1) None None;
   OrderDB.Delete 2;
   OrderDB.Add "2024-03-03" "Cy" "Seal" 2 (1 # 1) None None;
   OrderDB.Add "2024-03-04" "Di" "Gasket" 7 (0 # 1) None (Some "paid")].

End Samples.

(** ** The console: [input] and [print]

    The interactive parts of the repository read lines with [input] and
    write with [print].  The standard input is the list of the lines still
    to be read, the standard output the list of what was written so far.
    The messages that hold characters above code point 255 are kept as the
    bytes of the source file. *)

Module Console.

(** The exceptions of the interactive code: [EOFError] ([input] at the end
    of the input), the [ValueError] of [int(text)] or [float(text)], the
    [IndexError] of a list index out of range, and the exceptions of a
    store. *)
Inductive exc : Type :=
| EOFError
| ValueError_of (text : string)
| IndexError
| StoreError (e : exn).

(** What reaches the standard output: the text of a [print], or the prompt
    of an [input]. *)
Inductive output : Type :=
| Printed (text : string)
| Prompted (prompt : string).

Record console : Type := Terminal {
  stdin : list string;
  stdout : list output
}.

Inductive result (A : Type) : Type :=
| Done (a : A)
| Failed (e : exc).
Arguments Done {A} a.
Arguments Failed {A} e.

(** The newline character of a string literal. *)
Definition nl : string := String "010" EmptyString.

(** [str.lower] on one character, for the code points below 256: the
    letters A to Z, and the capital letters of Latin-1 (0xC0 to 0xDE but
    the multiplication sign 0xD7). *)
Definition lower_char (c : ascii) : ascii :=
  let n := N_of_ascii c in
  if ((65 <=? n) && (n <=? 90)
      || (192 <=? n) && (n <=? 222) && negb (n =? 215))%N
  then ascii_of_N (n + 32)
  else c.

Fixpoint lower (s : string) : string :=
  match s with
  | EmptyString => EmptyString
  | String c s' => String (lower_char c) (lower s')
  end.

(** [str(b)] of a boolean *)
Definition bool_text (b : bool) : string := if b then "True" else "False".

(** [l[index]]: an index below zero counts from the end; [None] is
    [IndexError]. *)
Definition getitem {A} (l : list A) (index : Z) : option A :=
  let len := Z.of_nat (length l) in
  if (0 <=? index) && (index <? len) then nth_error l (Z.to_nat index)
  else if (- len <=? index) && (index <? 0) then
    nth_error l (Z.to_nat (len + index))
  else None.

End Console.

Import Console.

(** ** The phone-number speller (src/ADDMORE.py) *)

Module PhoneSpeller.

Definition digits : list string :=
  ["zero"; "one"; "two"; "three"; "four";
   "five"; "six"; "seven"; "eight"; "nine"].

(** [int(char)] for a string of one character: among the code points below
    256 the decimal digits 0 to 9 are accepted and nothing else; [None] is
    [ValueError]. *)
Definition int_of_char (c : ascii) : option Z :=
  let n := Z.of_N (N_of_ascii c) in
  if (48 <=? n) && (n <=? 57) then Some (n - 48) else None.

(** [for char in phone_number: index = int(char); print(digits[index])] *)
Fixpoint spell (phone_number : string) (out : list output)
  : result unit * list output :=
  match phone_number with
  | EmptyString => (Done tt, out)
  | String char rest =>
      match int_of_char char with
      | None => (Failed (ValueError_of (String char EmptyString)), out)
      | Some index =>
          match getitem digits index with
          | None => (Failed IndexError, out)
          | Some word => spell rest (out ++ [Printed word])
          end
      end
  end.

(** The word one turn of the loop prints for a character: that of the
    digit the character is. *)
Definition spelt (char : ascii) (word : string) : Prop :=
  exists index, int_of_char char = Some index
                /\ getitem digits index = Some word.

(** The script, from the prompt to the last word. *)
Definition main (c : console) : result unit * console :=
  let out := stdout c ++ [Prompted "Enter the phone number: "] in
  match stdin c with
  | [] => (Failed EOFError, {| stdin := []; stdout := out |})
  | phone_number :: rest =>
      match spell phone_number out with
      | (r, out') => (r, {| stdin := rest; stdout := out' |})
      end
  end.

End PhoneSpeller.

(** ** The admission logger (src/MAN.py) *)

Module Admission.

Record student : Type := Student {
  name : string;
  age : Z;
  score : Q;
  performance : string;
  eligible : bool
}.

(** The float the literal [89.9] denotes. *)
Definition pass_ceiling : Q := 3163075050785997 # 35184372088832.

Definition Qltb (a b : Q) : bool := negb (Qle_bool b a).

(** The performance evaluation of a score. *)
Definition grade (score_entered : Q) : string :=
  if Qltb 90 score_entered then "EXCELLENT"
  else if Qle_bool 60 score_entered && Qle_bool score_entered pass_ceiling
       then "PASS"
  else "FAIL".

(** [eligible = score_entered >= 60] *)
Definition eligibility (score_entered : Q) : bool := Qle_bool 60 score_entered.

Definition rejected_text : string :=
  "ADMITTANCE REJECTED. PLEASE " +:+ nl
  +:+ "FOLLOW THE STEPS TO RESCHEDULE ADMITTANCE.".

Definition welcome_text : string :=
  "CONGRATULATIONS! WE LOOK FORWARD TO WALKING WITH YOU.".

Definition fieldnames : list string :=
  ["name"; "age"; "score"; "performance"; "eligible"].

Section Script.

(** [int(text)] and [float(text)], [None] for [ValueError], and [repr] of
    a float. *)
Variable int_of : string -> option Z.
Variable float_of : string -> option Q.
Variable float_repr : Q -> string.

Definition at_end (out : list output) (prompt : string)
  : result (list student) * console :=
  (Failed EOFError, {| stdin := []; stdout := out ++ [Prompted prompt] |}).

(** The [while True] loop: one student for each turn, four lines read. *)
Fixpoint entries (lines : list string) (out : list output)
    (students : list student) : result (list student) * console :=
  let out := out ++ [Printed (nl +:+ "--- New Student Entry ---")] in
  match lines with
  | [] => at_end out "Enter your name: "
  | name :: lines1 =>
  let out := out ++ [Prompted "Enter your name: "] in
  match lines1 with
  | [] => at_end out "Enter your age: "
  | age_text :: lines2 =>
  let out := out ++ [Prompted "Enter your age: "] in
  match int_of age_text with
  | None =>
      (Failed (ValueError_of age_text), {| stdin := lines2; stdout := out |})
  | Some age_entering =>
  let out :=
    out ++ [Printed (if 20 <=? age_entering then rejected_text
                     else welcome_text)] in
  match lines2 with
  | [] => at_end out "Enter your score: "
  | score_text :: lines3 =>
  let out := out ++ [Prompted "Enter your score: "] in
  match float_of score_text with
  | None =>
      (Failed (ValueError_of score_text), {| stdin := lines3; stdout := out |})
  | Some score_entered =>
  let performance := grade score_entered in
  let out := out ++ [Printed ("Performance: " +:+ performance)] in
  let eligible := eligibility score_entered in
  let out :=
    out ++ [Printed ("Enrollment Eligibility: " +:+ bool_text eligible)] in
  let students :=
    students ++ [{| name := name; age := age_entering;
                    score := score_entered; performance := performance;
                    eligible := eligible |}] in
  match lines3 with
  | [] => at_end out "Do you want to enter another student? (yes/no): "
  | continue_input :: rest =>
  let out :=
    out ++ [Prompted "Do you want to enter another student? (yes/no): "] in
  if String.eqb (lower continue_input) "yes" then entries rest out students
  else (Done students, {| stdin := rest; stdout := out |})
  end end end end end end.

(** A student as a turn of the loop records it: graded from the score
    entered. *)
Definition recorded (s : student) : Prop :=
  performance s = grade (score s) /\ eligible s = eligibility (score s).

(** One line of the summary. *)
Definition summary_line (s : student) : string :=
  name s +:+ " (Age " +:+ pretty (age s) +:+ ") - Score: "
  +:+ float_repr (score s) +:+ ", Performance: " +:+ performance s
  +:+ ", Eligible: " +:+ bool_text (eligible s).

(** The values of a student in the order of [fieldnames], as
    [csv.DictWriter] writes them. *)
Definition csv_row (s : student) : list string :=
  [name s; pretty (age s); float_repr (score s); performance s;
   bool_text (eligible s)].

(** The script: the loop, the summary, then [students.csv]. *)
Definition main (c : console) (files : gmap string string)
  : result unit * (console * gmap string string) :=
  match entries (stdin c) (stdout c) [] with
  | (Failed e, c') => (Failed e, (c', files))
  | (Done students, c') =>
      let out :=
        stdout c'
        ++ [Printed (nl +:+ "=== Summary of All Students Entered ===")]
        ++ map (fun s => Printed (summary_line s)) students in
      let text :=
        fold_left (fun f s => f +:+ Csv.writerow (csv_row s)) students
                  (Csv.writerow fieldnames) in
      let out :=
        out ++ [Printed (nl +:+ "All student data has been saved to "
                         +:+ "'students.csv'.")] in
      (Done tt,
       ({| stdin := stdin c'; stdout := out |},
        <["students.csv" := text]> files))
  end.

End Script.

End Admission.

(** ** A shell around a store

    The menu-driven programs run a store from the console.  Their state is
    the console, the world of the store, the number of times the clock was
    read, and whether the connection was closed. *)

Module Shell.

Record shell (R : Type) : Type := State {
  term : console;
  store : world R;
  ticks : nat;
  closed : bool
}.
Arguments State {R} term store ticks closed.
Arguments term {R} s.
Arguments store {R} s.
Arguments ticks {R} s.
Arguments closed {R} s.

Definition IO (R A : Type) : Type := shell R -> result A * shell R.

Definition pure {R A} (a : A) : IO R A := fun s => (Done a, s).

Definition and_then {R A B} (m : IO R A) (k : A -> IO R B) : IO R B :=
  fun s =>
    match m s with
    | (Done a, s') => k a s'
    | (Failed e, s') => (Failed e, s')
    end.

(** A reader of the console alone, run in the shell. *)
Definition on_console {R A} (f : console -> result A * console) : IO R A :=
  fun s =>
    match f (term s) with
    | (r, c) =>
        (r, {| term := c; store := store s; ticks := ticks s;
               closed := closed s |})
    end.

(** [print(text)] *)
Definition write (text : string) (c : console) : result unit * console :=
  (Done tt, {| stdin := stdin c; stdout := stdout c ++ [Printed text] |}).

(** [input(prompt)] *)
Definition read (prompt : string) (c : console) : result string * console :=
  match stdin c with
  | [] =>
      (Failed EOFError,
       {| stdin := []; stdout := stdout c ++ [Prompted prompt] |})
  | line :: rest =>
      (Done line, {| stdin := rest; stdout := stdout c ++ [Prompted prompt] |})
  end.

Definition print {R} (text : string) : IO R unit := on_console (write text).

Definition input {R} (prompt : string) : IO R string :=
  on_console (read prompt).

(** A method of the store called from the shell, its exception left to
    propagate. *)
Definition call {R A} (m : M (world R) A) : IO R A :=
  fun s =>
    match m (store s) with
    | (Returned a, w) =>
        (Done a, {| term := term s; store := w; ticks := ticks s;
                    closed := closed s |})
    | (Raised e, w) =>
        (Failed (StoreError e),
         {| term := term s; store := w; ticks := ticks s;
            closed := closed s |})
    end.

(** A reading of the clock: the number of the reading. *)
Definition clock {R} : IO R nat :=
  fun s =>
    (Done (ticks s),
     {| term := term s; store := store s; ticks := S (ticks s);
        closed := closed s |}).

(** [db.close()] *)
Definition close {R} : IO R unit :=
  fun s =>
    (Done tt,
     {| term := term s; store := store s; ticks := ticks s;
        closed := true |}).

(** [text * n] *)
Fixpoint repeat_text (text : string) (n : nat) : string :=
  match n with
  | O => EmptyString
  | S n' => text +:+ repeat_text text n'
  end.

(** [a or b] on texts: [a] unless it is empty. *)
Definition or_text (a b : string) : string :=
  match a with
  | EmptyString => b
  | _ => a
  end.

End Shell.

Import Shell.

Notation "'let*' x ':=' m 'in' k" := (and_then m (fun x => k))
  (at level 10, x name, m at level 100, k at level 200, only parsing).
Notation "m ';;;' k" := (and_then m (fun _ => k))
  (at level 100, k at level 200, right associativity, only parsing).

(** ** The shell of the order store (src/customerDatabase.py) *)

Module OrderShell.

Section Program.

(** [int(text)] and [float(text)], [None] for [ValueError];
    [date.fromisoformat(text).isoformat()], [None] for an exception;
    [repr] of a float; [datetime.date.today().isoformat()] at the n-th
    reading of the clock; the default path of an export, the file
    [orders_export.csv] in [os.getcwd()]; and [str] of an exception of the
    store. *)
Variable int_of : string -> option Z.
Variable float_of : string -> option Q.
Variable fromisoformat : string -> option string.
Variable float_repr : Q -> string.
Variable today_text : nat -> string.
Variable default_path : string.
Variable str_of_exn : exn -> string.

(** *** Input helpers *)

Fixpoint input_nonempty_loop (prompt : string) (lines : list string)
    (out : list output) : result string * console :=
  let out := out ++ [Prompted prompt] in
  match lines with
  | [] => (Failed EOFError, {| stdin := []; stdout := out |})
  | line :: rest =>
      match strip line with
      | EmptyString =>
          input_nonempty_loop prompt rest
            (out ++ [Printed "Input cannot be empty. Please try again."])
      | val => (Done val, {| stdin := rest; stdout := out |})
      end
  end.

Definition input_nonempty (prompt : string) (c : console)
  : result string * console :=
  input_nonempty_loop prompt (stdin c) (stdout c).

Fixpoint input_int_loop (prompt : string) (min_value : option Z)
    (lines : list string) (out : list output) : result Z * console :=
  let out := out ++ [Prompted prompt] in
  match lines with
  | [] => (Failed EOFError, {| stdin := []; stdout := out |})
  | line :: rest =>
      match int_of (strip line) with
      | Some v =>
          match min_value with
          | Some m =>
              if v <? m then
                input_int_loop prompt min_value rest
                  (out ++ [Printed ("Value must be at least " +:+ pretty m
                                    +:+ ".")])
              else (Done v, {| stdin := rest; stdout := out |})
          | None => (Done v, {| stdin := rest; stdout := out |})
          end
      | None =>
          input_int_loop prompt min_value rest
            (out ++ [Printed "Please enter a valid integer."])
      end
  end.

Definition input_int (prompt : string) (min_value : option Z) (c : console)
  : result Z * console :=
  input_int_loop prompt min_value (stdin c) (stdout c).

Fixpoint input_float_loop (prompt : string) (min_value : option Q)
    (lines : list string) (out : list output) : result Q * console :=
  let out := out ++ [Prompted prompt] in
  match lines with
  | [] => (Failed EOFError, {| stdin := []; stdout := out |})
  | line :: rest =>
      match float_of (strip line) with
      | Some v =>
          match min_value with
          | Some m =>
              if Admission.Qltb v m then
                input_float_loop prompt min_value rest
                  (out ++ [Printed ("Value must be at least "
                                    +:+ float_repr m +:+ ".")])
              else (Done v, {| stdin := rest; stdout := out |})
          | None => (Done v, {| stdin := rest; stdout := out |})
          end
      | None =>
          input_float_loop prompt min_value rest
            (out ++ [Printed
                       "Please enter a valid number (e.g., 1500 or 1500.00)."])
      end
  end.

Definition input_float (prompt : string) (min_value : option Q) (c : console)
  : result Q * console :=
  input_float_loop prompt min_value (stdin c) (stdout c).

(** [not s and default_iso]: the line is blank and there is a default that
    is not the empty text. *)
Definition blank_with_default (s : string) (default_iso : option string)
  : option string :=
  match s, default_iso with
  | EmptyString, Some (String c d) => Some (String c d)
  | _, _ => None
  end.

Fixpoint input_date_loop (prompt : string) (default_iso : option string)
    (lines : list string) (out : list output) : result string * console :=
  let out := out ++ [Prompted prompt] in
  match lines with
  | [] => (Failed EOFError, {| stdin := []; stdout := out |})
  | line :: rest =>
      match blank_with_default (strip line) default_iso with
      | Some d => (Done d, {| stdin := rest; stdout := out |})
      | None =>
          match fromisoformat (strip line) with
          | Some iso => (Done iso, {| stdin := rest; stdout := out |})
          | None =>
              input_date_loop prompt default_iso rest
                (out ++ [Printed ("Please enter a valid date in YYYY-MM-DD "
                                  +:+ "format or leave blank for today.")])
          end
      end
  end.

Definition input_date (prompt : string) (default_iso : option string)
    (c : console) : result string * console :=
  input_date_loop prompt default_iso (stdin c) (stdout c).

Fixpoint confirm_loop (prompt : string) (lines : list string)
    (out : list output) : result bool * console :=
  let out := out ++ [Prompted (prompt +:+ " (y/n): ")] in
  match lines with
  | [] => (Failed EOFError, {| stdin := []; stdout := out |})
  | line :: rest =>
      let resp := lower (strip line) in
      if String.eqb resp "y" || String.eqb resp "yes" then
        (Done true, {| stdin := rest; stdout := out |})
      else if String.eqb resp "n" || String.eqb resp "no" then
        (Done false, {| stdin := rest; stdout := out |})
      else confirm_loop prompt rest (out ++ [Printed "Please answer y or n."])
  end.

Definition confirm (prompt : string) (c : console) : result bool * console :=
  confirm_loop prompt (stdin c) (stdout c).

(** *** Display helpers *)

Definition IOo (A : Type) : Type := IO OrderDB.fields A.

Definition print_order_row (row : OrderDB.row) : IOo unit :=
  print ("ID: " +:+ pretty (OrderDB.id row)) ;;;
  print ("  Customer : " +:+ OrderDB.customer_name (snd row)) ;;;
  print ("  Product  : " +:+ OrderDB.product (snd row)) ;;;
  print ("  Quantity : " +:+ pretty (OrderDB.quantity (snd row))) ;;;
  print ("  UnitPrice: " +:+ float_repr (OrderDB.unit_price (snd row))) ;;;
  print ("  Date     : " +:+ OrderDB.order_date (snd row)) ;;;
  print ("  Status   : " +:+ OrderDB.status (snd row)) ;;;
  print (repeat_text "-" 40).

(** [for r in rows: print_order_row(r)] *)
Fixpoint print_rows (rows : list OrderDB.row) : IOo unit :=
  match rows with
  | [] => pure tt
  | r :: rows' => print_order_row r ;;; print_rows rows'
  end.

Definition get_rows : IOo (list OrderDB.row) :=
  fun s => (Done (OrderDB.get_all_orders (store s)), s).

Definition get_row (order_id : Z) : IOo (option OrderDB.row) :=
  fun s => (Done (OrderDB.get_order order_id (store s)), s).

Definition list_orders : IOo unit :=
  let* rows := get_rows in
  match rows with
  | [] => print "No orders found."
  | _ =>
      print (nl +:+ "Found " +:+ pretty (length rows) +:+ " order(s):" +:+ nl
             +:+ repeat_text "=" 40) ;;;
      print_rows rows
  end.

(** *** Flows *)

Definition add_order_flow : IOo unit :=
  print (nl +:+ "-- Add New Order --") ;;;
  let* customer := on_console (input_nonempty "Customer name: ") in
  let* product := on_console (input_nonempty "Product name: ") in
  let* quantity :=
    on_console (input_int "Quantity (integer > 0): " (Some 1)) in
  let* unit_price :=
    on_console (input_float "Unit price (e.g., 5000): " (Some (0 # 1))) in
  let* tick := clock in
  let today := today_text tick in
  let* order_date :=
    on_console
      (input_date ("Order date [YYYY-MM-DD] (leave blank for " +:+ today
                   +:+ "): ") (Some today)) in
  let* status :=
    on_console
      (input_nonempty
         "Status (e.g., pending, shipped, cancelled) [default 'pending']: ") in
  let status := or_text status "pending" in
  let* order_id :=
    call (OrderDB.add_order today customer product quantity unit_price
            (Some order_date) (Some status)) in
  print ("✅ Order added with ID " +:+ pretty order_id +:+ ".").

Definition view_orders_flow : IOo unit :=
  print (nl +:+ "-- View Orders --") ;;; list_orders.

(** The inner function [maybe] of [update_order_flow]. *)
Definition maybe (prompt current_val : string) : IOo string :=
  let* line := input (prompt +:+ " [" +:+ current_val +:+ "]: ") in
  pure (or_text (strip line) current_val).

(** The loop of [update_order_flow] that asks for the quantity. *)
Fixpoint new_quantity_loop (existing : Z) (lines : list string)
    (out : list output) : result Z * console :=
  let out := out ++ [Prompted ("Quantity [" +:+ pretty existing +:+ "]: ")] in
  match lines with
  | [] => (Failed EOFError, {| stdin := []; stdout := out |})
  | line :: rest =>
      match strip line with
      | EmptyString => (Done existing, {| stdin := rest; stdout := out |})
      | q_raw =>
          match int_of q_raw with
          | Some q =>
              if q <=? 0 then
                new_quantity_loop existing rest
                  (out ++ [Printed "Quantity must be > 0."])
              else (Done q, {| stdin := rest; stdout := out |})
          | None =>
              new_quantity_loop existing rest
                (out ++ [Printed "Please enter a valid integer."])
          end
      end
  end.

(** The loop of [update_order_flow] that asks for the unit price. *)
Fixpoint new_price_loop (existing : Q) (lines : list string)
    (out : list output) : result Q * console :=
  let out :=
    out ++ [Prompted ("Unit price [" +:+ float_repr existing +:+ "]: ")] in
  match lines with
  | [] => (Failed EOFError, {| stdin := []; stdout := out |})
  | line :: rest =>
      match strip line with
      | EmptyString => (Done existing, {| stdin := rest; stdout := out |})
      | p_raw =>
          match float_of p_raw with
          | Some p =>
              if Admission.Qltb p 0 then
                new_price_loop existing rest
                  (out ++ [Printed "Price cannot be negative."])
              else (Done p, {| stdin := rest; stdout := out |})
          | None =>
              new_price_loop existing rest
                (out ++ [Printed "Please enter a valid number."])
          end
      end
  end.

Definition update_order_flow : IOo unit :=
  print (nl +:+ "-- Update Order --") ;;;
  let* order_id :=
    on_console (input_int "Enter order ID to update: " (Some 1)) in
  let* found := get_row order_id in
  match found with
  | None => print "Order not found."
  | Some existing =>
      print "Current values:" ;;;
      print_order_row existing ;;;
      print "Enter new values (leave blank to keep current value)." ;;;
      let* new_customer :=
        maybe "Customer name" (OrderDB.customer_name (snd existing)) in
      let* new_product :=
        maybe "Product name" (OrderDB.product (snd existing)) in
      let* new_quantity :=
        on_console
          (fun c => new_quantity_loop (OrderDB.quantity (snd existing))
                      (stdin c) (stdout c)) in
      let* new_price :=
        on_console
          (fun c => new_price_loop (OrderDB.unit_price (snd existing))
                      (stdin c) (stdout c)) in
      let* _ := clock in
      let* new_date :=
        on_console
          (input_date ("Order date [" +:+ OrderDB.order_date (snd existing)
                       +:+ "] (YYYY-MM-DD, leave blank to keep): ")
                      (Some (OrderDB.order_date (snd existing)))) in
      let* line :=
        input ("Status [" +:+ OrderDB.status (snd existing) +:+ "]: ") in
      let new_status := or_text (strip line) (OrderDB.status (snd existing)) in
      let* updated :=
        call (OrderDB.update_order order_id new_customer new_product
                new_quantity new_price new_date new_status) in
      if updated : bool then print "✅ Order updated successfully."
      else print "⚠️ Failed to update order (no changes made?)."
  end.

Definition delete_order_flow : IOo unit :=
  print (nl +:+ "-- Delete Order --") ;;;
  let* order_id :=
    on_console (input_int "Enter order ID to delete: " (Some 1)) in
  let* found := get_row order_id in
  match found with
  | None => print "Order not found."
  | Some existing =>
      print "Order to be deleted:" ;;;
      print_order_row existing ;;;
      let* yes :=
        on_console (confirm "Are you sure you want to delete this order?") in
      if yes : bool then
        let* deleted := call (OrderDB.delete_order order_id) in
        if deleted : bool then print "✅ Order deleted."
        else print "⚠️ Could not delete order."
      else print "Deletion cancelled."
  end.

(** [try: db.export_to_csv(path) ... except ValueError as e: ...
    except Exception as e: ...] *)
Definition export_flow : IOo unit :=
  print (nl +:+ "-- Export Orders to CSV --") ;;;
  let* line := input ("CSV file path [default: " +:+ default_path +:+ "]: ") in
  let path := or_text (strip line) default_path in
  fun s =>
    match OrderDB.export_to_csv float_repr path (store s) with
    | (Returned _, w) =>
        print ("✅ Exported orders to " +:+ path)
          {| term := term s; store := w; ticks := ticks s;
             closed := closed s |}
    | (Raised (ValueError msg), w) =>
        print ("⚠️ " +:+ msg)
          {| term := term s; store := w; ticks := ticks s;
             closed := closed s |}
    | (Raised e, w) =>
        print ("An error occurred while exporting: " +:+ str_of_exn e)
          {| term := term s; store := w; ticks := ticks s;
             closed := closed s |}
    end.

(** *** The menu *)

Definition menu_text : string :=
  nl +:+ "--- Order Database Menu ---" +:+ nl
  +:+ "1. Add Order" +:+ nl
  +:+ "2. View Orders" +:+ nl
  +:+ "3. Update Order" +:+ nl
  +:+ "4. Delete Order" +:+ nl
  +:+ "5. Export orders to CSV" +:+ nl
  +:+ "6. Exit" +:+ nl.

(** The [while True] loop of [menu_loop]; [None] when [fuel] turns did not
    reach its end. *)
Fixpoint menu_turns (fuel : nat) (s : shell OrderDB.fields)
  : option (result unit * shell OrderDB.fields) :=
  match fuel with
  | O => None
  | S fuel' =>
      match (print menu_text ;;; input "Choose an option (1-6): ") s with
      | (Failed e, s1) => Some (Failed e, s1)
      | (Done line, s1) =>
          let choice := strip line in
          let after (flow : IOo unit) :=
            match flow s1 with
            | (Failed e, s2) => Some (Failed e, s2)
            | (Done _, s2) => menu_turns fuel' s2
            end in
          if String.eqb choice "1" then after add_order_flow
          else if String.eqb choice "2" then after view_orders_flow
          else if String.eqb choice "3" then after update_order_flow
          else if String.eqb choice "4" then after delete_order_flow
          else if String.eqb choice "5" then after export_flow
          else if String.eqb choice "6" then Some (print "Goodbye 👋" s1)
          else
            after (print "Invalid choice — enter a number between 1 and 6.")
      end
  end.

(** [menu_loop()]: [db] is the [orders] table the file [orders.db] has, if
    it has one.  The loop runs inside [try: ... finally: db.close()], so
    the connection is closed however the loop ends; no interrupt from the
    keyboard is modelled.  Every turn reads a line, so one turn more than
    there are lines is enough. *)
Definition menu_loop (db : option (table OrderDB.fields))
    (files : gmap string string) (c : console)
  : option (result unit * shell OrderDB.fields) :=
  let s := {| term := c; store := OrderDB.init db files; ticks := 0;
              closed := false |} in
  match menu_turns (S (length (stdin c))) s with
  | None => None
  | Some (r, s') => Some (r, snd (close s'))
  end.

End Program.

End OrderShell.

(** ** The shell of the sensor store (src/Mechatronics.py) *)

Module SensorShell.

Section Program.

(** [int(text)] and [float(text)], [None] for [ValueError]; [repr] of a
    float; and [datetime.datetime.now().strftime("%Y-%m-%d %H:%M:%S")] at
    the n-th reading of the clock. *)
Variable int_of : string -> option Z.
Variable float_of : string -> option Q.
Variable float_repr : Q -> string.
Variable now_text : nat -> string.

(** *** Helper functions *)

Fixpoint input_nonempty_loop (prompt : string) (lines : list string)
    (out : list output) : result string * console :=
  let out := out ++ [Prompted prompt] in
  match lines with
  | [] => (Failed EOFError, {| stdin := []; stdout := out |})
  | line :: rest =>
      match strip line with
      | EmptyString =>
          input_nonempty_loop prompt rest
            (out ++ [Printed "⚠ Input cannot be empty."])
      | val => (Done val, {| stdin := rest; stdout := out |})
      end
  end.

Definition input_nonempty (prompt : string) (c : console)
  : result string * console :=
  input_nonempty_loop prompt (stdin c) (stdout c).

Fixpoint input_float_loop (prompt : string) (lines : list string)
    (out : list output) : result Q * console :=
  let out := out ++ [Prompted prompt] in
  match lines with
  | [] => (Failed EOFError, {| stdin := []; stdout := out |})
  | line :: rest =>
      match float_of (strip line) with
      | Some v => (Done v, {| stdin := rest; stdout := out |})
      | None =>
          input_float_loop prompt rest
            (out ++ [Printed "⚠ Please enter a valid number."])
      end
  end.

Definition input_float (prompt : string) (c : console)
  : result Q * console :=
  input_float_loop prompt (stdin c) (stdout c).

Definition IOs (A : Type) : Type := IO SensorDB.fields A.

(** [confirm(prompt)]: one question, and every answer but y and yes is a
    no. *)
Definition confirm (prompt : string) : IOs bool :=
  let* line := input (prompt +:+ " (y/n): ") in
  let resp := lower (strip line) in
  pure (String.eqb resp "y" || String.eqb resp "yes").

Definition print_reading (row : SensorDB.row) : IOs unit :=
  print ("ID: " +:+ pretty (SensorDB.id row)) ;;;
  print ("  Sensor   : " +:+ SensorDB.sensor_name (snd row)) ;;;
  print ("  Value    : " +:+ float_repr (SensorDB.value (snd row)) +:+ " "
         +:+ SensorDB.unit (snd row)) ;;;
  print ("  Time     : " +:+ SensorDB.timestamp (snd row)) ;;;
  print ("  Status   : " +:+ SensorDB.status (snd row)) ;;;
  print (repeat_text "-" 40).

(** [for r in rows: print_reading(r)] *)
Fixpoint print_rows (rows : list SensorDB.row) : IOs unit :=
  match rows with
  | [] => pure tt
  | r :: rows' => print_reading r ;;; print_rows rows'
  end.

Definition get_rows : IOs (list SensorDB.row) :=
  fun s => (Done (SensorDB.get_all_readings (store s)), s).

Definition get_row (reading_id : Z) : IOs (option SensorDB.row) :=
  fun s => (Done (SensorDB.get_reading reading_id (store s)), s).

(** [int(input(prompt))], the [ValueError] left to propagate. *)
Definition input_id (prompt : string) : IOs Z :=
  let* line := input prompt in
  fun s =>
    match int_of line with
    | Some v => (Done v, s)
    | None => (Failed (ValueError_of line), s)
    end.

(** [a or b] on floats: [a] unless it is zero. *)
Definition or_float (a b : Q) : Q := if Qeq_bool a 0 then b else a.

(** *** Menu functions *)

Definition add_reading_flow : IOs unit :=
  print (nl +:+ "-- Add Sensor Reading --") ;;;
  let* sensor_name := on_console (input_nonempty "Sensor name: ") in
  let* value := on_console (input_float "Sensor value: ") in
  let* unit := on_console (input_nonempty "Unit (e.g., °C, kPa, m/s²): ") in
  let* status :=
    on_console (input_nonempty "Status (Normal/Warning/Error): ") in
  let* tick := clock in
  let* rid :=
    call (SensorDB.add_reading (now_text tick) sensor_name value unit None
            (Some status)) in
  print ("✅ Reading added with ID " +:+ pretty rid).

Definition view_readings_flow : IOs unit :=
  let* rows := get_rows in
  match rows with
  | [] => print "📭 No sensor readings found."
  | _ => print_rows rows
  end.

Definition update_reading_flow : IOs unit :=
  let* rid := input_id "Enter reading ID to update: " in
  let* found := get_row rid in
  match found with
  | None => print "⚠ Reading not found."
  | Some row =>
      print "Current values:" ;;;
      print_reading row ;;;
      let* entered :=
        on_console
          (input_nonempty ("New sensor name ["
                           +:+ SensorDB.sensor_name (snd row) +:+ "]: ")) in
      let sensor_name := or_text entered (SensorDB.sensor_name (snd row)) in
      let* entered :=
        on_console
          (input_float ("New value ["
                        +:+ float_repr (SensorDB.value (snd row)) +:+ "]: ")) in
      let value := or_float entered (SensorDB.value (snd row)) in
      let* entered :=
        on_console
          (input_nonempty ("New unit [" +:+ SensorDB.unit (snd row)
                           +:+ "]: ")) in
      let unit := or_text entered (SensorDB.unit (snd row)) in
      let* entered :=
        on_console
          (input_nonempty ("New status [" +:+ SensorDB.status (snd row)
                           +:+ "]: ")) in
      let status := or_text entered (SensorDB.status (snd row)) in
      let* tick := clock in
      let timestamp := now_text tick in
      let* updated :=
        call (SensorDB.update_reading rid sensor_name value unit timestamp
                status) in
      if updated : bool then print "✅ Reading updated successfully."
      else print "⚠ Failed to update reading."
  end.

Definition delete_reading_flow : IOs unit :=
  let* rid := input_id "Enter reading ID to delete: " in
  let* found := get_row rid in
  match found with
  | None => print "⚠ Reading not found."
  | Some row =>
      print_reading row ;;;
      let* yes := confirm "Are you sure you want to delete this reading?" in
      if yes : bool then
        let* deleted := call (SensorDB.delete_reading rid) in
        if deleted : bool then print "🗑 Deleted successfully."
        else print "⚠ Could not delete reading."
      else pure tt
  end.

(** [try: db.export_to_csv(path) ... except ValueError as e: print("⚠", e)];
    any other exception propagates. *)
Definition export_flow : IOs unit :=
  let* line := input "Enter CSV filename [default: sensor_log.csv]: " in
  let path := or_text (strip line) "sensor_log.csv" in
  fun s =>
    match SensorDB.export_to_csv float_repr (Some path) (store s) with
    | (Returned _, w) =>
        print ("✅ Data exported to " +:+ path)
          {| term := term s; store := w; ticks := ticks s;
             closed := closed s |}
    | (Raised (ValueError msg), w) =>
        print ("⚠ " +:+ msg)
          {| term := term s; store := w; ticks := ticks s;
             closed := closed s |}
    | (Raised e, w) =>
        (Failed (StoreError e),
         {| term := term s; store := w; ticks := ticks s;
            closed := closed s |})
    end.

(** *** Main menu *)

Definition menu_text : string :=
  nl +:+ "--- Sensor Data Logger ---" +:+ nl
  +:+ "1. Add Sensor Reading" +:+ nl
  +:+ "2. View All Readings" +:+ nl
  +:+ "3. Update Reading" +:+ nl
  +:+ "4. Delete Reading" +:+ nl
  +:+ "5. Export to CSV" +:+ nl
  +:+ "6. Exit" +:+ nl.

(** The [while True] loop of [menu]; [None] when [fuel] turns did not reach
    its end. *)
Fixpoint menu_turns (fuel : nat) (s : shell SensorDB.fields)
  : option (result unit * shell SensorDB.fields) :=
  match fuel with
  | O => None
  | S fuel' =>
      match (print menu_text ;;; input "Choose an option (1-6): ") s with
      | (Failed e, s1) => Some (Failed e, s1)
      | (Done line, s1) =>
          let choice := strip line in
          let after (flow : IOs unit) :=
            match flow s1 with
            | (Failed e, s2) => Some (Failed e, s2)
            | (Done _, s2) => menu_turns fuel' s2
            end in
          if String.eqb choice "1" then after add_reading_flow
          else if String.eqb choice "2" then after view_readings_flow
          else if String.eqb choice "3" then after update_reading_flow
          else if String.eqb choice "4" then after delete_reading_flow
          else if String.eqb choice "5" then after export_flow
          else if String.eqb choice "6" then
            Some (print "👋 Exiting program..." s1)
          else after (print "⚠ Invalid choice, try again.")
      end
  end.

(** [menu()]: [db] is the [sensor_data] table the file [sensor_data.db]
    has, if it has one.  The loop runs inside [try: ... finally:
    db.close()].  Every turn reads a line, so one turn more than there are
    lines is enough. *)
Definition menu (db : option (table SensorDB.fields))
    (files : gmap string string) (c : console)
  : option (result unit * shell SensorDB.fields) :=
  let s := {| term := c; store := SensorDB.init db files; ticks := 0;
              closed := false |} in
  match menu_turns (S (length (stdin c))) s with
  | None => None
  | Some (r, s') => Some (r, snd (close s'))
  end.

End Program.

End SensorShell.

(** ** What a flow of a shell may do

    The flows of a shell are run one after the other on one state.  What
    they have in common is said once, for any store. *)

Module Flow.

Section Triples.

Context {R : Type}.

(** A console follows another: input is only consumed and output only
    added. *)
Definition extends (c c' : console) : Prop :=
  (exists used, stdin c = used ++ stdin c')
  /\ (exists new, stdout c' = stdout c ++ new).

(** A state follows another: the same of its console, the clock only
    advances, and the connection is closed only if it was. *)
Definition follows (s s' : shell R) : Prop :=
  extends (term s) (term s')
  /\ (ticks s <= ticks s')%nat
  /\ closed s' = closed s.

(** An invariant of the world of the store, and the exceptions a flow may
    end with. *)
Variable inv : world R -> Prop.
Variable ok : exc -> console -> Prop.

(** From a state whose world satisfies the invariant, [m] leads to a
    state that follows it and satisfies the invariant; it returns a value
    that satisfies [post], or fails with an exception [ok] allows on the
    console it leaves. *)
Definition safe {A} (m : IO R A) (post : A -> Prop) : Prop :=
  forall s, inv (store s) ->
    follows s (snd (m s)) /\ inv (store (snd (m s)))
    /\ match fst (m s) with
       | Done a => post a
       | Failed e => ok e (term (snd (m s)))
       end.

End Triples.

(** The input has run out: the only way a reader of the console fails. *)
Definition at_eof (e : exc) (c : console) : Prop :=
  e = EOFError /\ stdin c = [].

(** A reader of the console only consumes input and adds output; it
    returns a value that satisfies [post], or fails when the input has run
    out. *)
Definition reads {A} (f : console -> result A * console) (post : A -> Prop)
  : Prop :=
  forall c,
    extends c (snd (f c))
    /\ match fst (f c) with
       | Done a => post a
       | Failed e => at_eof e (snd (f c))
       end.

(** How a menu may end, from the state [s]: [o] is a result, on a state
    that follows [s] and satisfies the invariant; the menu has returned
    after printing [goodbye], or it has failed with an exception [ok]
    allows. *)
Definition ends_well {R} (inv : world R -> Prop) (ok : exc -> console -> Prop)
    (goodbye : string) (s : shell R) (o : option (result unit * shell R))
  : Prop :=
  exists r s',
    o = Some (r, s')
    /\ follows s s'
    /\ inv (store s')
    /\ match r with
       | Done _ => exists out, stdout (term s') = out ++ [Printed goodbye]
       | Failed e => ok e (term s')
       end.

(** Every row of the table satisfies the constraints of its columns. *)
Definition all_checked {R} (check : R -> bool) (w : world R) : Prop :=
  Forall (fun p => check (snd p) = true) (rows (conn w)).

End Flow.

(** ** Sample readers of numbers

    Stand-ins for [int], [float] and [date.fromisoformat] in the examples:
    a run of decimal digits read as its number, as an integer or as the
    float of that integer, and a text of ten characters taken as a
    date. *)

Module SampleReaders.

Fixpoint digits_value (s : string) (acc : Z) : option Z :=
  match s with
  | EmptyString => Some acc
  | String c s' =>
      match PhoneSpeller.int_of_char c with
      | Some d => digits_value s' (10 * acc + d)
      | None => None
      end
  end.

Definition int_of (s : string) : option Z :=
  match s with
  | EmptyString => None
  | _ => digits_value s 0
  end.

Definition float_of (s : string) : option Q := option_map inject_Z (int_of s).

Definition fromisoformat (s : string) : option string :=
  if (String.length s =? 10)%nat then Some s else None.

End SampleReaders.

(** ** Sample sessions

    States of the two shells the examples are run on: the store holds one
    row, and the lines are what a user types. *)

Module Sessions.

Definition at_the_orders (lines : list string) : shell OrderDB.fields :=
  {| term := {| stdin := lines; stdout := [] |};
     store := Samples.one_order; ticks := 0; closed := false |}.

Definition at_the_readings (lines : list string) : shell SensorDB.fields :=
  {| term := {| stdin := lines; stdout := [] |};
     store := Samples.one_reading; ticks := 0; closed := false |}.

(** The day and the time of the n-th reading of the clock. *)
Definition today_text (n : nat) : string := "2024-03-0" +:+ pretty (5 + n)%nat.

Definition now_text (n : nat) : string :=
  "2024-03-05 10:00:0" +:+ pretty n.

Definition str_of_exn (e : exn) : string :=
  match e with
  | ValueError msg => msg
  | IntegrityError => "constraint failed"
  end.

End Sessions.

(** * Facts *)

(** ** [strip] trims *)

Module StripFacts.

Lemma lstrip_head s c r : lstrip s = String c r -> isspace c = false.
Proof.
  induction s as [|a s IH]; simpl; [discriminate|].
  destruct (isspace a) eqn:E; [exact IH|].
  intros [= <- _]. exact E.
Qed.

Lemma rstrip_head s c r : rstrip s = String c r -> exists s', s = String c s'.
Proof.
  destruct s as [|a s]; simpl; [discriminate|].
  destruct (rstrip s); [destruct (isspace a)|]; intros [= <- _]; eauto.
Qed.

Lemma snoc_not_empty (r : string) (c : ascii) :
  r +:+ String c EmptyString <> EmptyString.
Proof. now destruct r. Qed.

Lemma rstrip_last s : forall r c,
  rstrip s = r +:+ String c EmptyString -> isspace c = false.
Proof.
  induction s as [|a s IH]; intros r c; simpl.
  - intros H. symmetry in H. now apply snoc_not_empty in H.
  - destruct (rstrip s) as [|b t] eqn:E.
    + destruct (isspace a) eqn:Ha.
      * intros H. symmetry in H. now apply snoc_not_empty in H.
      * destruct r as [|x r]; [now intros [= <-]|].
        intros [= _ H]. symmetry in H. now apply snoc_not_empty in H.
    + destruct r as [|x r]; [discriminate|].
      intros [= _ H]. now apply (IH r c).
Qed.

(** What [strip] returns neither starts nor ends with a space. *)
Lemma strip_trimmed s :
  (forall c r, strip s = String c r -> isspace c = false)
  /\ (forall r c, strip s = r +:+ String c EmptyString -> isspace c = false).
Proof.
  unfold strip. split.
  - intros c r H. destruct (rstrip_head _ _ _ H) as [s' Hs'].
    now apply (lstrip_head s c s').
  - intros r c. apply rstrip_last.
Qed.

(** [strip] drops nothing but spaces from the ends: a text that neither
    starts nor ends with one is returned as it is. *)
Lemma rstrip_keeps s : forall r c,
  s = r +:+ String c EmptyString -> isspace c = false -> rstrip s = s.
Proof.
  induction s as [|a s IH]; intros r c Hs Hc; [reflexivity|].
  simpl. destruct r as [|x r].
  - injection Hs as -> ->. simpl. now rewrite Hc.
  - injection Hs as -> Hs. rewrite (IH r c Hs Hc).
    subst s. now destruct r.
Qed.

Lemma strip_keeps c r d :
  isspace c = false -> isspace d = false ->
  strip (String c (r +:+ String d EmptyString))
  = String c (r +:+ String d EmptyString).
Proof.
  intros Hc Hd. unfold strip. simpl. rewrite Hc.
  now apply (rstrip_keeps _ (String c r) d).
Qed.

End StripFacts.

(** ** Rows, row ids and the statements *)

Module TableFacts.

Section Rows.

Context {R : Type}.
Implicit Types (t : table R) (l : list (Z * R)) (r : R) (i : Z).

Lemma max_rowid_above l p : In p l -> fst p <= max_rowid l.
Proof.
  induction l as [|q l IH]; simpl; [tauto|].
  intros [->|Hin]; [lia|]. specialize (IH Hin). lia.
Qed.

Lemma max_rowid_nonneg l : 0 <= max_rowid l.
Proof. induction l; simpl; lia. Qed.

Lemma next_rowid_above_rows t p : In p (rows t) -> fst p < next_rowid t.
Proof.
  intros Hin. apply max_rowid_above in Hin. unfold next_rowid. lia.
Qed.

Lemma next_rowid_above_sequence t : sequence t < next_rowid t.
Proof. unfold next_rowid. lia. Qed.

Lemma next_rowid_positive t : 0 < next_rowid t.
Proof. unfold next_rowid. pose proof (max_rowid_nonneg (rows t)). lia. Qed.

Lemma in_ids t i : In i (ids t) <-> exists r, In (i, r) (rows t).
Proof.
  unfold ids. rewrite in_map_iff. split.
  - intros [[j r] [<- Hin]]. now exists r.
  - intros [r Hin]. now exists (i, r).
Qed.

Lemma next_rowid_not_in_ids t : ~ In (next_rowid t) (ids t).
Proof.
  rewrite in_ids. intros [r Hin].
  apply next_rowid_above_rows in Hin. simpl in Hin. lia.
Qed.

(** *** [select_one] *)

Lemma find_matches_none l i :
  List.find (matches i) l = None <-> ~ In i (map fst l).
Proof.
  induction l as [|[j r] l IH]; simpl; [tauto|].
  unfold matches at 1. simpl. destruct (Z.eqb_spec j i) as [->|Hne].
  - split; [discriminate | intros H; exfalso; apply H; now left].
  - rewrite IH. split; [intros H [?|?]; [congruence | tauto] | tauto].
Qed.

Lemma find_matches_snoc l i r :
  ~ In i (map fst l) ->
  List.find (matches i) (l ++ [(i, r)]) = Some (i, r).
Proof.
  induction l as [|[j r'] l IH]; simpl; intros Hni.
  - unfold matches. simpl. now rewrite Z.eqb_refl.
  - unfold matches at 1. simpl. destruct (Z.eqb_spec j i) as [->|Hne].
    + exfalso. apply Hni. now left.
    + apply IH. tauto.
Qed.

Lemma select_one_is_some_iff t i :
  is_Some (select_one i t) <-> In i (ids t).
Proof.
  unfold select_one, ids. split.
  - intros [p Hp]. destruct (List.find (matches i) (rows t)) eqn:E;
      [|discriminate].
    destruct (In_dec Z.eq_dec i (map fst (rows t))) as [Hin|Hni]; [trivial|].
    apply find_matches_none in Hni. congruence.
  - intros Hin. destruct (List.find (matches i) (rows t)) eqn:E; [eauto|].
    apply find_matches_none in E. tauto.
Qed.

(** *** The rows a statement matches *)

Lemma filter_matches_nil l i :
  List.filter (matches i) l = [] <-> ~ In i (map fst l).
Proof.
  induction l as [|[j r] l IH]; simpl; [tauto|].
  unfold matches at 1. simpl. destruct (Z.eqb_spec j i) as [->|Hne].
  - split; [discriminate | intros H; exfalso; apply H; now left].
  - rewrite IH. split; [intros H [?|?]; [congruence | tauto] | tauto].
Qed.

Lemma filter_matches_find l i :
  List.filter (matches i) l = [] <-> List.find (matches i) l = None.
Proof. now rewrite filter_matches_nil, find_matches_none. Qed.

Lemma rowcount_positive l i :
  (0 <? length (List.filter (matches i) l))%nat
  = match List.find (matches i) l with Some _ => true | None => false end.
Proof.
  induction l as [|p l IH]; simpl; [reflexivity|].
  destruct (matches i p); simpl; [reflexivity | exact IH].
Qed.

Lemma rewrite_row_hit i r p :
  matches i p = true -> rewrite_row i r p = (i, r).
Proof.
  unfold rewrite_row. intros H. rewrite H.
  unfold matches in H. apply Z.eqb_eq in H. now rewrite H.
Qed.

Lemma rewrite_row_miss i r p :
  matches i p = false -> rewrite_row i r p = p.
Proof. unfold rewrite_row. now intros ->. Qed.

Lemma map_fst_rewrite l i r : map fst (map (rewrite_row i r) l) = map fst l.
Proof.
  rewrite map_map. apply map_ext. intros p. unfold rewrite_row.
  now destruct (matches i p).
Qed.

Lemma find_rewrite_same l i r p :
  List.find (matches i) l = Some p ->
  List.find (matches i) (map (rewrite_row i r) l) = Some (i, r).
Proof.
  induction l as [|q l IH]; simpl; [discriminate|].
  destruct (matches i q) eqn:E.
  - intros _. rewrite (rewrite_row_hit _ _ _ E).
    unfold matches. simpl. now rewrite Z.eqb_refl.
  - rewrite (rewrite_row_miss _ _ _ E), E. exact IH.
Qed.

Lemma find_rewrite_other l i j r :
  j <> i ->
  List.find (matches j) (map (rewrite_row i r) l) = List.find (matches j) l.
Proof.
  intros Hne. induction l as [|q l IH]; simpl; [reflexivity|].
  destruct (matches i q) eqn:E.
  - rewrite (rewrite_row_hit _ _ _ E).
    unfold matches in E. apply Z.eqb_eq in E.
    unfold matches at 1 3. simpl. rewrite E.
    destruct (Z.eqb_spec i j); [congruence | exact IH].
  - rewrite (rewrite_row_miss _ _ _ E).
    destruct (matches j q); [reflexivity | exact IH].
Qed.

Lemma find_after_delete l i :
  List.find (matches i) (List.filter (fun p => negb (matches i p)) l) = None.
Proof.
  induction l as [|q l IH]; simpl; [reflexivity|].
  destruct (matches i q) eqn:E; simpl; [exact IH | now rewrite E].
Qed.

Lemma find_delete_other l i j :
  j <> i ->
  List.find (matches j) (List.filter (fun p => negb (matches i p)) l)
  = List.find (matches j) l.
Proof.
  intros Hne. induction l as [|q l IH]; simpl; [reflexivity|].
  destruct (matches i q) eqn:E; simpl.
  - unfold matches in *. apply Z.eqb_eq in E.
    destruct (Z.eqb_spec (fst q) j); [congruence | exact IH].
  - destruct (matches j q); [reflexivity | exact IH].
Qed.

Lemma filter_no_match l i :
  List.find (matches i) l = None ->
  List.filter (fun p => negb (matches i p)) l = l.
Proof.
  induction l as [|q l IH]; simpl; [reflexivity|].
  destruct (matches i q); simpl; [discriminate|].
  intros H. now rewrite IH.
Qed.

(** *** The invariant of a table *)

Lemma wf_empty : wf (@empty R).
Proof. split; [simpl; lia | split; constructor]. Qed.

Lemma wf_below_sequence t i : wf t -> In i (ids t) -> 0 < i <= sequence t.
Proof. intros (_ & _ & H). rewrite List.Forall_forall in H. apply H. Qed.

Lemma strongly_sorted_snoc (l : list Z) n :
  StronglySorted Z.lt l -> Forall (fun i => i < n) l ->
  StronglySorted Z.lt (l ++ [n]).
Proof.
  induction 1 as [|a l Hs IH Ha]; simpl; intros Hb.
  - repeat constructor.
  - inversion Hb; subst. constructor; [auto|].
    apply List.Forall_app. split; [assumption | now constructor].
Qed.

Lemma strongly_sorted_filter (f : Z -> bool) (l : list Z) :
  StronglySorted Z.lt l -> StronglySorted Z.lt (List.filter f l).
Proof.
  induction 1 as [|a l Hs IH Ha]; simpl; [constructor|].
  destruct (f a); [|assumption]. constructor; [assumption|].
  rewrite List.Forall_forall in *. intros x Hx.
  apply filter_In in Hx. apply Ha. tauto.
Qed.

Lemma ids_after_delete l i :
  map fst (List.filter (fun p : Z * R => negb (matches i p)) l)
  = List.filter (fun j => negb (j =? i)) (map fst l).
Proof.
  induction l as [|q l IH]; simpl; [reflexivity|].
  unfold matches at 1. destruct (fst q =? i); simpl; now rewrite IH.
Qed.

Lemma advances_refl t : wf t -> advances t t None.
Proof.
  intros H. split; [exact H | split; [lia | split; [tauto | exact I]]].
Qed.

Lemma delete_advances t i :
  wf t ->
  match delete i t with
  | (Returned _, t') => advances t t' None
  | (Raised _, t') => t' = t
  end.
Proof.
  intros (H0 & Hs & Hb). unfold delete.
  assert (Hids : ids {| rows := List.filter (fun p => negb (matches i p))
                                            (rows t);
                        sequence := sequence t |}
                 = List.filter (fun j => negb (j =? i)) (ids t)).
  { unfold ids. simpl. apply ids_after_delete. }
  unfold advances, wf. rewrite Hids. simpl.
  split; [split; [exact H0|split]|split; [lia|split; [|exact I]]].
  - now apply strongly_sorted_filter.
  - rewrite List.Forall_forall in *. intros x Hx.
    apply filter_In in Hx. apply Hb. tauto.
  - intros j Hj. apply filter_In in Hj. tauto.
Qed.

End Rows.

Section Statements.

Context {R : Type}.
Variable check : R -> bool.
Implicit Types (t : table R) (l : list (Z * R)) (r : R) (i : Z).

(** *** The statements, case by case *)

Lemma insert_accepted t r :
  check r = true ->
  insert check r t
  = (Returned (next_rowid t),
     {| rows := rows t ++ [(next_rowid t, r)];
        sequence := next_rowid t |}).
Proof. intros H. unfold insert. now rewrite H. Qed.

Lemma insert_rejected t r :
  check r = false -> insert check r t = (Raised IntegrityError, t).
Proof. intros H. unfold insert. now rewrite H. Qed.

Lemma update_no_row t i r :
  select_one i t = None -> update check i r t = (Returned 0%nat, t).
Proof.
  unfold select_one, update. intros H.
  apply filter_matches_find in H. now rewrite H.
Qed.

Lemma update_rejected t i r p :
  select_one i t = Some p -> check r = false ->
  update check i r t = (Raised IntegrityError, t).
Proof.
  unfold select_one, update. intros H Hc.
  destruct (List.filter (matches i) (rows t)) eqn:E.
  - apply filter_matches_find in E. congruence.
  - now rewrite Hc.
Qed.

Lemma update_accepted t i r p :
  select_one i t = Some p -> check r = true ->
  update check i r t
  = (Returned (length (List.filter (matches i) (rows t))),
     {| rows := map (rewrite_row i r) (rows t);
        sequence := sequence t |}).
Proof.
  unfold select_one, update. intros H Hc.
  destruct (List.filter (matches i) (rows t)) eqn:E.
  - apply filter_matches_find in E. congruence.
  - now rewrite Hc.
Qed.

Lemma insert_advances t r :
  wf t ->
  match insert check r t with
  | (Returned i, t') => advances t t' (Some i)
  | (Raised _, t') => t' = t
  end.
Proof.
  intros Hwf. unfold insert. destruct (check r); [|reflexivity].
  pose proof (next_rowid_above_sequence t) as Hseq.
  pose proof (next_rowid_positive t) as Hpos.
  destruct Hwf as (H0 & Hs & Hb).
  assert (Hids : ids {| rows := rows t ++ [(next_rowid t, r)];
                        sequence := next_rowid t |}
                 = ids t ++ [next_rowid t]).
  { unfold ids. simpl. now rewrite map_app. }
  unfold advances, wf. rewrite Hids. simpl.
  split; [split; [lia|split]|split; [lia|split; [|split; [lia|reflexivity]]]].
  - apply strongly_sorted_snoc; [exact Hs|].
    eapply List.Forall_impl; [|exact Hb]. simpl. intros; lia.
  - apply List.Forall_app. split.
    + eapply List.Forall_impl; [|exact Hb]. simpl. intros; lia.
    + constructor; [lia | constructor].
  - intros j Hj. apply in_app_or in Hj as [Hj|[<-|[]]]; [now left | now right].
Qed.

Lemma update_advances t i r :
  wf t ->
  match update check i r t with
  | (Returned _, t') => advances t t' None
  | (Raised _, t') => t' = t
  end.
Proof.
  intros Hwf. unfold update.
  destruct (List.filter (matches i) (rows t)); [now apply advances_refl|].
  destruct (check r); [|reflexivity].
  destruct Hwf as (H0 & Hs & Hb).
  assert (Hids : ids {| rows := map (rewrite_row i r) (rows t);
                        sequence := sequence t |} = ids t).
  { unfold ids. simpl. apply map_fst_rewrite. }
  unfold advances, wf. rewrite Hids. simpl.
  split; [repeat split; assumption|]. split; [lia|]. split; [tauto | exact I].
Qed.

End Statements.

(** *** Sequences of calls *)

Section Sessions.

Context {R C : Type}.
Variable perform : C -> M (world R) reply.

(** Every call of the store is one statement's worth of change. *)
Hypothesis step_advances : forall c w,
  wf (conn w) ->
  match perform c w with
  | (Returned (NewId i), w') => advances (conn w) (conn w') (Some i)
  | (_, w') => advances (conn w) (conn w') None
  end.

Lemma run_advances cs : forall w,
  wf (conn w) ->
  let out := run perform cs w in
  wf (conn (snd out))
  /\ sequence (conn w) <= sequence (conn (snd out))
  /\ Forall (fun i => sequence (conn w) < i <= sequence (conn (snd out)))
            (assigned (fst out))
  /\ StronglySorted Z.lt (assigned (fst out))
  /\ (forall j, In j (ids (conn (snd out))) ->
                In j (ids (conn w)) \/ In j (assigned (fst out))).
Proof.
  induction cs as [|c cs IH]; intros w Hwf; simpl.
  - split; [exact Hwf|]. split; [lia|].
    split; [constructor|]. split; [constructor | tauto].
  - pose proof (step_advances c w Hwf) as Hstep.
    destruct (perform c w) as [o w1].
    assert (Hadv : wf (conn w1)
                   /\ sequence (conn w) <= sequence (conn w1)
                   /\ (forall j, In j (ids (conn w1)) ->
                          In j (ids (conn w)) \/ o = Returned (NewId j))
                   /\ forall i, o = Returned (NewId i) ->
                        sequence (conn w) < i /\ i = sequence (conn w1)).
    { destruct o as [[i|b]|e].
      - destruct Hstep as (H1 & H2 & H3 & H4 & H5).
        split; [exact H1|]. split; [exact H2|]. split.
        + intros j Hj. destruct (H3 j Hj) as [?|[= ->]]; [now left | now right].
        + intros j [= <-]. split; assumption.
      - destruct Hstep as (H1 & H2 & H3 & _).
        split; [exact H1|]. split; [exact H2|]. split; [|discriminate].
        intros j Hj. destruct (H3 j Hj) as [?|?]; [now left | discriminate].
      - destruct Hstep as (H1 & H2 & H3 & _).
        split; [exact H1|]. split; [exact H2|]. split; [|discriminate].
        intros j Hj. destruct (H3 j Hj) as [?|?]; [now left | discriminate]. }
    destruct Hadv as (Hwf1 & Hle & Hids & Hnew).
    specialize (IH w1 Hwf1). simpl in IH.
    destruct (run perform cs w1) as [os w2]. simpl in *.
    destruct IH as (Hwf2 & Hle2 & Hall & Hsorted & Hids2).
    split; [exact Hwf2|]. split; [lia|].
    assert (Hall' : Forall (fun i => sequence (conn w) < i
                                     <= sequence (conn w2))
                           (assigned os)).
    { eapply List.Forall_impl; [|exact Hall]. simpl. intros; lia. }
    assert (Hold : forall j, In j (ids (conn w2)) ->
                     In j (ids (conn w)) \/ o = Returned (NewId j)
                     \/ In j (assigned os)).
    { intros j Hj. destruct (Hids2 j Hj) as [H|H]; [|tauto].
      destruct (Hids j H); tauto. }
    destruct o as [[i|b]|e]; simpl.
    + destruct (Hnew i eq_refl) as [Hlt Heq]. split; [|split].
      * constructor; [lia | exact Hall'].
      * constructor; [exact Hsorted|].
        eapply List.Forall_impl; [|exact Hall]. simpl. intros; lia.
      * intros j Hj. destruct (Hold j Hj) as [?|[[= ->]|?]]; tauto.
    + split; [exact Hall'|]. split; [exact Hsorted|].
      intros j Hj. destruct (Hold j Hj) as [?|[?|?]];
        [tauto | discriminate | tauto].
    + split; [exact Hall'|]. split; [exact Hsorted|].
      intros j Hj. destruct (Hold j Hj) as [?|[?|?]];
        [tauto | discriminate | tauto].
Qed.

(** An id the table does not hold and that is not above the sequence
    value is never held again. *)
Lemma run_keeps_absent cs w i :
  wf (conn w) -> i <= sequence (conn w) -> ~ In i (ids (conn w)) ->
  select_one i (conn (snd (run perform cs w))) = None.
Proof.
  intros Hwf Hle Hni.
  destruct (run_advances cs w Hwf) as (_ & _ & Hall & _ & Hids).
  apply find_matches_none. intros Hin.
  destruct (Hids i Hin) as [H|H]; [tauto|].
  rewrite List.Forall_forall in Hall. apply Hall in H. lia.
Qed.

Lemma run_app cs1 cs2 w :
  snd (run perform (cs1 ++ cs2) w)
  = snd (run perform cs2 (snd (run perform cs1 w))).
Proof.
  revert w. induction cs1 as [|c cs1 IH]; intros w; simpl; [reflexivity|].
  destruct (perform c w) as [o w1]. specialize (IH w1).
  destruct (run perform (cs1 ++ cs2) w1) as [os w2].
  destruct (run perform cs1 w1) as [os1 w1']. simpl in *. exact IH.
Qed.

(** The ids handed out after a first part [cs1] of a session are
    increasing, positive, above the sequence value the session started
    from, above every id handed out in [cs1] and above every id the table
    held at any moment of [cs1]. *)
Lemma run_new_ids cs1 cs2 w :
  wf (conn w) ->
  StronglySorted Z.lt
    (assigned (fst (run perform cs2 (snd (run perform cs1 w)))))
  /\ Forall
       (fun i =>
          0 < i
          /\ sequence (conn w) < i
          /\ (forall j, In j (assigned (fst (run perform cs1 w))) -> j < i)
          /\ (forall cs0 cs0' j,
                 cs1 = cs0 ++ cs0' ->
                 In j (ids (conn (snd (run perform cs0 w)))) -> j < i))
       (assigned (fst (run perform cs2 (snd (run perform cs1 w))))).
Proof.
  intros Hwf.
  destruct (run_advances cs1 w Hwf) as (Hwf1 & Hle1 & Hall1 & _ & _).
  destruct (run_advances cs2 _ Hwf1) as (_ & _ & Hall2 & Hsorted & _).
  split; [exact Hsorted|].
  eapply List.Forall_impl; [|exact Hall2]. simpl. intros i [Hi _].
  assert (H0 : 0 <= sequence (conn w)) by apply Hwf.
  split; [lia|]. split; [lia|]. split.
  - intros j Hj. rewrite List.Forall_forall in Hall1. apply Hall1 in Hj. lia.
  - intros cs0 cs0' j -> Hj.
    destruct (run_advances cs0 w Hwf) as (Hwf0 & _).
    destruct (run_advances cs0' _ Hwf0) as (_ & Hle0 & _).
    rewrite <- run_app in Hle0.
    apply (wf_below_sequence _ _ Hwf0) in Hj. lia.
Qed.

End Sessions.

End TableFacts.

(** ** Reading back what the writer wrote *)

Module CsvFacts.

Import Csv.

Lemma append_nil_l (s : string) : EmptyString +:+ s = s.
Proof. reflexivity. Qed.

Lemma append_cons (c : ascii) (s t : string) :
  String c s +:+ t = String c (s +:+ t).
Proof. reflexivity. Qed.

Lemma append_nil_r (s : string) : s +:+ EmptyString = s.
Proof.
  induction s as [|c s IH]; [reflexivity|].
  now rewrite append_cons, IH.
Qed.

Lemma append_assoc (a b c : string) : (a +:+ b) +:+ c = a +:+ (b +:+ c).
Proof.
  induction a as [|x a IH]; [reflexivity|].
  now rewrite !append_cons, IH.
Qed.

Lemma append_snoc (a : string) (c : ascii) (b : string) :
  (a +:+ String c EmptyString) +:+ b = a +:+ String c b.
Proof. now rewrite append_assoc. Qed.

(** A character that is not special is none of the four. *)
Lemma special_false c :
  special c = false ->
  Ascii.eqb c delimiter = false /\ Ascii.eqb c quotechar = false
  /\ is_newline c = false /\ Ascii.eqb c LF = false
  /\ Ascii.eqb c CR = false.
Proof.
  unfold special, is_newline. intros H.
  destruct (Ascii.eqb c delimiter), (Ascii.eqb c quotechar),
    (Ascii.eqb c CR), (Ascii.eqb c LF); simpl in H; try discriminate.
  repeat split.
Qed.

Lemma ends_line_plain c rest :
  Ascii.eqb c LF = false -> Ascii.eqb c CR = false -> ends_line c rest = false.
Proof. unfold ends_line. now intros -> ->. Qed.

(** The characters of an unquoted field, read inside the field. *)
Lemma records_unquoted s : forall f fs m tail,
  needs_quotes s = false ->
  records {| state := IN_FIELD; field := f; fields := fs |} m (s +:+ tail)
  = records {| state := IN_FIELD; field := f +:+ s; fields := fs |}
            (match s with EmptyString => m | _ => true end) tail.
Proof.
  induction s as [|c s IH]; intros f fs m tail Hs.
  - now rewrite append_nil_l, append_nil_r.
  - simpl in Hs. apply orb_false_iff in Hs as [Hc Hs].
    destruct (special_false c Hc) as (Hd & Hq & Hn & Hlf & Hcr).
    rewrite append_cons. simpl.
    unfold parse_process_char. simpl. rewrite Hn, Hd.
    rewrite (ends_line_plain c _ Hlf Hcr).
    unfold parse_add_char. simpl. rewrite (IH _ _ true tail Hs).
    rewrite append_snoc. now destruct s.
Qed.

(** The body of a quoted field and its closing quote, read inside the
    quotes. *)
Lemma records_quoted_body s : forall f fs m tail,
  records {| state := IN_QUOTED_FIELD; field := f; fields := fs |} m
          (double_quotes s +:+ String quotechar tail)
  = records {| state := QUOTE_IN_QUOTED_FIELD; field := f +:+ s;
               fields := fs |} true tail.
Proof.
  induction s as [|c s IH]; intros f fs m tail.
  - simpl double_quotes. rewrite append_nil_l, append_nil_r. reflexivity.
  - simpl double_quotes. destruct (Ascii.eqb c quotechar) eqn:Hq.
    + apply Ascii.eqb_eq in Hq. subst c. rewrite !append_cons. simpl.
      unfold parse_add_char, goto. simpl. rewrite IH. now rewrite append_snoc.
    + rewrite append_cons. simpl.
      unfold parse_process_char. simpl. rewrite Hq.
      unfold parse_add_char. simpl.
      destruct (ends_line c (double_quotes s +:+ String quotechar tail));
        simpl; rewrite IH; now rewrite append_snoc.
Qed.

(** The first character of an unquoted field, read at the start of a
    field or of a record. *)
Lemma records_first_char st c fs m rest :
  st = START_FIELD \/ st = START_RECORD ->
  special c = false ->
  records {| state := st; field := EmptyString; fields := fs |} m
          (String c rest)
  = records {| state := IN_FIELD; field := String c EmptyString;
               fields := fs |} true rest.
Proof.
  intros Hst Hc.
  destruct (special_false c Hc) as (Hd & Hq & Hn & Hlf & Hcr).
  simpl. rewrite (ends_line_plain c _ Hlf Hcr).
  destruct Hst as [-> | ->];
    unfold parse_process_char, start_field, is_newline; simpl;
    rewrite ?Hcr, ?Hlf, ?Hq, ?Hd; simpl; rewrite ?Hcr, ?Hlf, ?Hq, ?Hd;
    reflexivity.
Qed.

(** The opening quote, read at the start of a field or of a record. *)
Lemma records_open_quote st fs m rest :
  st = START_FIELD \/ st = START_RECORD ->
  records {| state := st; field := EmptyString; fields := fs |} m
          (String quotechar rest)
  = records {| state := IN_QUOTED_FIELD; field := EmptyString;
               fields := fs |} true rest.
Proof. intros [-> | ->]; reflexivity. Qed.

(** A field as the writer wrote it, up to where it ends. *)
Lemma records_field s st fs m tail :
  st = START_FIELD \/ st = START_RECORD ->
  s <> EmptyString ->
  records {| state := st; field := EmptyString; fields := fs |} m
          (field_text s +:+ tail)
  = records {| state := if needs_quotes s then QUOTE_IN_QUOTED_FIELD
                        else IN_FIELD;
               field := s; fields := fs |} true tail.
Proof.
  intros Hst Hne. unfold field_text. destruct (needs_quotes s) eqn:E.
  - unfold quoted. rewrite append_cons, append_snoc.
    rewrite (records_open_quote st fs m _ Hst).
    now rewrite records_quoted_body, append_nil_l.
  - destruct s as [|c s]; [congruence|].
    simpl in E. apply orb_false_iff in E as [Hc Hs].
    rewrite append_cons, (records_first_char st c fs m _ Hst Hc).
    rewrite (records_unquoted s _ _ true tail Hs). simpl.
    now destruct s.
Qed.

(** What the delimiter and the line terminator do after a field. *)
Lemma records_delimiter st f fs m tail :
  In st [START_FIELD; START_RECORD; IN_FIELD; QUOTE_IN_QUOTED_FIELD] ->
  records {| state := st; field := f; fields := fs |} m
          (String delimiter tail)
  = records {| state := START_FIELD; field := EmptyString;
               fields := fs ++ [f] |} true tail.
Proof. simpl. intros [<-|[<-|[<-|[<-|[]]]]]; reflexivity. Qed.

Lemma records_lineterminator st f fs m rest :
  In st [START_FIELD; IN_FIELD; QUOTE_IN_QUOTED_FIELD] ->
  records {| state := st; field := f; fields := fs |} m
          (lineterminator +:+ rest)
  = option_map (cons (fs ++ [f])) (records parse_reset false rest).
Proof. simpl. intros [<-|[<-|[<-|[]]]]; reflexivity. Qed.

(** A field followed by the delimiter. *)
Lemma records_field_delimiter s st fs m tail :
  st = START_FIELD \/ st = START_RECORD ->
  records {| state := st; field := EmptyString; fields := fs |} m
          (field_text s +:+ String delimiter tail)
  = records {| state := START_FIELD; field := EmptyString;
               fields := fs ++ [s] |} true tail.
Proof.
  intros Hst. destruct (string_dec s EmptyString) as [->|Hne].
  - unfold field_text. simpl needs_quotes. cbv iota. rewrite append_nil_l.
    apply records_delimiter. simpl. destruct Hst as [-> | ->]; tauto.
  - rewrite (records_field s st fs m _ Hst Hne).
    apply records_delimiter. simpl. destruct (needs_quotes s); tauto.
Qed.

(** The last field of a row, followed by the line terminator. *)
Lemma records_field_lineterminator s fs m rest :
  records {| state := START_FIELD; field := EmptyString; fields := fs |} m
          (field_text s +:+ (lineterminator +:+ rest))
  = option_map (cons (fs ++ [s])) (records parse_reset false rest).
Proof.
  destruct (string_dec s EmptyString) as [->|Hne].
  - unfold field_text. simpl needs_quotes. cbv iota. rewrite append_nil_l.
    apply records_lineterminator. simpl. tauto.
  - rewrite (records_field s START_FIELD fs m _ (or_introl eq_refl) Hne).
    apply records_lineterminator. simpl. destruct (needs_quotes s); tauto.
Qed.

(** The fields of a row after its first delimiter. *)
Lemma records_more_fields l : forall s fs m rest,
  records {| state := START_FIELD; field := EmptyString; fields := fs |} m
          (String.concat (String delimiter EmptyString)
                         (map field_text (s :: l))
           +:+ (lineterminator +:+ rest))
  = option_map (cons (fs ++ s :: l)) (records parse_reset false rest).
Proof.
  induction l as [|s' l IH]; intros s fs m rest.
  - simpl String.concat. apply records_field_lineterminator.
  - change (String.concat (String delimiter EmptyString)
                          (map field_text (s :: s' :: l)))
      with (field_text s
            +:+ (String delimiter EmptyString
                 +:+ String.concat (String delimiter EmptyString)
                                   (map field_text (s' :: l)))).
    rewrite !append_assoc, append_cons, append_nil_l.
    rewrite records_field_delimiter by now left.
    rewrite IH. now rewrite <- app_assoc.
Qed.

(** One row, written then read. *)
Lemma records_writerow row m rest :
  records parse_reset m (writerow row +:+ rest)
  = option_map (cons row) (records parse_reset false rest).
Proof.
  unfold writerow. rewrite append_assoc.
  destruct row as [|s [|s' l]].
  - reflexivity.
  - simpl String.concat. destruct (string_dec s EmptyString) as [->|Hne].
    + reflexivity.
    + assert (Hrec : match field_text s with
                     | EmptyString => quoted EmptyString
                     | _ => field_text s
                     end = field_text s).
      { unfold field_text, quoted. destruct (needs_quotes s); [reflexivity|].
        destruct s; [congruence | reflexivity]. }
      simpl. rewrite Hrec. unfold parse_reset.
      rewrite (records_field s START_RECORD [] m _ (or_intror eq_refl) Hne).
      apply (records_lineterminator _ s []). simpl.
      destruct (needs_quotes s); tauto.
  - change (String.concat (String delimiter EmptyString)
                          (map field_text (s :: s' :: l)))
      with (field_text s
            +:+ (String delimiter EmptyString
                 +:+ String.concat (String delimiter EmptyString)
                                   (map field_text (s' :: l)))).
    assert (Hrec : forall a b : string,
               match a +:+ (String delimiter EmptyString +:+ b) with
               | EmptyString => quoted EmptyString
               | _ => a +:+ (String delimiter EmptyString +:+ b)
               end = a +:+ String delimiter b).
    { intros a b. now destruct a. }
    rewrite Hrec, append_assoc, append_cons. unfold parse_reset.
    rewrite records_field_delimiter by now right.
    apply (records_more_fields l s' [s]).
Qed.

(** A whole file, written row by row then read. *)
Lemma read_rows (rows : list (list string)) :
  read (fold_right (fun row text => writerow row +:+ text) EmptyString rows)
  = Some rows.
Proof.
  unfold read. induction rows as [|row rows IH]; [reflexivity|].
  simpl fold_right. now rewrite records_writerow, IH.
Qed.

Lemma written_text {A} (g : A -> list string) (l : list A) : forall text,
  fold_left (fun f r => f +:+ writerow (g r)) l text
  = text +:+ fold_right (fun row text => writerow row +:+ text) EmptyString
                        (map g l).
Proof.
  induction l as [|r l IH]; intros text; simpl.
  - now rewrite append_nil_r.
  - now rewrite IH, append_assoc.
Qed.

(** The header, then one row per element of [l], as the export functions
    write them. *)
Lemma read_written {A} (g : A -> list string) (h : list string) (l : list A) :
  read (fold_left (fun f r => f +:+ writerow (g r)) l (writerow h))
  = Some (h :: map g l).
Proof.
  rewrite written_text.
  exact (read_rows (h :: map g l)).
Qed.

End CsvFacts.

(** ** The two stores, call by call *)

Lemma world_eta {R} (w : world R) : {| conn := conn w; files := files w |} = w.
Proof. now destruct w. Qed.

Ltac unfold_call :=
  unfold with_conn, execute, bind, ret, raise; simpl.

Module SensorFacts.

Import TableFacts.

Implicit Types (w : SensorDB.world).

(** The tuple [add_reading] binds to its INSERT statement. *)
Lemma add_reading_returns now n v u ts st w :
  SensorDB.add_reading now n v u ts st w
  = (Returned (next_rowid (conn w)),
     {| conn :=
          {| rows := rows (conn w)
               ++ [(next_rowid (conn w),
                    {| SensorDB.sensor_name := strip n;
                       SensorDB.value := v;
                       SensorDB.unit := strip u;
                       SensorDB.timestamp := default now ts;
                       SensorDB.status := strip (default "Normal" st) |})];
             sequence := next_rowid (conn w) |};
        files := files w |}).
Proof. unfold SensorDB.add_reading. unfold_call. now destruct ts. Qed.

Lemma get_reading_after_add now n v u ts st w :
  SensorDB.get_reading (next_rowid (conn w))
    (snd (SensorDB.add_reading now n v u ts st w))
  = Some (next_rowid (conn w),
          {| SensorDB.sensor_name := strip n;
             SensorDB.value := v;
             SensorDB.unit := strip u;
             SensorDB.timestamp := default now ts;
             SensorDB.status := strip (default "Normal" st) |}).
Proof.
  rewrite add_reading_returns. unfold SensorDB.get_reading, select_one. simpl.
  apply find_matches_snoc. apply (next_rowid_not_in_ids (conn w)).
Qed.

Lemma update_reading_missing i n v u t s w :
  SensorDB.get_reading i w = None ->
  SensorDB.update_reading i n v u t s w = (Returned false, w).
Proof.
  intros H. unfold SensorDB.update_reading. unfold_call.
  rewrite (update_no_row _ _ _ _ H). simpl. now rewrite world_eta.
Qed.

Lemma update_reading_found i n v u t s w p :
  SensorDB.get_reading i w = Some p ->
  SensorDB.update_reading i n v u t s w
  = (Returned true,
     {| conn :=
          {| rows := map (rewrite_row i
               {| SensorDB.sensor_name := strip n;
                  SensorDB.value := v;
                  SensorDB.unit := strip u;
                  SensorDB.timestamp := strip t;
                  SensorDB.status := strip s |}) (rows (conn w));
             sequence := sequence (conn w) |};
        files := files w |}).
Proof.
  intros H. unfold SensorDB.update_reading. unfold_call.
  rewrite (update_accepted _ _ _ _ _ H eq_refl). simpl.
  rewrite rowcount_positive. unfold SensorDB.get_reading, select_one in H.
  now rewrite H.
Qed.

Lemma delete_reading_returns i w :
  SensorDB.delete_reading i w
  = (Returned (match SensorDB.get_reading i w with
               | Some _ => true
               | None => false
               end),
     {| conn :=
          {| rows := List.filter (fun p => negb (matches i p)) (rows (conn w));
             sequence := sequence (conn w) |};
        files := files w |}).
Proof.
  unfold SensorDB.delete_reading, delete. unfold_call.
  now rewrite rowcount_positive.
Qed.

Lemma sensor_call_advances c w :
  wf (conn w) ->
  match SensorDB.perform c w with
  | (Returned (NewId i), w') => advances (conn w) (conn w') (Some i)
  | (_, w') => advances (conn w) (conn w') None
  end.
Proof.
  intros Hwf. destruct c as [now n v u ts st|i n v u t s|i];
    unfold SensorDB.perform, bind, ret.
  - rewrite add_reading_returns.
    pose proof (insert_advances SensorDB.check (conn w)
      {| SensorDB.sensor_name := strip n; SensorDB.value := v;
         SensorDB.unit := strip u; SensorDB.timestamp := default now ts;
         SensorDB.status := strip (default "Normal" st) |} Hwf) as H.
    exact H.
  - destruct (SensorDB.get_reading i w) as [p|] eqn:E.
    + rewrite (update_reading_found _ _ _ _ _ _ _ _ E).
      pose proof (update_advances SensorDB.check (conn w) i
        {| SensorDB.sensor_name := strip n; SensorDB.value := v;
           SensorDB.unit := strip u; SensorDB.timestamp := strip t;
           SensorDB.status := strip s |} Hwf) as H.
      rewrite (update_accepted _ _ _ _ _ E eq_refl) in H. exact H.
    + rewrite (update_reading_missing _ _ _ _ _ _ _ E).
      now apply advances_refl.
  - rewrite delete_reading_returns.
    exact (delete_advances (conn w) i Hwf).
Qed.

Lemma sensor_cells_inj (float_repr : Q -> string) :
  (forall a b, float_repr a = float_repr b -> a = b) ->
  forall rows rows' : list SensorDB.row,
    map (SensorDB.cells float_repr) rows'
    = map (SensorDB.cells float_repr) rows ->
    rows' = rows.
Proof.
  intros Hinj rows. induction rows as [|r rows IH]; intros [|r' rows'] H;
    simpl in H; try discriminate; [reflexivity|].
  injection H as Hid Hn Hv Hu Ht Hs Hrest.
  apply (inj pretty) in Hid. apply Hinj in Hv.
  destruct r as [i f], r' as [i' f'], f, f'. simpl in *. subst.
  now rewrite (IH rows' Hrest).
Qed.

(** Every table a session on a new database reaches satisfies the
    invariant. *)
Lemma sensor_session_wf cs fs :
  wf (conn (snd (run SensorDB.perform cs (SensorDB.init None fs)))).
Proof.
  apply (run_advances _ sensor_call_advances cs (SensorDB.init None fs)).
  apply wf_empty.
Qed.

Lemma one_reading_wf : wf (conn Samples.one_reading).
Proof.
  exact (proj1 (sensor_call_advances
                  (SensorDB.Add "2024-03-01 08:00:00" "Pump-A" (3 # 2) "kPa"
                                None None)
                  (SensorDB.init None ∅) wf_empty)).
Qed.

End SensorFacts.

Module OrderFacts.

Import TableFacts.

Implicit Types (w : OrderDB.world) (q : Z) (pr : Q).

Lemma check_true_iff f :
  OrderDB.check f = true
  <-> 0 < OrderDB.quantity f /\ (0 <= OrderDB.unit_price f)%Q.
Proof.
  unfold OrderDB.check. rewrite andb_true_iff, Z.ltb_lt, Qle_bool_iff.
  reflexivity.
Qed.

Lemma check_false_iff f :
  OrderDB.check f = false
  <-> OrderDB.quantity f <= 0 \/ (OrderDB.unit_price f < 0)%Q.
Proof.
  unfold OrderDB.check. rewrite andb_false_iff, Z.ltb_ge.
  split; (intros [H|H]; [now left | right]).
  - apply Qnot_le_lt. intros Hle. apply Qle_bool_iff in Hle. congruence.
  - destruct (Qle_bool 0 (OrderDB.unit_price f)) eqn:E; [|reflexivity].
    apply Qle_bool_iff in E. exfalso. now apply (Qlt_not_le _ _ H).
Qed.

Lemma add_order_rejected today n p q pr d st w :
  q <= 0 \/ (pr < 0)%Q ->
  OrderDB.add_order today n p q pr d st w = (Raised IntegrityError, w).
Proof.
  intros H. unfold OrderDB.add_order. unfold_call.
  rewrite insert_rejected; [simpl; now rewrite world_eta|].
  now apply check_false_iff.
Qed.

Lemma add_order_returns today n p q pr d st w :
  0 < q -> (0 <= pr)%Q ->
  OrderDB.add_order today n p q pr d st w
  = (Returned (next_rowid (conn w)),
     {| conn :=
          {| rows := rows (conn w)
               ++ [(next_rowid (conn w),
                    {| OrderDB.customer_name := strip n;
                       OrderDB.product := strip p;
                       OrderDB.quantity := q;
                       OrderDB.unit_price := pr;
                       OrderDB.order_date := default today d;
                       OrderDB.status := strip (default "pending" st) |})];
             sequence := next_rowid (conn w) |};
        files := files w |}).
Proof.
  intros Hq Hp. unfold OrderDB.add_order. unfold_call.
  rewrite insert_accepted; [now destruct d|].
  now apply check_true_iff.
Qed.

Lemma get_order_after_add today n p q pr d st w :
  0 < q -> (0 <= pr)%Q ->
  OrderDB.get_order (next_rowid (conn w))
    (snd (OrderDB.add_order today n p q pr d st w))
  = Some (next_rowid (conn w),
          {| OrderDB.customer_name := strip n;
             OrderDB.product := strip p;
             OrderDB.quantity := q;
             OrderDB.unit_price := pr;
             OrderDB.order_date := default today d;
             OrderDB.status := strip (default "pending" st) |}).
Proof.
  intros Hq Hp. rewrite add_order_returns by assumption.
  unfold OrderDB.get_order, select_one. simpl.
  apply find_matches_snoc. apply (next_rowid_not_in_ids (conn w)).
Qed.

Lemma update_order_missing i n p q pr d s w :
  OrderDB.get_order i w = None ->
  OrderDB.update_order i n p q pr d s w = (Returned false, w).
Proof.
  intros H. unfold OrderDB.update_order. unfold_call.
  rewrite (update_no_row _ _ _ _ H). simpl. now rewrite world_eta.
Qed.

Lemma update_order_rejected i n p q pr d s w r :
  OrderDB.get_order i w = Some r ->
  q <= 0 \/ (pr < 0)%Q ->
  OrderDB.update_order i n p q pr d s w = (Raised IntegrityError, w).
Proof.
  intros H Hbad. unfold OrderDB.update_order. unfold_call.
  rewrite (update_rejected _ _ _ _ _ H); [simpl; now rewrite world_eta|].
  now apply check_false_iff.
Qed.

Lemma update_order_found i n p q pr d s w r :
  OrderDB.get_order i w = Some r ->
  0 < q -> (0 <= pr)%Q ->
  OrderDB.update_order i n p q pr d s w
  = (Returned true,
     {| conn :=
          {| rows := map (rewrite_row i
               {| OrderDB.customer_name := strip n;
                  OrderDB.product := strip p;
                  OrderDB.quantity := q;
                  OrderDB.unit_price := pr;
                  OrderDB.order_date := strip d;
                  OrderDB.status := strip s |}) (rows (conn w));
             sequence := sequence (conn w) |};
        files := files w |}).
Proof.
  intros H Hq Hp. unfold OrderDB.update_order. unfold_call.
  rewrite (update_accepted _ _ _ _ _ H); [|now apply check_true_iff].
  simpl. rewrite rowcount_positive.
  unfold OrderDB.get_order, select_one in H. now rewrite H.
Qed.

Lemma delete_order_returns i w :
  OrderDB.delete_order i w
  = (Returned (match OrderDB.get_order i w with
               | Some _ => true
               | None => false
               end),
     {| conn :=
          {| rows := List.filter (fun p => negb (matches i p)) (rows (conn w));
             sequence := sequence (conn w) |};
        files := files w |}).
Proof.
  unfold OrderDB.delete_order, delete. unfold_call.
  now rewrite rowcount_positive.
Qed.

Lemma order_call_advances c w :
  wf (conn w) ->
  match OrderDB.perform c w with
  | (Returned (NewId i), w') => advances (conn w) (conn w') (Some i)
  | (_, w') => advances (conn w) (conn w') None
  end.
Proof.
  intros Hwf. destruct c as [today n p q pr d st|i n p q pr d s|i];
    unfold OrderDB.perform, bind, ret.
  - destruct (Z_lt_le_dec 0 q) as [Hq|Hq];
      [destruct (Qlt_le_dec pr 0) as [Hp|Hp]|].
    + rewrite add_order_rejected by now right. now apply advances_refl.
    + rewrite add_order_returns by assumption.
      pose proof (insert_advances OrderDB.check (conn w)
        {| OrderDB.customer_name := strip n; OrderDB.product := strip p;
           OrderDB.quantity := q; OrderDB.unit_price := pr;
           OrderDB.order_date := default today d;
           OrderDB.status := strip (default "pending" st) |} Hwf) as H.
      rewrite insert_accepted in H by now apply check_true_iff.
      exact H.
    + rewrite add_order_rejected by now left. now apply advances_refl.
  - destruct (OrderDB.get_order i w) as [r|] eqn:E.
    + pose proof (update_advances OrderDB.check (conn w) i
        {| OrderDB.customer_name := strip n; OrderDB.product := strip p;
           OrderDB.quantity := q; OrderDB.unit_price := pr;
           OrderDB.order_date := strip d;
           OrderDB.status := strip s |} Hwf) as H.
      destruct (Z_lt_le_dec 0 q) as [Hq|Hq];
        [destruct (Qlt_le_dec pr 0) as [Hp|Hp]|].
      * rewrite (update_order_rejected _ _ _ _ _ _ _ _ _ E) by now right.
        now apply advances_refl.
      * rewrite (update_order_found _ _ _ _ _ _ _ _ _ E) by assumption.
        rewrite (update_accepted _ _ _ _ _ E) in H
          by now apply check_true_iff.
        exact H.
      * rewrite (update_order_rejected _ _ _ _ _ _ _ _ _ E) by now left.
        now apply advances_refl.
    + rewrite (update_order_missing _ _ _ _ _ _ _ _ E).
      now apply advances_refl.
  - rewrite delete_order_returns.
    exact (delete_advances (conn w) i Hwf).
Qed.

Lemma order_cells_inj (float_repr : Q -> string) :
  (forall a b, float_repr a = float_repr b -> a = b) ->
  forall rows rows' : list OrderDB.row,
    map (OrderDB.cells float_repr) rows'
    = map (OrderDB.cells float_repr) rows ->
    rows' = rows.
Proof.
  intros Hinj rows. induction rows as [|r rows IH]; intros [|r' rows'] H;
    simpl in H; try discriminate; [reflexivity|].
  injection H as Hid Hn Hp Hq Hu Hd Hs Hrest.
  apply (inj pretty) in Hid. apply (inj pretty) in Hq. apply Hinj in Hu.
  destruct r as [i f], r' as [i' f'], f, f'. simpl in *. subst.
  now rewrite (IH rows' Hrest).
Qed.

(** Every table a session on a new database reaches satisfies the
    invariant. *)
Lemma order_session_wf cs fs :
  wf (conn (snd (run OrderDB.perform cs (OrderDB.init None fs)))).
Proof.
  apply (run_advances _ order_call_advances cs (OrderDB.init None fs)).
  apply wf_empty.
Qed.

Lemma one_order_wf : wf (conn Samples.one_order).
Proof.
  exact (proj1 (order_call_advances
                  (OrderDB.Add "2024-03-01" "Ada" "Valve" 3 (21 # 2) None None)
                  (OrderDB.init None ∅) wf_empty)).
Qed.

End OrderFacts.

(** * The claims *)

(** ** C1: the numeric constraints of the order store *)

(** C1, as stated, fails on an update that addresses no row: with quantity
    0 and an id the table does not hold, [update_order] returns [False]
    and raises nothing. *)
Lemma update_order_absent_id_not_rejected :
  (0 <= 0)%Z
  /\ OrderDB.update_order 7 "Ada" "Valve" 0 (5 # 2) "2024-03-01" "pending"
       (OrderDB.init None ∅)
     = (Returned false, OrderDB.init None ∅).
Proof. split; [lia | reflexivity]. Qed.

(** C1 (amended): with [quantity <= 0] or [unit_price < 0], every
    [add_order] raises [IntegrityError]; every [update_order] raises
    [IntegrityError] when the addressed row exists and returns [False]
    without raising when it does not; in all three cases the world after
    the call (rows, sequence value, files) is the world before it. *)
Theorem order_constraints_enforced :
  forall (w : OrderDB.world) (today customer_name product : string)
         (quantity : Z) (unit_price : Q) (order_date status : option string),
    quantity <= 0 \/ (unit_price < 0)%Q ->
    OrderDB.add_order today customer_name product quantity unit_price
      order_date status w
    = (Raised IntegrityError, w)
    /\ forall (order_id : Z) (order_date' status' : string),
         OrderDB.update_order order_id customer_name product quantity
           unit_price order_date' status' w
         = (match OrderDB.get_order order_id w with
            | Some _ => Raised IntegrityError
            | None => Returned false
            end, w).
Proof.
  intros w today n p q pr d st Hbad. split.
  - now apply OrderFacts.add_order_rejected.
  - intros i d' st'. destruct (OrderDB.get_order i w) as [r|] eqn:E.
    + now apply (OrderFacts.update_order_rejected _ _ _ _ _ _ _ _ r).
    + now apply OrderFacts.update_order_missing.
Qed.

Lemma order_constraints_enforced_witness :
  OrderDB.add_order "2024-03-02" "Bob" "Pump" (-1) (5 # 1) None None
    Samples.one_order
  = (Raised IntegrityError, Samples.one_order)
  /\ OrderDB.update_order 1 "Bob" "Pump" (-1) (5 # 1) "2024-03-02" "paid"
       Samples.one_order
     = (Raised IntegrityError, Samples.one_order)
  /\ OrderDB.update_order 2 "Bob" "Pump" (-1) (5 # 1) "2024-03-02" "paid"
       Samples.one_order
     = (Returned false, Samples.one_order).
Proof.
  assert (Hbad : -1 <= 0 \/ (5 # 1 < 0)%Q) by (left; lia).
  destruct (order_constraints_enforced Samples.one_order "2024-03-02" "Bob"
              "Pump" (-1) (5 # 1) None None Hbad) as [Hadd Hupd].
  split; [exact Hadd|]. split.
  - exact (Hupd 1 "2024-03-02" "paid").
  - exact (Hupd 2 "2024-03-02" "paid").
Defined.

(** ** C3: what the store checks on text *)

(** C3, as stated, fails: a sensor name of three blanks is accepted by
    [add_reading], and the empty text is what the table then holds. *)
Lemma blank_sensor_name_is_persisted :
  strip "   " = EmptyString
  /\ fst (SensorDB.add_reading "2024-03-01 08:00:00" "   " (3 # 2) "kPa"
            None (Some "Normal") (SensorDB.init None ∅))
     = Returned 1
  /\ SensorDB.get_reading 1
       (snd (SensorDB.add_reading "2024-03-01 08:00:00" "   " (3 # 2) "kPa"
               None (Some "Normal") (SensorDB.init None ∅)))
     = Some (1, {| SensorDB.sensor_name := EmptyString;
                   SensorDB.value := 3 # 2;
                   SensorDB.unit := "kPa";
                   SensorDB.timestamp := "2024-03-01 08:00:00";
                   SensorDB.status := "Normal" |}).
Proof. repeat split. Qed.

(** C3 (amended): the store checks no text field for emptiness.  Whatever
    the text values are, blank or not, [add_reading] returns a new id and
    [update_reading] of an existing row returns [True]; so do [add_order]
    and [update_order] when [quantity > 0] and [unit_price >= 0].  The row
    then read back holds each text as the call bound it: trimmed (the
    empty text for a blank value), except the date given to an add, which
    is kept as given.  The numeric constraints are the ones the store
    enforces itself: when one fails, [add_order], and [update_order] of an
    existing row, raise [IntegrityError] whatever the texts are. *)
Theorem text_emptiness_is_not_checked :
  (forall (w : SensorDB.world) now n v u ts st,
      exists i w',
        SensorDB.add_reading now n v u ts st w = (Returned i, w')
        /\ SensorDB.get_reading i w'
           = Some (i, {| SensorDB.sensor_name := strip n;
                         SensorDB.value := v;
                         SensorDB.unit := strip u;
                         SensorDB.timestamp := default now ts;
                         SensorDB.status := strip (default "Normal" st) |}))
  /\ (forall (w : SensorDB.world) i n v u t s,
         is_Some (SensorDB.get_reading i w) ->
         exists w',
           SensorDB.update_reading i n v u t s w = (Returned true, w')
           /\ SensorDB.get_reading i w'
              = Some (i, {| SensorDB.sensor_name := strip n;
                            SensorDB.value := v;
                            SensorDB.unit := strip u;
                            SensorDB.timestamp := strip t;
                            SensorDB.status := strip s |}))
  /\ (forall (w : OrderDB.world) today n p q pr d st,
         0 < q -> (0 <= pr)%Q ->
         exists i w',
           OrderDB.add_order today n p q pr d st w = (Returned i, w')
           /\ OrderDB.get_order i w'
              = Some (i, {| OrderDB.customer_name := strip n;
                            OrderDB.product := strip p;
                            OrderDB.quantity := q;
                            OrderDB.unit_price := pr;
                            OrderDB.order_date := default today d;
                            OrderDB.status := strip (default "pending" st) |}))
  /\ (forall (w : OrderDB.world) i n p q pr d s,
         0 < q -> (0 <= pr)%Q ->
         is_Some (OrderDB.get_order i w) ->
         exists w',
           OrderDB.update_order i n p q pr d s w = (Returned true, w')
           /\ OrderDB.get_order i w'
              = Some (i, {| OrderDB.customer_name := strip n;
                            OrderDB.product := strip p;
                            OrderDB.quantity := q;
                            OrderDB.unit_price := pr;
                            OrderDB.order_date := strip d;
                            OrderDB.status := strip s |}))
  /\ (forall (w : OrderDB.world) today n p q pr d st,
         q <= 0 \/ (pr < 0)%Q ->
         OrderDB.add_order today n p q pr d st w = (Raised IntegrityError, w))
  /\ (forall (w : OrderDB.world) i n p q pr d s,
         q <= 0 \/ (pr < 0)%Q ->
         is_Some (OrderDB.get_order i w) ->
         OrderDB.update_order i n p q pr d s w = (Raised IntegrityError, w)).
Proof.
  repeat apply conj.
  - intros w now n v u ts st. eexists. eexists. split.
    + apply SensorFacts.add_reading_returns.
    + pose proof (SensorFacts.get_reading_after_add now n v u ts st w) as H.
      rewrite SensorFacts.add_reading_returns in H. exact H.
  - intros w i n v u t s [r Hr]. eexists. split.
    + apply (SensorFacts.update_reading_found _ _ _ _ _ _ _ _ Hr).
    + unfold SensorDB.get_reading, select_one in *. simpl.
      apply (TableFacts.find_rewrite_same _ _ _ _ Hr).
  - intros w today n p q pr d st Hq Hp. eexists. eexists. split.
    + now apply OrderFacts.add_order_returns.
    + pose proof (OrderFacts.get_order_after_add today n p q pr d st w Hq Hp)
        as H.
      rewrite OrderFacts.add_order_returns in H by assumption. exact H.
  - intros w i n p q pr d s Hq Hp [r Hr]. eexists. split.
    + now apply (OrderFacts.update_order_found _ _ _ _ _ _ _ _ _ Hr).
    + unfold OrderDB.get_order, select_one in *. simpl.
      apply (TableFacts.find_rewrite_same _ _ _ _ Hr).
  - intros w today n p q pr d st Hbad.
    now apply OrderFacts.add_order_rejected.
  - intros w i n p q pr d s Hbad [r Hr].
    now apply (OrderFacts.update_order_rejected _ _ _ _ _ _ _ _ r).
Qed.

Lemma text_emptiness_is_not_checked_witness :
  (exists i w',
      OrderDB.add_order "2024-03-01" "  " " " 2 (5 # 1) (Some EmptyString)
        (Some "   ") (OrderDB.init None ∅) = (Returned i, w')
      /\ OrderDB.get_order i w'
         = Some (i, {| OrderDB.customer_name := EmptyString;
                       OrderDB.product := EmptyString;
                       OrderDB.quantity := 2;
                       OrderDB.unit_price := 5 # 1;
                       OrderDB.order_date := EmptyString;
                       OrderDB.status := EmptyString |}))
  /\ (exists w',
         SensorDB.update_reading 1 " " (1 # 1) "  " " " "    "
           Samples.one_reading
         = (Returned true, w')
         /\ SensorDB.get_reading 1 w'
            = Some (1, {| SensorDB.sensor_name := EmptyString;
                          SensorDB.value := 1 # 1;
                          SensorDB.unit := EmptyString;
                          SensorDB.timestamp := EmptyString;
                          SensorDB.status := EmptyString |}))
  /\ OrderDB.add_order "2024-03-01" "Ada" "Valve" 0 (5 # 1) None None
       Samples.one_order
     = (Raised IntegrityError, Samples.one_order)
  /\ OrderDB.update_order 1 "Ada" "Valve" 3 (-5 # 1) "2024-03-01" "paid"
       Samples.one_order
     = (Raised IntegrityError, Samples.one_order).
Proof.
  destruct text_emptiness_is_not_checked
    as (_ & Hupd & Hadd & _ & Hbadadd & Hbadupd).
  split; [|split; [|split]].
  - assert (Hq : 0 < 2) by lia.
    assert (Hp : (0 <= 5 # 1)%Q) by discriminate.
    exact (Hadd (OrderDB.init None ∅) "2024-03-01" "  " " " 2 (5 # 1)
             (Some EmptyString) (Some "   ") Hq Hp).
  - assert (Hrow : is_Some (SensorDB.get_reading 1 Samples.one_reading))
      by (vm_compute; eauto).
    exact (Hupd Samples.one_reading 1 " " (1 # 1) "  " " " "    " Hrow).
  - assert (Hbad : 0 <= 0 \/ (5 # 1 < 0)%Q) by (left; lia).
    exact (Hbadadd Samples.one_order "2024-03-01" "Ada" "Valve" 0 (5 # 1)
             None None Hbad).
  - assert (Hbad : 3 <= 0 \/ (-5 # 1 < 0)%Q) by (right; reflexivity).
    assert (Hrow : is_Some (OrderDB.get_order 1 Samples.one_order))
      by (vm_compute; eauto).
    exact (Hbadupd Samples.one_order 1 "Ada" "Valve" 3 (-5 # 1) "2024-03-01"
             "paid" Hbad Hrow).
Defined.

(** ** C4: update replaces the whole row *)

(** C4, as stated, fails twice.  The text an update stores is the trimmed
    text, not exactly the text supplied; and an [update_order] of an
    existing row with quantity 0 raises instead of returning [True], and
    rewrites nothing. *)
Lemma update_trims_and_checks :
  SensorDB.get_reading 1
    (snd (SensorDB.update_reading 1 "  Pump-B  " (2 # 1) "bar"
            "2024-03-02 09:00:00" "Warning" Samples.one_reading))
  = Some (1, {| SensorDB.sensor_name := "Pump-B";
                SensorDB.value := 2 # 1;
                SensorDB.unit := "bar";
                SensorDB.timestamp := "2024-03-02 09:00:00";
                SensorDB.status := "Warning" |})
  /\ "Pump-B" <> "  Pump-B  "
  /\ is_Some (OrderDB.get_order 1 Samples.one_order)
  /\ OrderDB.update_order 1 "Bob" "Pump" 0 (5 # 1) "2024-03-02" "paid"
       Samples.one_order
     = (Raised IntegrityError, Samples.one_order).
Proof.
  split; [reflexivity|]. split; [discriminate|].
  split; [vm_compute; eauto | reflexivity].
Qed.

(** C4 (amended): an update whose values satisfy the constraints of the
    table ([quantity > 0] and [unit_price >= 0] for orders, none for
    sensor readings) and whose id names a row returns [True] and leaves
    that row holding the supplied values, the texts trimmed, and nothing
    of its former values; the other rows and the row ids are untouched.
    An update whose id names no row returns [False], raises nothing and
    leaves the world as it was. *)
Theorem update_replaces_every_field :
  (forall (w : SensorDB.world) i n v u t s,
      match SensorDB.get_reading i w with
      | None => SensorDB.update_reading i n v u t s w = (Returned false, w)
      | Some _ =>
          exists w',
            SensorDB.update_reading i n v u t s w = (Returned true, w')
            /\ SensorDB.get_reading i w'
               = Some (i, {| SensorDB.sensor_name := strip n;
                             SensorDB.value := v;
                             SensorDB.unit := strip u;
                             SensorDB.timestamp := strip t;
                             SensorDB.status := strip s |})
            /\ (forall j, j <> i ->
                  SensorDB.get_reading j w' = SensorDB.get_reading j w)
            /\ map SensorDB.id (SensorDB.get_all_readings w')
               = map SensorDB.id (SensorDB.get_all_readings w)
      end)
  /\ (forall (w : OrderDB.world) i n p q pr d s,
         match OrderDB.get_order i w with
         | None => OrderDB.update_order i n p q pr d s w = (Returned false, w)
         | Some _ =>
             0 < q -> (0 <= pr)%Q ->
             exists w',
               OrderDB.update_order i n p q pr d s w = (Returned true, w')
               /\ OrderDB.get_order i w'
                  = Some (i, {| OrderDB.customer_name := strip n;
                                OrderDB.product := strip p;
                                OrderDB.quantity := q;
                                OrderDB.unit_price := pr;
                                OrderDB.order_date := strip d;
                                OrderDB.status := strip s |})
               /\ (forall j, j <> i ->
                     OrderDB.get_order j w' = OrderDB.get_order j w)
               /\ map OrderDB.id (OrderDB.get_all_orders w')
                  = map OrderDB.id (OrderDB.get_all_orders w)
         end).
Proof.
  split.
  - intros w i n v u t s. destruct (SensorDB.get_reading i w) as [r|] eqn:E.
    + eexists.
      split; [apply (SensorFacts.update_reading_found _ _ _ _ _ _ _ _ E)|].
      unfold SensorDB.get_reading, SensorDB.get_all_readings, select_one,
        select_all in *. simpl.
      split; [apply (TableFacts.find_rewrite_same _ _ _ _ E)|].
      split; [intros j Hj; now apply TableFacts.find_rewrite_other|].
      apply TableFacts.map_fst_rewrite.
    + now apply SensorFacts.update_reading_missing.
  - intros w i n p q pr d s. destruct (OrderDB.get_order i w) as [r|] eqn:E.
    + intros Hq Hp. eexists.
      split; [now apply (OrderFacts.update_order_found _ _ _ _ _ _ _ _ _ E)|].
      unfold OrderDB.get_order, OrderDB.get_all_orders, select_one,
        select_all in *. simpl.
      split; [apply (TableFacts.find_rewrite_same _ _ _ _ E)|].
      split; [intros j Hj; now apply TableFacts.find_rewrite_other|].
      apply TableFacts.map_fst_rewrite.
    + now apply OrderFacts.update_order_missing.
Qed.

Lemma update_replaces_every_field_witness :
  exists w',
    OrderDB.update_order 1 " Bob " "Pump" 4 (5 # 1) "2024-03-02 " "paid"
      Samples.one_order = (Returned true, w')
    /\ OrderDB.get_order 1 w'
       = Some (1, {| OrderDB.customer_name := "Bob";
                     OrderDB.product := "Pump";
                     OrderDB.quantity := 4;
                     OrderDB.unit_price := 5 # 1;
                     OrderDB.order_date := "2024-03-02";
                     OrderDB.status := "paid" |})
    /\ (forall j, j <> 1 ->
          OrderDB.get_order j w' = OrderDB.get_order j Samples.one_order)
    /\ map OrderDB.id (OrderDB.get_all_orders w')
       = map OrderDB.id (OrderDB.get_all_orders Samples.one_order).
Proof.
  assert (Hq : 0 < 4) by lia.
  assert (Hp : (0 <= 5 # 1)%Q) by discriminate.
  exact (proj2 update_replaces_every_field Samples.one_order 1 " Bob " "Pump"
           4 (5 # 1) "2024-03-02 " "paid" Hq Hp).
Defined.

(** ** C5: exporting an empty table *)

(** C5: on a table with no row, [export_to_csv] raises [ValueError] and the
    world after the call is the world before it: no file is created and
    none is overwritten, whatever the destination. *)
Theorem export_of_empty_table_is_rejected :
  (forall (float_repr : Q -> string) (csv_path : option string)
          (w : SensorDB.world),
      SensorDB.get_all_readings w = [] ->
      SensorDB.export_to_csv float_repr csv_path w
      = (Raised (ValueError "No sensor data to export."), w))
  /\ (forall (float_repr : Q -> string) (csv_path : string)
             (w : OrderDB.world),
         OrderDB.get_all_orders w = [] ->
         OrderDB.export_to_csv float_repr csv_path w
         = (Raised (ValueError "No orders to export."), w)).
Proof.
  split; intros float_repr csv_path w Hempty.
  - unfold SensorDB.export_to_csv. now rewrite Hempty.
  - unfold OrderDB.export_to_csv. now rewrite Hempty.
Qed.

Lemma export_of_empty_table_is_rejected_witness :
  SensorDB.export_to_csv (fun _ => "1.5") (Some "out.csv")
    (SensorDB.init None {["out.csv" := "kept"]})
  = (Raised (ValueError "No sensor data to export."),
     SensorDB.init None {["out.csv" := "kept"]})
  /\ OrderDB.export_to_csv (fun _ => "1.5") "orders_export.csv"
       (OrderDB.init None ∅)
     = (Raised (ValueError "No orders to export."), OrderDB.init None ∅).
Proof.
  split.
  - exact (proj1 export_of_empty_table_is_rejected (fun _ => "1.5")
             (Some "out.csv") (SensorDB.init None {["out.csv" := "kept"]})
             eq_refl).
  - exact (proj2 export_of_empty_table_is_rejected (fun _ => "1.5")
             "orders_export.csv" (OrderDB.init None ∅) eq_refl).
Defined.

(** ** C7: trimming of the text fields *)

(** C7 fails on the date field of an add: [add_reading] and [add_order] bind
    [timestamp] and [order_date] as given, blanks included, while the three
    other text fields are trimmed, and while [update_reading] does trim the
    timestamp. *)
Lemma add_keeps_date_padding :
  SensorDB.get_reading 1
    (snd (SensorDB.add_reading "2024-03-05 12:00:00" "  Pump-A  " (3 # 2)
            " kPa " (Some "  2024-03-01 08:00:00  ") (Some " Normal ")
            (SensorDB.init None ∅)))
  = Some (1, {| SensorDB.sensor_name := "Pump-A";
                SensorDB.value := 3 # 2;
                SensorDB.unit := "kPa";
                SensorDB.timestamp := "  2024-03-01 08:00:00  ";
                SensorDB.status := "Normal" |})
  /\ OrderDB.get_order 1
       (snd (OrderDB.add_order "2024-03-05" " Ada " " Valve " 3 (21 # 2)
               (Some " 2024-03-01 ") (Some " pending ")
               (OrderDB.init None ∅)))
     = Some (1, {| OrderDB.customer_name := "Ada";
                   OrderDB.product := "Valve";
                   OrderDB.quantity := 3;
                   OrderDB.unit_price := 21 # 2;
                   OrderDB.order_date := " 2024-03-01 ";
                   OrderDB.status := "pending" |})
  /\ SensorDB.get_reading 1
       (snd (SensorDB.update_reading 1 "  Pump-A  " (3 # 2) " kPa "
               "  2024-03-01 08:00:00  " " Normal " Samples.one_reading))
     = Some (1, {| SensorDB.sensor_name := "Pump-A";
                   SensorDB.value := 3 # 2;
                   SensorDB.unit := "kPa";
                   SensorDB.timestamp := "2024-03-01 08:00:00";
                   SensorDB.status := "Normal" |}).
Proof. repeat split. Qed.

(** ** C8: deleting twice *)

(** C8: deleting the id of an existing row returns [True]; that row, and
    no other, is gone, and for good: no later sequence of adds, updates
    and deletes brings the id back.  Deleting the same id again returns
    [False], raises nothing and leaves the world as it was. *)
Theorem delete_is_permanent_then_not_found :
  (forall (w : SensorDB.world) i r,
      wf (conn w) ->
      SensorDB.get_reading i w = Some r ->
      exists w1,
        SensorDB.delete_reading i w = (Returned true, w1)
        /\ SensorDB.get_reading i w1 = None
        /\ (forall j, j <> i ->
              SensorDB.get_reading j w1 = SensorDB.get_reading j w)
        /\ (forall cs,
              SensorDB.get_reading i (snd (run SensorDB.perform cs w1)) = None)
        /\ SensorDB.delete_reading i w1 = (Returned false, w1))
  /\ (forall (w : OrderDB.world) i r,
         wf (conn w) ->
         OrderDB.get_order i w = Some r ->
         exists w1,
           OrderDB.delete_order i w = (Returned true, w1)
           /\ OrderDB.get_order i w1 = None
           /\ (forall j, j <> i ->
                 OrderDB.get_order j w1 = OrderDB.get_order j w)
           /\ (forall cs,
                 OrderDB.get_order i (snd (run OrderDB.perform cs w1)) = None)
           /\ OrderDB.delete_order i w1 = (Returned false, w1)).
Proof.
  split; intros w i r Hwf Hrow.
  - assert (Hle : i <= sequence (conn w)).
    { apply (TableFacts.wf_below_sequence _ _ Hwf).
      apply TableFacts.select_one_is_some_iff.
      unfold SensorDB.get_reading in Hrow.
      rewrite Hrow. eauto. }
    pose proof (TableFacts.delete_advances (conn w) i Hwf) as Hadv.
    destruct Hadv as (Hwf1 & _).
    pose proof (TableFacts.find_after_delete (rows (conn w)) i) as Hgone.
    eexists.
    split; [rewrite SensorFacts.delete_reading_returns, Hrow; reflexivity|].
    split; [exact Hgone|].
    split; [intros j Hj; now apply TableFacts.find_delete_other|]. split.
    + intros cs.
      apply (TableFacts.run_keeps_absent _ SensorFacts.sensor_call_advances);
        [exact Hwf1 | exact Hle | now apply TableFacts.find_matches_none].
    + rewrite SensorFacts.delete_reading_returns.
      unfold SensorDB.get_reading, select_one. simpl. rewrite Hgone.
      now rewrite (TableFacts.filter_no_match _ i Hgone).
  - assert (Hle : i <= sequence (conn w)).
    { apply (TableFacts.wf_below_sequence _ _ Hwf).
      apply TableFacts.select_one_is_some_iff. unfold OrderDB.get_order in Hrow.
      rewrite Hrow. eauto. }
    pose proof (TableFacts.delete_advances (conn w) i Hwf) as Hadv.
    destruct Hadv as (Hwf1 & _).
    pose proof (TableFacts.find_after_delete (rows (conn w)) i) as Hgone.
    eexists.
    split; [rewrite OrderFacts.delete_order_returns, Hrow; reflexivity|].
    split; [exact Hgone|].
    split; [intros j Hj; now apply TableFacts.find_delete_other|]. split.
    + intros cs.
      apply (TableFacts.run_keeps_absent _ OrderFacts.order_call_advances);
        [exact Hwf1 | exact Hle | now apply TableFacts.find_matches_none].
    + rewrite OrderFacts.delete_order_returns.
      unfold OrderDB.get_order, select_one. simpl. rewrite Hgone.
      now rewrite (TableFacts.filter_no_match _ i Hgone).
Qed.

Lemma delete_is_permanent_then_not_found_witness :
  (exists w1,
      SensorDB.delete_reading 1 Samples.one_reading = (Returned true, w1)
      /\ SensorDB.get_reading 1 w1 = None
      /\ (forall j, j <> 1 ->
            SensorDB.get_reading j w1
            = SensorDB.get_reading j Samples.one_reading)
      /\ (forall cs,
            SensorDB.get_reading 1 (snd (run SensorDB.perform cs w1)) = None)
      /\ SensorDB.delete_reading 1 w1 = (Returned false, w1))
  /\ (exists w1,
         OrderDB.delete_order 1 Samples.one_order = (Returned true, w1)
         /\ OrderDB.get_order 1 w1 = None
         /\ (forall j, j <> 1 ->
               OrderDB.get_order j w1 = OrderDB.get_order j Samples.one_order)
         /\ (forall cs,
               OrderDB.get_order 1 (snd (run OrderDB.perform cs w1)) = None)
         /\ OrderDB.delete_order 1 w1 = (Returned false, w1)).
Proof.
  split.
  - exact (proj1 delete_is_permanent_then_not_found Samples.one_reading 1 _
             SensorFacts.one_reading_wf eq_refl).
  - exact (proj2 delete_is_permanent_then_not_found Samples.one_order 1 _
             OrderFacts.one_order_wf eq_refl).
Defined.

(** ** C9: the default status *)

(** C9, as stated, fails: a sensor-reading add that supplies no status
    succeeds, and the status stored is the store's own default. *)
Lemma add_reading_without_status_succeeds :
  fst (SensorDB.add_reading "2024-03-01 08:00:00" "Pump-A" (3 # 2) "kPa"
         None None (SensorDB.init None ∅))
  = Returned 1
  /\ SensorDB.get_reading 1
       (snd (SensorDB.add_reading "2024-03-01 08:00:00" "Pump-A" (3 # 2) "kPa"
               None None (SensorDB.init None ∅)))
     = Some (1, {| SensorDB.sensor_name := "Pump-A";
                   SensorDB.value := 3 # 2;
                   SensorDB.unit := "kPa";
                   SensorDB.timestamp := "2024-03-01 08:00:00";
                   SensorDB.status := "Normal" |}).
Proof. split; reflexivity. Qed.

(** C9 (amended): at the add boundary the status is defaulted to a fixed
    literal in both stores, "pending" for orders and "Normal" for sensor
    readings.  An add that supplies no status does what the same add with
    that literal does; the sensor add then returns a new id, the order add
    does when [quantity > 0] and [unit_price >= 0], and the row read back
    has the literal as its status. *)
Theorem status_defaults_to_a_literal :
  (forall (w : SensorDB.world) now n v u ts,
      SensorDB.add_reading now n v u ts None w
      = SensorDB.add_reading now n v u ts (Some "Normal") w
      /\ exists i w' f,
           SensorDB.add_reading now n v u ts None w = (Returned i, w')
           /\ SensorDB.get_reading i w' = Some (i, f)
           /\ SensorDB.status f = "Normal")
  /\ (forall (w : OrderDB.world) today n p q pr d,
         OrderDB.add_order today n p q pr d None w
         = OrderDB.add_order today n p q pr d (Some "pending") w
         /\ (0 < q -> (0 <= pr)%Q ->
             exists i w' f,
               OrderDB.add_order today n p q pr d None w = (Returned i, w')
               /\ OrderDB.get_order i w' = Some (i, f)
               /\ OrderDB.status f = "pending")).
Proof.
  split.
  - intros w now n v u ts. split; [reflexivity|].
    eexists. eexists. eexists. split; [apply SensorFacts.add_reading_returns|].
    pose proof (SensorFacts.get_reading_after_add now n v u ts None w) as H.
    rewrite SensorFacts.add_reading_returns in H.
    split; [exact H | reflexivity].
  - intros w today n p q pr d. split; [reflexivity|]. intros Hq Hp.
    eexists. eexists. eexists.
    split; [now apply OrderFacts.add_order_returns|].
    pose proof (OrderFacts.get_order_after_add today n p q pr d None w Hq Hp)
      as H.
    rewrite OrderFacts.add_order_returns in H by assumption.
    split; [exact H | reflexivity].
Qed.

Lemma status_defaults_to_a_literal_witness :
  exists i w' f,
    OrderDB.add_order "2024-03-01" "Ada" "Valve" 3 (21 # 2) None None
      (OrderDB.init None ∅) = (Returned i, w')
    /\ OrderDB.get_order i w' = Some (i, f)
    /\ OrderDB.status f = "pending".
Proof.
  assert (Hq : 0 < 3) by lia.
  assert (Hp : (0 <= 21 # 2)%Q) by discriminate.
  exact (proj2 (proj2 status_defaults_to_a_literal (OrderDB.init None ∅)
                  "2024-03-01" "Ada" "Valve" 3 (21 # 2) None) Hq Hp).
Defined.

(** ** C10: a date supplied to an add *)

(** C10: the text supplied as [timestamp] to [add_reading], or as
    [order_date] to [add_order], is bound to the INSERT as it is, whatever
    it is: the add returns a new id (for orders when [quantity > 0] and
    [unit_price >= 0]) and the row read back has that very text as its
    date. *)
Theorem supplied_date_is_stored_verbatim :
  (forall (w : SensorDB.world) now n v u (timestamp : string) st,
      exists i w' f,
        SensorDB.add_reading now n v u (Some timestamp) st w = (Returned i, w')
        /\ SensorDB.get_reading i w' = Some (i, f)
        /\ SensorDB.timestamp f = timestamp)
  /\ (forall (w : OrderDB.world) today n p q pr (order_date : string) st,
         0 < q -> (0 <= pr)%Q ->
         exists i w' f,
           OrderDB.add_order today n p q pr (Some order_date) st w
           = (Returned i, w')
           /\ OrderDB.get_order i w' = Some (i, f)
           /\ OrderDB.order_date f = order_date).
Proof.
  split.
  - intros w now n v u ts st.
    eexists. eexists. eexists. split; [apply SensorFacts.add_reading_returns|].
    pose proof (SensorFacts.get_reading_after_add now n v u (Some ts) st w)
      as H.
    rewrite SensorFacts.add_reading_returns in H.
    split; [exact H | reflexivity].
  - intros w today n p q pr d st Hq Hp.
    eexists. eexists. eexists.
    split; [now apply OrderFacts.add_order_returns|].
    pose proof (OrderFacts.get_order_after_add today n p q pr (Some d) st w
                  Hq Hp) as H.
    rewrite OrderFacts.add_order_returns in H by assumption.
    split; [exact H | reflexivity].
Qed.

Lemma supplied_date_is_stored_verbatim_witness :
  exists i w' f,
    OrderDB.add_order "2024-03-01" "Ada" "Valve" 3 (21 # 2)
      (Some "  31/02/2024 (tbc) ") None Samples.one_order = (Returned i, w')
    /\ OrderDB.get_order i w' = Some (i, f)
    /\ OrderDB.order_date f = "  31/02/2024 (tbc) ".
Proof.
  assert (Hq : 0 < 3) by lia.
  assert (Hp : (0 <= 21 # 2)%Q) by discriminate.
  exact (proj2 supplied_date_is_stored_verbatim Samples.one_order
           "2024-03-01" "Ada" "Valve" 3 (21 # 2) "  31/02/2024 (tbc) " None
           Hq Hp).
Defined.

(** ** C2: the ids an add hands out *)

(** C2: take any sequence of adds, updates and deletes on one table, cut
    anywhere into an earlier part [cs1] and a later part [cs2].  The ids the
    adds of the later part return are positive and strictly increasing;
    each is strictly greater than the largest id handed out before the
    sequence started, than every id an add of the earlier part returned,
    and than every id the table held at any moment of the earlier part,
    so than every id that was ever deleted. *)
Theorem new_ids_increase_and_are_never_reused :
  (forall (w : SensorDB.world) (cs1 cs2 : list SensorDB.call),
      wf (conn w) ->
      StronglySorted Z.lt
        (assigned (fst (run SensorDB.perform cs2
                          (snd (run SensorDB.perform cs1 w)))))
      /\ Forall
           (fun i =>
              0 < i
              /\ sequence (conn w) < i
              /\ (forall j,
                    In j (assigned (fst (run SensorDB.perform cs1 w))) ->
                    j < i)
              /\ (forall cs0 cs0' j,
                    cs1 = cs0 ++ cs0' ->
                    In j (ids (conn (snd (run SensorDB.perform cs0 w)))) ->
                    j < i))
           (assigned (fst (run SensorDB.perform cs2
                             (snd (run SensorDB.perform cs1 w))))))
  /\ (forall (w : OrderDB.world) (cs1 cs2 : list OrderDB.call),
         wf (conn w) ->
         StronglySorted Z.lt
           (assigned (fst (run OrderDB.perform cs2
                             (snd (run OrderDB.perform cs1 w)))))
         /\ Forall
              (fun i =>
                 0 < i
                 /\ sequence (conn w) < i
                 /\ (forall j,
                       In j (assigned (fst (run OrderDB.perform cs1 w))) ->
                       j < i)
                 /\ (forall cs0 cs0' j,
                       cs1 = cs0 ++ cs0' ->
                       In j (ids (conn (snd (run OrderDB.perform cs0 w)))) ->
                       j < i))
              (assigned (fst (run OrderDB.perform cs2
                                (snd (run OrderDB.perform cs1 w)))))).
Proof.
  split; intros w cs1 cs2 Hwf.
  - exact (TableFacts.run_new_ids _ SensorFacts.sensor_call_advances
             cs1 cs2 w Hwf).
  - exact (TableFacts.run_new_ids _ OrderFacts.order_call_advances
             cs1 cs2 w Hwf).
Qed.

Lemma new_ids_increase_and_are_never_reused_witness :
  StronglySorted Z.lt
    (assigned (fst (run OrderDB.perform Samples.later_calls
                      (snd (run OrderDB.perform Samples.earlier_calls
                              Samples.one_order)))))
  /\ Forall
       (fun i =>
          0 < i
          /\ sequence (conn Samples.one_order) < i
          /\ (forall j,
                In j (assigned (fst (run OrderDB.perform Samples.earlier_calls
                                       Samples.one_order))) ->
                j < i)
          /\ (forall cs0 cs0' j,
                Samples.earlier_calls = cs0 ++ cs0' ->
                In j (ids (conn (snd (run OrderDB.perform cs0
                                        Samples.one_order)))) ->
                j < i))
       (assigned (fst (run OrderDB.perform Samples.later_calls
                         (snd (run OrderDB.perform Samples.earlier_calls
                                 Samples.one_order))))).
Proof.
  exact (proj2 new_ids_increase_and_are_never_reused Samples.one_order
           Samples.earlier_calls Samples.later_calls OrderFacts.one_order_wf).
Defined.

(** The sample session: the id 1 is deleted, 2 is handed out, then 2 is
    deleted and 3 and 4 are handed out; the rejected add uses up no id. *)
Example later_calls_ids :
  assigned (fst (run OrderDB.perform Samples.earlier_calls Samples.one_order))
  = [2]
  /\ assigned (fst (run OrderDB.perform Samples.later_calls
                      (snd (run OrderDB.perform Samples.earlier_calls
                              Samples.one_order))))
     = [3; 4].
Proof. split; reflexivity. Qed.

(** ** C6: the exported file read back *)

(** C6: on a table with at least one row, [export_to_csv] returns and
    leaves at the destination a text that a CSV reader reads as: the row
    of the field names, [id] first and in the order of the table
    declaration, then one row for each row of [get_all], in the same
    order, which is by ascending id, each cell the text of the value in
    that row.  Rows reading back as the same cells are the same rows, as
    long as [repr] tells floats apart. *)
Theorem export_reads_back_as_get_all :
  (forall (float_repr : Q -> string) (csv_path : option string)
          (w : SensorDB.world),
      wf (conn w) ->
      SensorDB.get_all_readings w <> [] ->
      exists text,
        SensorDB.export_to_csv float_repr csv_path w
        = (Returned tt,
           {| conn := conn w;
              files :=
                <[default "sensor_log.csv" csv_path := text]> (files w) |})
        /\ Csv.read text
           = Some (["id"; "sensor_name"; "value"; "unit"; "timestamp";
                    "status"]
                   :: map (SensorDB.cells float_repr)
                          (SensorDB.get_all_readings w))
        /\ StronglySorted Z.lt
             (map SensorDB.id (SensorDB.get_all_readings w))
        /\ ((forall a b, float_repr a = float_repr b -> a = b) ->
            forall rows,
              map (SensorDB.cells float_repr) rows
              = map (SensorDB.cells float_repr) (SensorDB.get_all_readings w) ->
              rows = SensorDB.get_all_readings w))
  /\ (forall (float_repr : Q -> string) (csv_path : string)
             (w : OrderDB.world),
         wf (conn w) ->
         OrderDB.get_all_orders w <> [] ->
         exists text,
           OrderDB.export_to_csv float_repr csv_path w
           = (Returned tt,
              {| conn := conn w;
                 files := <[csv_path := text]> (files w) |})
           /\ Csv.read text
              = Some (["id"; "customer_name"; "product"; "quantity";
                       "unit_price"; "order_date"; "status"]
                      :: map (OrderDB.cells float_repr)
                             (OrderDB.get_all_orders w))
           /\ StronglySorted Z.lt
                (map OrderDB.id (OrderDB.get_all_orders w))
           /\ ((forall a b, float_repr a = float_repr b -> a = b) ->
               forall rows,
                 map (OrderDB.cells float_repr) rows
                 = map (OrderDB.cells float_repr) (OrderDB.get_all_orders w) ->
                 rows = OrderDB.get_all_orders w)).
Proof.
  split; intros float_repr csv_path w Hwf Hrows.
  - unfold SensorDB.export_to_csv.
    destruct (SensorDB.get_all_readings w) as [|r rows] eqn:E; [congruence|].
    eexists. split; [reflexivity|].
    split; [apply (CsvFacts.read_written (SensorDB.cells float_repr))|].
    split.
    + rewrite <- E. apply Hwf.
    + intros Hinj rows'. now apply SensorFacts.sensor_cells_inj.
  - unfold OrderDB.export_to_csv.
    destruct (OrderDB.get_all_orders w) as [|r rows] eqn:E; [congruence|].
    eexists. split; [reflexivity|].
    split; [apply (CsvFacts.read_written (OrderDB.cells float_repr))|].
    split.
    + rewrite <- E. apply Hwf.
    + intros Hinj rows'. now apply OrderFacts.order_cells_inj.
Qed.

Lemma export_reads_back_as_get_all_witness :
  exists text,
    OrderDB.export_to_csv Samples.fraction_text "orders_export.csv"
      Samples.one_order
    = (Returned tt,
       {| conn := conn Samples.one_order;
          files := <["orders_export.csv" := text]> (files Samples.one_order) |})
    /\ Csv.read text
       = Some (["id"; "customer_name"; "product"; "quantity"; "unit_price";
                "order_date"; "status"]
               :: [["1"; "Ada"; "Valve"; "3"; "21/2"; "2024-03-01";
                    "pending"]])
    /\ StronglySorted Z.lt [1]
    /\ ((forall a b,
           Samples.fraction_text a = Samples.fraction_text b -> a = b) ->
        forall rows,
          map (OrderDB.cells Samples.fraction_text) rows
          = map (OrderDB.cells Samples.fraction_text)
                (OrderDB.get_all_orders Samples.one_order) ->
          rows = OrderDB.get_all_orders Samples.one_order).
Proof.
  assert (Hrows : OrderDB.get_all_orders Samples.one_order <> [])
    by discriminate.
  exact (proj2 export_reads_back_as_get_all Samples.fraction_text
           "orders_export.csv" Samples.one_order OrderFacts.one_order_wf Hrows).
Defined.

(** A file as it is written: a name with a comma in it goes between
    quotes. *)
Example export_of_a_quoted_name :
  files (snd (SensorDB.export_to_csv Samples.fraction_text None
                (snd (SensorDB.add_reading "2024-03-02 09:30:00"
                        " Tank, north " (-7 # 4) "m" None (Some "Warning")
                        Samples.one_reading))))
  !! "sensor_log.csv"
  = Some ("id,sensor_name,value,unit,timestamp,status" +:+ Csv.lineterminator
          +:+ "1,Pump-A,3/2,kPa,2024-03-01 08:00:00,Normal"
          +:+ Csv.lineterminator
          +:+ "2," +:+ String Csv.quotechar "Tank, north"
          +:+ String Csv.quotechar ",-7/4,m,2024-03-02 09:30:00,Warning"
          +:+ Csv.lineterminator).
Proof. reflexivity. Qed.

(** * Further properties of the stores *)

Module ScanFacts.

Import TableFacts.

Section Rows.

Context {R : Type}.
Implicit Types (t : table R) (l : list (Z * R)) (r : R) (i : Z).

(** Two rows of a table with the same id are the same row. *)
Lemma sorted_ids_unique l p q :
  StronglySorted Z.lt (map fst l) ->
  In p l -> In q l -> fst p = fst q -> p = q.
Proof.
  induction l as [|a l IH]; simpl; [tauto|].
  intros Hs Hp Hq Heq. inversion Hs as [|? ? Hs' Ha]; subst.
  rewrite List.Forall_forall in Ha.
  assert (Hlt : forall x, In x l -> fst a < fst x).
  { intros x Hx. apply Ha. now apply in_map. }
  destruct Hp as [->|Hp], Hq as [->|Hq]; trivial.
  - apply Hlt in Hq. lia.
  - apply Hlt in Hp. lia.
  - now apply IH.
Qed.

Lemma select_one_iff t i p :
  wf t -> (select_one i t = Some p <-> In p (rows t) /\ fst p = i).
Proof.
  intros (_ & Hs & _). unfold select_one. split.
  - intros H. apply find_some in H as [Hin Hm].
    unfold matches in Hm. apply Z.eqb_eq in Hm. tauto.
  - intros [Hin Hid].
    destruct (List.find (matches i) (rows t)) as [q|] eqn:E.
    + apply find_some in E as [Hq Hm]. unfold matches in Hm.
      apply Z.eqb_eq in Hm. f_equal.
      apply (sorted_ids_unique (rows t)); trivial. congruence.
    + apply find_matches_none in E. exfalso. apply E.
      subst i. now apply in_map.
Qed.

Lemma find_snoc_other l i j r :
  j <> i ->
  List.find (matches j) (l ++ [(i, r)]) = List.find (matches j) l.
Proof.
  intros Hne. induction l as [|[k r'] l IH]; simpl.
  - unfold matches. simpl. destruct (Z.eqb_spec i j); [congruence | trivial].
  - destruct (matches j (k, r')); [trivial | exact IH].
Qed.

Lemma rewrite_rewrite l i r1 r2 :
  map (rewrite_row i r2) (map (rewrite_row i r1) l)
  = map (rewrite_row i r2) l.
Proof.
  rewrite map_map. apply map_ext. intros p.
  destruct (matches i p) eqn:E.
  - rewrite (rewrite_row_hit _ r1 _ E), (rewrite_row_hit _ r2 _ E).
    apply rewrite_row_hit. unfold matches. simpl. apply Z.eqb_refl.
  - now rewrite (rewrite_row_miss _ r1 _ E).
Qed.

Lemma filter_matches_rewrite l i r :
  length (List.filter (matches i) (map (rewrite_row i r) l))
  = length (List.filter (matches i) l).
Proof.
  induction l as [|p l IH]; simpl; [reflexivity|].
  destruct (matches i p) eqn:E.
  - rewrite (rewrite_row_hit _ r _ E). unfold matches at 1. simpl.
    rewrite Z.eqb_refl. simpl. now rewrite IH.
  - rewrite (rewrite_row_miss _ r _ E), E. exact IH.
Qed.

(** In a table with increasing ids, a statement matches at most one
    row. *)
Lemma filter_matches_one l i p :
  StronglySorted Z.lt (map fst l) ->
  List.find (matches i) l = Some p ->
  length (List.filter (fun q => negb (matches i q)) l) = pred (length l).
Proof.
  induction l as [|a l IH]; simpl; [discriminate|].
  intros Hs. inversion Hs as [|? ? Hs' Ha]; subst.
  destruct (matches i a) eqn:E; simpl.
  - intros _. f_equal. rewrite filter_no_match; [reflexivity|].
    apply find_matches_none. intros Hin.
    rewrite List.Forall_forall in Ha. apply Ha in Hin.
    unfold matches in E. apply Z.eqb_eq in E. lia.
  - intros Hf. rewrite (IH Hs' Hf).
    destruct l; [discriminate | reflexivity].
Qed.

(** On a table that satisfies the invariant the next id is the sequence
    value plus one. *)
Lemma next_rowid_succ (t : table R) : wf t -> next_rowid t = sequence t + 1.
Proof.
  intros (H0 & _ & Hb). unfold next_rowid.
  assert (Hmax : max_rowid (rows t) <= sequence t).
  { unfold ids in Hb. induction (rows t) as [|p l IH]; simpl; [exact H0|].
    inversion Hb; subst. specialize (IH ltac:(assumption)). lia. }
  lia.
Qed.

Section Counting.

Context {C : Type}.
Variable perform : C -> M (world R) reply.

(** Every call keeps the invariant; one that hands out an id hands out
    the sequence value plus one and records it, and any other call leaves
    the sequence value as it was. *)
Hypothesis step_counts : forall c w,
  wf (conn w) ->
  match perform c w with
  | (Returned (NewId i), w') =>
      wf (conn w') /\ i = sequence (conn w) + 1 /\ sequence (conn w') = i
  | (_, w') => wf (conn w') /\ sequence (conn w') = sequence (conn w)
  end.

Lemma run_counts cs : forall w,
  wf (conn w) ->
  assigned (fst (run perform cs w))
  = map (fun k => sequence (conn w) + Z.of_nat k)
        (seq 1 (length (assigned (fst (run perform cs w)))))
  /\ sequence (conn (snd (run perform cs w)))
     = sequence (conn w)
       + Z.of_nat (length (assigned (fst (run perform cs w)))).
Proof.
  induction cs as [|c cs IH]; intros w Hwf; simpl; [split; [reflexivity | lia]|].
  pose proof (step_counts c w Hwf) as Hstep.
  destruct (perform c w) as [o w1].
  assert (Hwf1 : wf (conn w1)).
  { destruct o as [[i|b]|e]; apply Hstep. }
  destruct (IH w1 Hwf1) as [Hids Hseq].
  destruct (run perform cs w1) as [os w2]. simpl in *.
  destruct o as [[i|b]|e]; simpl.
  - destruct Hstep as (_ & Hi & Hs1). split.
    + f_equal; [lia|]. rewrite Hids at 1.
      rewrite <- (seq_shift (length (assigned os)) 1), map_map.
      apply map_ext. intros k. lia.
    + lia.
  - destruct Hstep as (_ & Hs1). rewrite <- Hs1. split; [exact Hids | lia].
  - destruct Hstep as (_ & Hs1). rewrite <- Hs1. split; [exact Hids | lia].
Qed.

End Counting.

End Rows.

End ScanFacts.

Module SensorMore.

Import TableFacts ScanFacts.

Lemma sensor_call_keeps_files c (w : SensorDB.world) :
  files (snd (SensorDB.perform c w)) = files w.
Proof.
  destruct c as [now n v u ts st|i n v u t s|i];
    unfold SensorDB.perform, bind, ret.
  - now rewrite SensorFacts.add_reading_returns.
  - destruct (SensorDB.get_reading i w) as [p|] eqn:E.
    + now rewrite (SensorFacts.update_reading_found _ _ _ _ _ _ _ _ E).
    + now rewrite (SensorFacts.update_reading_missing _ _ _ _ _ _ _ E).
  - now rewrite SensorFacts.delete_reading_returns.
Qed.

Lemma sensor_session_keeps_files cs : forall (w : SensorDB.world),
  files (snd (run SensorDB.perform cs w)) = files w.
Proof.
  induction cs as [|c cs IH]; intros w; simpl; [reflexivity|].
  pose proof (sensor_call_keeps_files c w) as Hc.
  destruct (SensorDB.perform c w) as [o w1]. specialize (IH w1).
  destruct (run SensorDB.perform cs w1) as [os w2]. simpl in *. congruence.
Qed.

Lemma sensor_export_empty float_repr csv_path (w : SensorDB.world) :
  SensorDB.get_all_readings w = [] ->
  SensorDB.export_to_csv float_repr csv_path w
  = (Raised (ValueError "No sensor data to export."), w).
Proof. intros H. unfold SensorDB.export_to_csv. now rewrite H. Qed.

Lemma sensor_export_nonempty float_repr csv_path (w : SensorDB.world) :
  SensorDB.get_all_readings w <> [] ->
  SensorDB.export_to_csv float_repr csv_path w
  = (Returned tt,
     {| conn := conn w;
        files :=
          <[default "sensor_log.csv" csv_path :=
              fold_left
                (fun f r => f +:+ Csv.writerow (SensorDB.cells float_repr r))
                (SensorDB.get_all_readings w)
                (Csv.writerow SensorDB.header)]> (files w) |}).
Proof.
  intros H. unfold SensorDB.export_to_csv.
  destruct (SensorDB.get_all_readings w); [congruence | reflexivity].
Qed.

Lemma sensor_call_counts c (w : SensorDB.world) :
  wf (conn w) ->
  match SensorDB.perform c w with
  | (Returned (NewId i), w') =>
      wf (conn w') /\ i = sequence (conn w) + 1 /\ sequence (conn w') = i
  | (_, w') => wf (conn w') /\ sequence (conn w') = sequence (conn w)
  end.
Proof.
  intros Hwf. pose proof (SensorFacts.sensor_call_advances c w Hwf) as Hadv.
  pose proof (next_rowid_succ (conn w) Hwf) as Hnext.
  destruct c as [now n v u ts st|i n v u t s|i];
    unfold SensorDB.perform, bind, ret in *.
  - rewrite SensorFacts.add_reading_returns in *. simpl.
    split; [apply Hadv|]. split; [exact Hnext | reflexivity].
  - destruct (SensorDB.get_reading i w) as [p|] eqn:E.
    + rewrite (SensorFacts.update_reading_found _ _ _ _ _ _ _ _ E) in *.
      split; [apply Hadv | reflexivity].
    + rewrite (SensorFacts.update_reading_missing _ _ _ _ _ _ _ E) in *.
      split; [exact Hwf | reflexivity].
  - rewrite SensorFacts.delete_reading_returns in *.
    split; [apply Hadv | reflexivity].
Qed.

End SensorMore.

Module OrderMore.

Import TableFacts ScanFacts.

Lemma order_numbers_decidable (q : Z) (pr : Q) :
  (0 < q /\ (0 <= pr)%Q) \/ (q <= 0 \/ (pr < 0)%Q).
Proof.
  destruct (Z_lt_le_dec 0 q) as [Hq|Hq]; [|right; now left].
  destruct (Qlt_le_dec pr 0) as [Hp|Hp]; [right; now right | now left].
Qed.

Lemma order_call_keeps_files c (w : OrderDB.world) :
  files (snd (OrderDB.perform c w)) = files w.
Proof.
  destruct c as [today n p q pr d st|i n p q pr d s|i];
    unfold OrderDB.perform, bind, ret.
  - destruct (order_numbers_decidable q pr) as [[Hq Hp]|Hbad].
    + now rewrite OrderFacts.add_order_returns.
    + now rewrite OrderFacts.add_order_rejected.
  - destruct (OrderDB.get_order i w) as [r|] eqn:E.
    + destruct (order_numbers_decidable q pr) as [[Hq Hp]|Hbad].
      * now rewrite (OrderFacts.update_order_found _ _ _ _ _ _ _ _ _ E).
      * now rewrite (OrderFacts.update_order_rejected _ _ _ _ _ _ _ _ _ E).
    + now rewrite (OrderFacts.update_order_missing _ _ _ _ _ _ _ _ E).
  - now rewrite OrderFacts.delete_order_returns.
Qed.

Lemma order_session_keeps_files cs : forall (w : OrderDB.world),
  files (snd (run OrderDB.perform cs w)) = files w.
Proof.
  induction cs as [|c cs IH]; intros w; simpl; [reflexivity|].
  pose proof (order_call_keeps_files c w) as Hc.
  destruct (OrderDB.perform c w) as [o w1]. specialize (IH w1).
  destruct (run OrderDB.perform cs w1) as [os w2]. simpl in *. congruence.
Qed.

Lemma order_export_empty float_repr csv_path (w : OrderDB.world) :
  OrderDB.get_all_orders w = [] ->
  OrderDB.export_to_csv float_repr csv_path w
  = (Raised (ValueError "No orders to export."), w).
Proof. intros H. unfold OrderDB.export_to_csv. now rewrite H. Qed.

Lemma order_export_nonempty float_repr csv_path (w : OrderDB.world) :
  OrderDB.get_all_orders w <> [] ->
  OrderDB.export_to_csv float_repr csv_path w
  = (Returned tt,
     {| conn := conn w;
        files :=
          <[csv_path :=
              fold_left
                (fun f r => f +:+ Csv.writerow (OrderDB.cells float_repr r))
                (OrderDB.get_all_orders w)
                (Csv.writerow OrderDB.header)]> (files w) |}).
Proof.
  intros H. unfold OrderDB.export_to_csv.
  destruct (OrderDB.get_all_orders w); [congruence | reflexivity].
Qed.

Lemma order_call_counts c (w : OrderDB.world) :
  wf (conn w) ->
  match OrderDB.perform c w with
  | (Returned (NewId i), w') =>
      wf (conn w') /\ i = sequence (conn w) + 1 /\ sequence (conn w') = i
  | (_, w') => wf (conn w') /\ sequence (conn w') = sequence (conn w)
  end.
Proof.
  intros Hwf. pose proof (OrderFacts.order_call_advances c w Hwf) as Hadv.
  pose proof (next_rowid_succ (conn w) Hwf) as Hnext.
  destruct c as [today n p q pr d st|i n p q pr d s|i];
    unfold OrderDB.perform, bind, ret in *.
  - destruct (order_numbers_decidable q pr) as [[Hq Hp]|Hbad].
    + rewrite OrderFacts.add_order_returns in * by assumption. simpl.
      split; [apply Hadv|]. split; [exact Hnext | reflexivity].
    + rewrite OrderFacts.add_order_rejected in * by assumption.
      split; [exact Hwf | reflexivity].
  - destruct (OrderDB.get_order i w) as [r|] eqn:E.
    + destruct (order_numbers_decidable q pr) as [[Hq Hp]|Hbad].
      * rewrite (OrderFacts.update_order_found _ _ _ _ _ _ _ _ _ E) in *
          by assumption.
        split; [apply Hadv | reflexivity].
      * rewrite (OrderFacts.update_order_rejected _ _ _ _ _ _ _ _ _ E) in *
          by assumption.
        split; [exact Hwf | reflexivity].
    + rewrite (OrderFacts.update_order_missing _ _ _ _ _ _ _ _ E) in *.
      split; [exact Hwf | reflexivity].
  - rewrite OrderFacts.delete_order_returns in *.
    split; [apply Hadv | reflexivity].
Qed.

End OrderMore.

(** ** X1: looking a row up and scanning the table agree *)

(** X1: on a table that satisfies the invariant, [get_reading] /
    [get_order] answers with a row exactly when [get_all_readings] /
    [get_all_orders] lists that row under that id; in particular the row
    returned has the id asked for, and no id is listed twice. *)
Theorem lookup_agrees_with_scan :
  (forall (w : SensorDB.world) i r,
      wf (conn w) ->
      (SensorDB.get_reading i w = Some r
       <-> In r (SensorDB.get_all_readings w) /\ SensorDB.id r = i))
  /\ (forall (w : OrderDB.world) i r,
         wf (conn w) ->
         (OrderDB.get_order i w = Some r
          <-> In r (OrderDB.get_all_orders w) /\ OrderDB.id r = i)).
Proof.
  split; intros w i r Hwf; exact (ScanFacts.select_one_iff (conn w) i r Hwf).
Qed.

Lemma lookup_agrees_with_scan_witness :
  OrderDB.get_order 1 Samples.one_order
  = Some (1, {| OrderDB.customer_name := "Ada";
                OrderDB.product := "Valve";
                OrderDB.quantity := 3;
                OrderDB.unit_price := 21 # 2;
                OrderDB.order_date := "2024-03-01";
                OrderDB.status := "pending" |})
  <-> In (1, {| OrderDB.customer_name := "Ada";
                OrderDB.product := "Valve";
                OrderDB.quantity := 3;
                OrderDB.unit_price := 21 # 2;
                OrderDB.order_date := "2024-03-01";
                OrderDB.status := "pending" |})
         (OrderDB.get_all_orders Samples.one_order)
      /\ 1 = 1.
Proof.
  exact (proj2 lookup_agrees_with_scan Samples.one_order 1 _
           OrderFacts.one_order_wf).
Defined.

(** ** X2: what an add does to the table *)


(** ** X3: the calls that change the table change no file *)


(** ** X4: what an export does to the world *)


Module StripMore.

Import StripFacts.

Lemma snoc_decomposition (s : string) :
  s <> EmptyString -> exists r c, s = r +:+ String c EmptyString.
Proof.
  induction s as [|a s IH]; [congruence|]. intros _.
  destruct s as [|b s].
  - now exists EmptyString, a.
  - destruct IH as (r & c & Hr); [discriminate|].
    exists (String a r), c. simpl. now rewrite Hr.
Qed.

Lemma lstrip_keeps c r : isspace c = false -> lstrip (String c r) = String c r.
Proof. intros H. simpl. now rewrite H. Qed.

(** Trimming a trimmed text changes nothing. *)
Lemma strip_idempotent s : strip (strip s) = strip s.
Proof.
  destruct (strip_trimmed s) as [Hhead Hlast].
  destruct (strip s) as [|c r] eqn:E; [reflexivity|].
  unfold strip at 1. rewrite (lstrip_keeps c r (Hhead c r eq_refl)).
  destruct (snoc_decomposition (String c r)) as (r' & d & Hr); [discriminate|].
  apply (rstrip_keeps _ r' d Hr). now apply (Hlast r' d).
Qed.

End StripMore.

(** ** X5: the last update wins *)

(** X5: an update that returns makes whatever an earlier update of the
    same id did irrelevant: the answer and the whole world are those of
    the later update alone.  For orders the later update returns when its
    [quantity > 0] and [unit_price >= 0]; the earlier one may have been
    accepted or rejected.  In particular an update made twice is an update
    made once. *)
Theorem last_update_wins :
  (forall (w : SensorDB.world) i n1 v1 u1 t1 s1 n2 v2 u2 t2 s2,
      SensorDB.update_reading i n2 v2 u2 t2 s2
        (snd (SensorDB.update_reading i n1 v1 u1 t1 s1 w))
      = SensorDB.update_reading i n2 v2 u2 t2 s2 w)
  /\ (forall (w : OrderDB.world) i n1 p1 q1 pr1 d1 s1 n2 p2 q2 pr2 d2 s2,
         0 < q2 -> (0 <= pr2)%Q ->
         OrderDB.update_order i n2 p2 q2 pr2 d2 s2
           (snd (OrderDB.update_order i n1 p1 q1 pr1 d1 s1 w))
         = OrderDB.update_order i n2 p2 q2 pr2 d2 s2 w).
Proof.
  split.
  - intros w i n1 v1 u1 t1 s1 n2 v2 u2 t2 s2.
    destruct (SensorDB.get_reading i w) as [r|] eqn:E.
    + rewrite (SensorFacts.update_reading_found i n1 v1 u1 t1 s1 w r E).
      rewrite (SensorFacts.update_reading_found i n2 v2 u2 t2 s2 w r E).
      simpl.
      erewrite SensorFacts.update_reading_found;
        [|unfold SensorDB.get_reading, select_one in *; simpl;
          apply (TableFacts.find_rewrite_same _ _ _ _ E)].
      simpl. now rewrite ScanFacts.rewrite_rewrite.
    + rewrite (SensorFacts.update_reading_missing i n1 v1 u1 t1 s1 w E).
      reflexivity.
  - intros w i n1 p1 q1 pr1 d1 s1 n2 p2 q2 pr2 d2 s2 Hq Hp.
    destruct (OrderDB.get_order i w) as [r|] eqn:E.
    + destruct (OrderMore.order_numbers_decidable q1 pr1) as [[Hq1 Hp1]|Hbad].
      * rewrite (OrderFacts.update_order_found i n1 p1 q1 pr1 d1 s1 w r E Hq1 Hp1).
        rewrite (OrderFacts.update_order_found i n2 p2 q2 pr2 d2 s2 w r E Hq Hp).
        simpl.
        erewrite OrderFacts.update_order_found;
          [| unfold OrderDB.get_order, select_one in *; simpl;
             apply (TableFacts.find_rewrite_same _ _ _ _ E)
           | exact Hq | exact Hp].
        simpl. now rewrite ScanFacts.rewrite_rewrite.
      * now rewrite (OrderFacts.update_order_rejected i n1 p1 q1 pr1 d1 s1 w r
                       E Hbad).
    + rewrite (OrderFacts.update_order_missing i n1 p1 q1 pr1 d1 s1 w E).
      reflexivity.
Qed.

Lemma last_update_wins_witness :
  OrderDB.update_order 1 "Cy" "Seal" 2 (1 # 1) "2024-03-03" "paid"
    (snd (OrderDB.update_order 1 "Bob" "Pump" 0 (5 # 1) "2024-03-02"
            "shipped" Samples.one_order))
  = OrderDB.update_order 1 "Cy" "Seal" 2 (1 # 1) "2024-03-03" "paid"
      Samples.one_order.
Proof.
  assert (Hq : 0 < 2) by lia.
  assert (Hp : (0 <= 1 # 1)%Q) by discriminate.
  exact (proj2 last_update_wins Samples.one_order 1 "Bob" "Pump" 0 (5 # 1)
           "2024-03-02" "shipped" "Cy" "Seal" 2 (1 # 1) "2024-03-03" "paid"
           Hq Hp).
Defined.

(** ** X6: reading a row back and submitting it again *)

(** X6: after an update that returned [True], reading the row and passing
    its own values to the update again changes nothing: the texts an
    update stored are trimmed already, and trimming them again gives the
    same texts. *)
Theorem resubmitting_an_updated_row_changes_nothing :
  (forall (w : SensorDB.world) i n v u t s w1,
      SensorDB.update_reading i n v u t s w = (Returned true, w1) ->
      exists f,
        SensorDB.get_reading i w1 = Some (i, f)
        /\ SensorDB.update_reading i (SensorDB.sensor_name f)
             (SensorDB.value f) (SensorDB.unit f) (SensorDB.timestamp f)
             (SensorDB.status f) w1
           = (Returned true, w1))
  /\ (forall (w : OrderDB.world) i n p q pr d s w1,
         OrderDB.update_order i n p q pr d s w = (Returned true, w1) ->
         exists f,
           OrderDB.get_order i w1 = Some (i, f)
           /\ OrderDB.update_order i (OrderDB.customer_name f)
                (OrderDB.product f) (OrderDB.quantity f)
                (OrderDB.unit_price f) (OrderDB.order_date f)
                (OrderDB.status f) w1
              = (Returned true, w1)).
Proof.
  split.
  - intros w i n v u t s w1 Hupd.
    destruct (SensorDB.get_reading i w) as [r|] eqn:E.
    + rewrite (SensorFacts.update_reading_found i n v u t s w r E) in Hupd.
      injection Hupd as <-.
      eexists. split.
      * unfold SensorDB.get_reading, select_one in *. simpl.
        apply (TableFacts.find_rewrite_same _ _ _ _ E).
      * erewrite SensorFacts.update_reading_found;
          [|unfold SensorDB.get_reading, select_one in *; simpl;
            apply (TableFacts.find_rewrite_same _ _ _ _ E)].
        simpl. rewrite !StripMore.strip_idempotent.
        now rewrite ScanFacts.rewrite_rewrite.
    + rewrite (SensorFacts.update_reading_missing i n v u t s w E) in Hupd.
      discriminate.
  - intros w i n p q pr d s w1 Hupd.
    destruct (OrderDB.get_order i w) as [r|] eqn:E.
    + destruct (OrderMore.order_numbers_decidable q pr) as [[Hq Hp]|Hbad].
      * rewrite (OrderFacts.update_order_found i n p q pr d s w r E Hq Hp)
          in Hupd.
        injection Hupd as <-.
        eexists. split.
        -- unfold OrderDB.get_order, select_one in *. simpl.
           apply (TableFacts.find_rewrite_same _ _ _ _ E).
        -- erewrite OrderFacts.update_order_found;
             [| unfold OrderDB.get_order, select_one in *; simpl;
                apply (TableFacts.find_rewrite_same _ _ _ _ E)
              | exact Hq | exact Hp].
           simpl. rewrite !StripMore.strip_idempotent.
           now rewrite ScanFacts.rewrite_rewrite.
      * rewrite (OrderFacts.update_order_rejected i n p q pr d s w r E Hbad)
          in Hupd.
        discriminate.
    + rewrite (OrderFacts.update_order_missing i n p q pr d s w E) in Hupd.
      discriminate.
Qed.

Lemma resubmitting_an_updated_row_changes_nothing_witness :
  exists f,
    SensorDB.get_reading 1
      (snd (SensorDB.update_reading 1 "  Pump-B " (2 # 1) " bar"
              " 2024-03-02 09:00:00 " "Warning " Samples.one_reading))
    = Some (1, f)
    /\ SensorDB.update_reading 1 (SensorDB.sensor_name f) (SensorDB.value f)
         (SensorDB.unit f) (SensorDB.timestamp f) (SensorDB.status f)
         (snd (SensorDB.update_reading 1 "  Pump-B " (2 # 1) " bar"
                 " 2024-03-02 09:00:00 " "Warning " Samples.one_reading))
       = (Returned true,
          snd (SensorDB.update_reading 1 "  Pump-B " (2 # 1) " bar"
                 " 2024-03-02 09:00:00 " "Warning " Samples.one_reading)).
Proof.
  exact (proj1 resubmitting_an_updated_row_changes_nothing
           Samples.one_reading 1 "  Pump-B " (2 # 1) " bar"
           " 2024-03-02 09:00:00 " "Warning " _ eq_refl).
Defined.

(** ** X7: what a delete does to the table *)

(** X7: deleting an id the table does not hold returns [False] and leaves
    the world as it was.  On a table that satisfies the invariant,
    deleting an id it holds leaves exactly the rows with another id, in
    their order, so one row fewer. *)
Theorem delete_removes_exactly_one_row :
  (forall (w : SensorDB.world) i,
      (SensorDB.get_reading i w = None ->
       SensorDB.delete_reading i w = (Returned false, w))
      /\ (wf (conn w) ->
          is_Some (SensorDB.get_reading i w) ->
          SensorDB.get_all_readings (snd (SensorDB.delete_reading i w))
          = List.filter (fun r => negb (SensorDB.id r =? i))
                        (SensorDB.get_all_readings w)
          /\ S (length (SensorDB.get_all_readings
                          (snd (SensorDB.delete_reading i w))))
             = length (SensorDB.get_all_readings w)))
  /\ (forall (w : OrderDB.world) i,
         (OrderDB.get_order i w = None ->
          OrderDB.delete_order i w = (Returned false, w))
         /\ (wf (conn w) ->
             is_Some (OrderDB.get_order i w) ->
             OrderDB.get_all_orders (snd (OrderDB.delete_order i w))
             = List.filter (fun r => negb (OrderDB.id r =? i))
                           (OrderDB.get_all_orders w)
             /\ S (length (OrderDB.get_all_orders
                             (snd (OrderDB.delete_order i w))))
                = length (OrderDB.get_all_orders w))).
Proof.
  split; intros w i; split.
  - intros Hnone. rewrite SensorFacts.delete_reading_returns, Hnone.
    unfold SensorDB.get_reading, select_one in Hnone.
    rewrite (TableFacts.filter_no_match _ i Hnone). now destruct w as [[? ?] ?].
  - intros (_ & Hs & _) [r Hr].
    rewrite SensorFacts.delete_reading_returns. simpl.
    unfold SensorDB.get_all_readings, select_all. simpl.
    split; [reflexivity|].
    unfold SensorDB.get_reading, select_one in Hr.
    pose proof (ScanFacts.filter_matches_one (rows (conn w)) i r Hs Hr) as H.
    destruct (rows (conn w)) as [|a l]; [discriminate|].
    simpl in H. simpl length at 2. f_equal. exact H.
  - intros Hnone. rewrite OrderFacts.delete_order_returns, Hnone.
    unfold OrderDB.get_order, select_one in Hnone.
    rewrite (TableFacts.filter_no_match _ i Hnone). now destruct w as [[? ?] ?].
  - intros (_ & Hs & _) [r Hr].
    rewrite OrderFacts.delete_order_returns. simpl.
    unfold OrderDB.get_all_orders, select_all. simpl.
    split; [reflexivity|].
    unfold OrderDB.get_order, select_one in Hr.
    pose proof (ScanFacts.filter_matches_one (rows (conn w)) i r Hs Hr) as H.
    destruct (rows (conn w)) as [|a l]; [discriminate|].
    simpl in H. simpl length at 2. f_equal. exact H.
Qed.

Lemma delete_removes_exactly_one_row_witness :
  (SensorDB.delete_reading 5 Samples.one_reading
   = (Returned false, Samples.one_reading))
  /\ (OrderDB.get_all_orders (snd (OrderDB.delete_order 1 Samples.one_order))
      = List.filter (fun r => negb (OrderDB.id r =? 1))
                    (OrderDB.get_all_orders Samples.one_order)
      /\ S (length (OrderDB.get_all_orders
                      (snd (OrderDB.delete_order 1 Samples.one_order))))
         = length (OrderDB.get_all_orders Samples.one_order)).
Proof.
  split.
  - exact (proj1 (proj1 delete_removes_exactly_one_row Samples.one_reading 5)
             eq_refl).
  - assert (Hrow : is_Some (OrderDB.get_order 1 Samples.one_order))
      by (vm_compute; eauto).
    exact (proj2 (proj2 delete_removes_exactly_one_row Samples.one_order 1)
             OrderFacts.one_order_wf Hrow).
Defined.

(** ** X8: the ids a new database hands out *)

(** X8: on a new database the adds that return hand out the ids 1, 2, 3
    and so on, in that order, whatever updates, deletes and rejected adds
    come in between: a rejected add uses up no id.  At any moment
    [get_all_readings] / [get_all_orders] lists the rows by strictly
    increasing id, and every id listed is one of those handed out. *)
Theorem new_database_counts_from_one :
  (forall (cs : list SensorDB.call) (fs : gmap string string),
      assigned (fst (run SensorDB.perform cs (SensorDB.init None fs)))
      = map Z.of_nat
          (seq 1 (length (assigned (fst (run SensorDB.perform cs
                                           (SensorDB.init None fs))))))
      /\ StronglySorted Z.lt
           (map SensorDB.id
              (SensorDB.get_all_readings
                 (snd (run SensorDB.perform cs (SensorDB.init None fs)))))
      /\ Forall
           (fun i =>
              In i (assigned (fst (run SensorDB.perform cs
                                     (SensorDB.init None fs)))))
           (map SensorDB.id
              (SensorDB.get_all_readings
                 (snd (run SensorDB.perform cs (SensorDB.init None fs))))))
  /\ (forall (cs : list OrderDB.call) (fs : gmap string string),
         assigned (fst (run OrderDB.perform cs (OrderDB.init None fs)))
         = map Z.of_nat
             (seq 1 (length (assigned (fst (run OrderDB.perform cs
                                              (OrderDB.init None fs))))))
         /\ StronglySorted Z.lt
              (map OrderDB.id
                 (OrderDB.get_all_orders
                    (snd (run OrderDB.perform cs (OrderDB.init None fs)))))
         /\ Forall
              (fun i =>
                 In i (assigned (fst (run OrderDB.perform cs
                                        (OrderDB.init None fs)))))
              (map OrderDB.id
                 (OrderDB.get_all_orders
                    (snd (run OrderDB.perform cs (OrderDB.init None fs)))))).
Proof.
  split; intros cs fs.
  - destruct (ScanFacts.run_counts _ SensorMore.sensor_call_counts cs
                (SensorDB.init None fs) TableFacts.wf_empty) as [Hids _].
    split; [exact Hids|].
    destruct (TableFacts.run_advances _ SensorFacts.sensor_call_advances cs
                (SensorDB.init None fs) TableFacts.wf_empty)
      as ((_ & Hs & _) & _ & _ & _ & Hfrom).
    split; [exact Hs|].
    apply List.Forall_forall. intros i Hi.
    destruct (Hfrom i Hi) as [[]|H]. exact H.
  - destruct (ScanFacts.run_counts _ OrderMore.order_call_counts cs
                (OrderDB.init None fs) TableFacts.wf_empty) as [Hids _].
    split; [exact Hids|].
    destruct (TableFacts.run_advances _ OrderFacts.order_call_advances cs
                (OrderDB.init None fs) TableFacts.wf_empty)
      as ((_ & Hs & _) & _ & _ & _ & Hfrom).
    split; [exact Hs|].
    apply List.Forall_forall. intros i Hi.
    destruct (Hfrom i Hi) as [[]|H]. exact H.
Qed.

(** * The scripts *)

Module PhoneFacts.

Import PhoneSpeller.

Lemma int_of_char_range c v : int_of_char c = Some v -> 0 <= v <= 9.
Proof.
  unfold int_of_char.
  destruct ((48 <=? Z.of_N (N_of_ascii c)) && (Z.of_N (N_of_ascii c) <=? 57))
    eqn:E; [|discriminate].
  intros [= <-]. apply andb_true_iff in E as [H1 H2]. lia.
Qed.

Lemma int_of_char_inj c1 c2 v :
  int_of_char c1 = Some v -> int_of_char c2 = Some v -> c1 = c2.
Proof.
  unfold int_of_char.
  destruct ((48 <=? Z.of_N (N_of_ascii c1)) && (Z.of_N (N_of_ascii c1) <=? 57));
    [|discriminate].
  destruct ((48 <=? Z.of_N (N_of_ascii c2)) && (Z.of_N (N_of_ascii c2) <=? 57));
    [|discriminate].
  intros [= H1] [= H2].
  assert (H : N_of_ascii c1 = N_of_ascii c2) by lia.
  rewrite <- (ascii_N_embedding c1), <- (ascii_N_embedding c2). now rewrite H.
Qed.

(** Every digit has its word, and two digits have different words. *)
Lemma digit_has_word v : 0 <= v <= 9 -> is_Some (getitem digits v).
Proof.
  intros H.
  assert (Hv : v = 0 \/ v = 1 \/ v = 2 \/ v = 3 \/ v = 4 \/ v = 5 \/ v = 6
               \/ v = 7 \/ v = 8 \/ v = 9) by lia.
  repeat (destruct Hv as [->|Hv]; [vm_compute; eauto|]). subst. vm_compute. eauto.
Qed.

Lemma word_inj v1 v2 w :
  0 <= v1 <= 9 -> 0 <= v2 <= 9 ->
  getitem digits v1 = Some w -> getitem digits v2 = Some w -> v1 = v2.
Proof.
  intros H1 H2.
  assert (Hv1 : v1 = 0 \/ v1 = 1 \/ v1 = 2 \/ v1 = 3 \/ v1 = 4 \/ v1 = 5
                \/ v1 = 6 \/ v1 = 7 \/ v1 = 8 \/ v1 = 9) by lia.
  assert (Hv2 : v2 = 0 \/ v2 = 1 \/ v2 = 2 \/ v2 = 3 \/ v2 = 4 \/ v2 = 5
                \/ v2 = 6 \/ v2 = 7 \/ v2 = 8 \/ v2 = 9) by lia.
  clear H1 H2.
  repeat (destruct Hv1 as [->|Hv1]);
    repeat (destruct Hv2 as [->|Hv2]);
    subst; vm_compute; intros [= <-]; (reflexivity || discriminate).
Qed.

Lemma spelt_inj c1 c2 w : spelt c1 w -> spelt c2 w -> c1 = c2.
Proof.
  intros (v1 & Hc1 & Hw1) (v2 & Hc2 & Hw2).
  assert (v1 = v2).
  { apply (word_inj v1 v2 w); trivial; eapply int_of_char_range; eauto. }
  subst. eapply int_of_char_inj; eauto.
Qed.

End PhoneFacts.

(** ** X9: what the speller prints *)

(** X9: the speller prints the words of the digits that start the line,
    one word for each digit and in their order, and nothing else.  When
    the whole line is digits it ends normally (so does an empty line,
    which prints nothing); at the first character that is not a decimal
    digit it raises the [ValueError] of [int] on that character, and the
    digits after it are never spelt.  No [IndexError] can arise, and with
    no line to read the script raises [EOFError]. *)
Theorem speller_prints_the_leading_digits :
  (forall (chars : list ascii) (bad : string) (rest : list string)
          (out : list output),
      Forall (fun char => is_Some (PhoneSpeller.int_of_char char)) chars ->
      match bad with
      | EmptyString => True
      | String x _ => PhoneSpeller.int_of_char x = None
      end ->
      exists words,
        Forall2 PhoneSpeller.spelt chars words
        /\ PhoneSpeller.main
             {| stdin := (string_of_list_ascii chars +:+ bad) :: rest;
                stdout := out |}
           = (match bad with
              | EmptyString => Done tt
              | String x _ => Failed (ValueError_of (String x EmptyString))
              end,
              {| stdin := rest;
                 stdout := out ++ [Prompted "Enter the phone number: "]
                           ++ map Printed words |}))
  /\ (forall out,
         PhoneSpeller.main {| stdin := []; stdout := out |}
         = (Failed EOFError,
            {| stdin := [];
               stdout := out ++ [Prompted "Enter the phone number: "] |})).
Proof.
  split; [|reflexivity].
  intros chars bad rest out Hdigits Hbad.
  assert (Hspell : forall out0,
             exists words,
               Forall2 PhoneSpeller.spelt chars words
               /\ PhoneSpeller.spell (string_of_list_ascii chars +:+ bad) out0
                  = (match bad with
                     | EmptyString => Done tt
                     | String x _ =>
                         Failed (ValueError_of (String x EmptyString))
                     end, out0 ++ map Printed words)).
  { induction Hdigits as [|c chars [v Hv] Hrest IH]; intros out0.
    - exists []. split; [constructor|]. simpl. rewrite app_nil_r.
      destruct bad as [|x bad']; [reflexivity|]. simpl. now rewrite Hbad.
    - destruct (PhoneFacts.digit_has_word v (PhoneFacts.int_of_char_range c v Hv))
        as [w Hw].
      destruct (IH (out0 ++ [Printed w])) as (ws & Hws & Hrun).
      exists (w :: ws). split.
      + constructor; [now exists v | exact Hws].
      + simpl string_of_list_ascii. rewrite CsvFacts.append_cons.
        simpl. rewrite Hv, Hw, Hrun. now rewrite <- app_assoc. }
  destruct (Hspell (out ++ [Prompted "Enter the phone number: "]))
    as (ws & Hws & Hrun).
  exists ws. split; [exact Hws|].
  unfold PhoneSpeller.main. simpl. rewrite Hrun. now rewrite <- app_assoc.
Qed.

Lemma speller_prints_the_leading_digits_witness :
  exists words,
    Forall2 PhoneSpeller.spelt ["0"; "8"; "0"]%char words
    /\ PhoneSpeller.main {| stdin := ["080-1234"; "next"]; stdout := [] |}
       = (Failed (ValueError_of "-"),
          {| stdin := ["next"];
             stdout := [] ++ [Prompted "Enter the phone number: "]
                       ++ map Printed words |}).
Proof.
  assert (Hd : Forall (fun char => is_Some (PhoneSpeller.int_of_char char))
                      ["0"; "8"; "0"]%char)
    by (repeat constructor; vm_compute; eauto).
  exact (proj1 speller_prints_the_leading_digits ["0"; "8"; "0"]%char
           "-1234" ["next"] [] Hd eq_refl).
Defined.

(** ** X10: the words spell the number back *)



Module AdmissionFacts.

Import Admission.

Lemma Qltb_lt a b : Qltb a b = true <-> (a < b)%Q.
Proof.
  unfold Qltb. rewrite negb_true_iff. split.
  - intros H. apply Qnot_le_lt. intros Hle. apply Qle_bool_iff in Hle.
    congruence.
  - intros H. destruct (Qle_bool b a) eqn:E; [|reflexivity].
    apply Qle_bool_iff in E. lra.
Qed.

Lemma Qle_bool_false a b : Qle_bool a b = false <-> (b < a)%Q.
Proof.
  split.
  - intros H. apply Qnot_le_lt. intros Hle. apply Qle_bool_iff in Hle.
    congruence.
  - intros H. destruct (Qle_bool a b) eqn:E; [|reflexivity].
    apply Qle_bool_iff in E. lra.
Qed.

Lemma pass_ceiling_bounds : (60 <= pass_ceiling)%Q /\ (pass_ceiling < 90)%Q.
Proof. split; unfold pass_ceiling; [discriminate | reflexivity]. Qed.

Section Script.

Variable int_of : string -> option Z.
Variable float_of : string -> option Q.

(** What a loop that ends normally has read and recorded. *)
Lemma entries_done n : forall lines out acc students c',
  (length lines <= n)%nat ->
  entries int_of float_of lines out acc = (Done students, c') ->
  exists new,
    students = acc ++ new
    /\ new <> []
    /\ Forall recorded new
    /\ length lines = (4 * length new + length (stdin c'))%nat.
Proof.
  induction n as [|n IH]; intros lines out acc students c' Hlen Hrun.
  - destruct lines; [discriminate | simpl in Hlen; lia].
  - destruct lines as [|name [|age_text [|score_text [|cont rest]]]];
      try discriminate.
    + simpl in Hrun. destruct (int_of age_text); discriminate.
    + simpl in Hrun. destruct (int_of age_text); [|discriminate].
      destruct (float_of score_text); discriminate.
    + simpl in Hrun.
      destruct (int_of age_text) as [age|]; [|discriminate].
      destruct (float_of score_text) as [score|]; [|discriminate].
      destruct (String.eqb (lower cont) "yes").
      * apply IH in Hrun; [|simpl in Hlen; lia].
        destruct Hrun as (new & -> & _ & Hrec & Hlines).
        eexists (_ :: new). split; [now rewrite <- app_assoc|].
        split; [discriminate|].
        split; [constructor; [split; reflexivity | exact Hrec]|].
        simpl. simpl in Hlines. lia.
      * injection Hrun as <- <-.
        eexists [_]. split; [reflexivity|]. split; [discriminate|].
        split; [repeat constructor|]. simpl. lia.
Qed.

End Script.

End AdmissionFacts.

Ltac grade_case :=
  repeat split; intros;
  repeat match goal with H : _ /\ _ |- _ => destruct H end;
  try discriminate; try reflexivity; try lra.

(** ** X11: the grades and the eligibility *)


(** ** X12: the admission script writes its file last, or not at all *)


(** A run of the script: one student, then a second one whose age is no
    number; the program stops there and writes no file. *)
Example admission_run_lost :
  Admission.main SampleReaders.int_of SampleReaders.float_of
    Samples.fraction_text
    {| stdin := ["Ada"; "19"; "90"; "YES"; "Bob"; "twenty"; "75"; "no"];
       stdout := [] |} ∅
  = (Failed (ValueError_of "twenty"),
     ({| stdin := ["75"; "no"];
         stdout :=
           [Printed (nl +:+ "--- New Student Entry ---");
            Prompted "Enter your name: ";
            Prompted "Enter your age: ";
            Printed Admission.welcome_text;
            Prompted "Enter your score: ";
            Printed "Performance: FAIL";
            Printed "Enrollment Eligibility: True";
            Prompted "Do you want to enter another student? (yes/no): ";
            Printed (nl +:+ "--- New Student Entry ---");
            Prompted "Enter your name: ";
            Prompted "Enter your age: "] |}, ∅)).
Proof. reflexivity. Qed.

(** * The shells *)

Ltac split_all := repeat match goal with |- _ /\ _ => split end.

(** One more turn of a loop on the lines left: the induction hypothesis at
    the output of the turn before. *)
Ltac next_turn IH :=
  lazymatch goal with
  | |- match ?call with _ => _ end =>
      lazymatch call with
      | _ ?out => specialize (IH out)
      end;
      let v := fresh "v" in
      let e := fresh "e" in
      let c' := fresh "c'" in
      destruct call as [[v|e] c']
  end.

(** The output of a loop: what the turns before have added, and what is
    added now. *)
Ltac grow_output :=
  first
    [ match goal with
      | H : exists new, stdout _ = _ ++ new /\ length new = _ |- _ =>
          let new := fresh "new" in
          let Ho := fresh "Ho" in
          let Hn := fresh "Hn" in
          destruct H as (new & Ho & Hn);
          rewrite <- !app_assoc in Ho;
          eexists; split; [exact Ho | simpl; rewrite ?length_app; simpl; lia]
      end
    | eexists; split; [simpl; reflexivity | simpl; lia] ].

(** ** The loops that read one value *)

Module ReaderFacts.

Import Flow.

(** *** [input_nonempty] *)

Lemma order_input_nonempty_loop prompt : forall lines out,
  match OrderShell.input_nonempty_loop prompt lines out with
  | (Done val, c') =>
      exists blanks line,
        lines = blanks ++ line :: stdin c'
        /\ Forall (fun l => strip l = EmptyString) blanks
        /\ val = strip line
        /\ val <> EmptyString
        /\ stdout c'
           = out
             ++ flat_map
                  (fun _ =>
                     [Prompted prompt;
                      Printed "Input cannot be empty. Please try again."])
                  blanks
             ++ [Prompted prompt]
  | (Failed e, c') =>
      e = EOFError
      /\ Forall (fun l => strip l = EmptyString) lines
      /\ stdin c' = []
      /\ stdout c'
         = out
           ++ flat_map
                (fun _ =>
                   [Prompted prompt;
                    Printed "Input cannot be empty. Please try again."])
                lines
           ++ [Prompted prompt]
  end.
Proof.
  intros lines; induction lines as [|line rest IH]; intros out; simpl.
  - split_all; [reflexivity | constructor | reflexivity | reflexivity].
  - destruct (strip line) as [|ch val] eqn:E.
    + next_turn IH.
      * destruct IH as (blanks & answer & Hl & Hb & Hv & Hne & Hout).
        exists (line :: blanks), answer.
        split_all;
          [ simpl; now rewrite Hl | now constructor | exact Hv | exact Hne
          | rewrite Hout; simpl; now rewrite <- !app_assoc ].
      * destruct IH as (He & Hb & Hin & Hout).
        split_all;
          [ exact He | now constructor | exact Hin
          | rewrite Hout; simpl; now rewrite <- !app_assoc ].
    + exists [], line; simpl.
      split_all;
        [ reflexivity | constructor | now rewrite E | discriminate
        | reflexivity ].
Qed.

Lemma sensor_input_nonempty_loop prompt : forall lines out,
  match SensorShell.input_nonempty_loop prompt lines out with
  | (Done val, c') =>
      exists blanks line,
        lines = blanks ++ line :: stdin c'
        /\ Forall (fun l => strip l = EmptyString) blanks
        /\ val = strip line
        /\ val <> EmptyString
        /\ stdout c'
           = out
             ++ flat_map
                  (fun _ =>
                     [Prompted prompt; Printed "⚠ Input cannot be empty."])
                  blanks
             ++ [Prompted prompt]
  | (Failed e, c') =>
      e = EOFError
      /\ Forall (fun l => strip l = EmptyString) lines
      /\ stdin c' = []
      /\ stdout c'
         = out
           ++ flat_map
                (fun _ =>
                   [Prompted prompt; Printed "⚠ Input cannot be empty."])
                lines
           ++ [Prompted prompt]
  end.
Proof.
  intros lines; induction lines as [|line rest IH]; intros out; simpl.
  - split_all; [reflexivity | constructor | reflexivity | reflexivity].
  - destruct (strip line) as [|ch val] eqn:E.
    + next_turn IH.
      * destruct IH as (blanks & answer & Hl & Hb & Hv & Hne & Hout).
        exists (line :: blanks), answer.
        split_all;
          [ simpl; now rewrite Hl | now constructor | exact Hv | exact Hne
          | rewrite Hout; simpl; now rewrite <- !app_assoc ].
      * destruct IH as (He & Hb & Hin & Hout).
        split_all;
          [ exact He | now constructor | exact Hin
          | rewrite Hout; simpl; now rewrite <- !app_assoc ].
    + exists [], line; simpl.
      split_all;
        [ reflexivity | constructor | now rewrite E | discriminate
        | reflexivity ].
Qed.

(** *** [input_int] and [input_float] *)

Section Numbers.

Variable int_of : string -> option Z.
Variable float_of : string -> option Q.
Variable float_repr : Q -> string.

Lemma input_int_loop_reads prompt min_value : forall lines out,
  match OrderShell.input_int_loop int_of prompt min_value lines out with
  | (Done v, c') =>
      exists refused line,
        lines = refused ++ line :: stdin c'
        /\ Forall (fun l =>
                     match int_of (strip l) with
                     | Some u => exists m, min_value = Some m /\ u < m
                     | None => True
                     end) refused
        /\ int_of (strip line) = Some v
        /\ (forall m, min_value = Some m -> m <= v)
        /\ exists new,
             stdout c' = out ++ new /\ length new = (2 * length refused + 1)%nat
  | (Failed e, c') =>
      e = EOFError
      /\ Forall (fun l =>
                   match int_of (strip l) with
                   | Some u => exists m, min_value = Some m /\ u < m
                   | None => True
                   end) lines
      /\ stdin c' = []
      /\ exists new,
             stdout c' = out ++ new /\ length new = (2 * length lines + 1)%nat
  end.
Proof.
  intros lines; induction lines as [|line rest IH]; intros out; simpl.
  - split_all; [reflexivity | constructor | reflexivity | grow_output].
  - destruct (int_of (strip line)) as [u|] eqn:E;
      [destruct min_value as [m|]; [destruct (u <? m) eqn:Hlt|]|].
    + next_turn IH.
      * destruct IH as (refused & answer & Hl & Hr & Hv & Hmin & Hout).
        exists (line :: refused), answer.
        split_all;
          [ simpl; now rewrite Hl
          | constructor; [rewrite E; exists m; split; [reflexivity|lia]
                         | exact Hr]
          | exact Hv | exact Hmin | grow_output ].
      * destruct IH as (He & Hr & Hin & Hout).
        split_all;
          [ exact He
          | constructor; [rewrite E; exists m; split; [reflexivity|lia]
                         | exact Hr]
          | exact Hin | grow_output ].
    + exists [], line; simpl.
      split_all;
        [ reflexivity | constructor | exact E
        | intros m' [= <-]; lia | grow_output ].
    + exists [], line; simpl.
      split_all;
        [ reflexivity | constructor | exact E
        | intros m' [=] | grow_output ].
    + next_turn IH.
      * destruct IH as (refused & answer & Hl & Hr & Hv & Hmin & Hout).
        exists (line :: refused), answer.
        split_all;
          [ simpl; now rewrite Hl
          | constructor; [now rewrite E | exact Hr]
          | exact Hv | exact Hmin | grow_output ].
      * destruct IH as (He & Hr & Hin & Hout).
        split_all;
          [ exact He
          | constructor; [now rewrite E | exact Hr]
          | exact Hin | grow_output ].
Qed.

Lemma order_input_float_loop_reads prompt min_value : forall lines out,
  match OrderShell.input_float_loop float_of float_repr prompt min_value
          lines out with
  | (Done v, c') =>
      exists refused line,
        lines = refused ++ line :: stdin c'
        /\ Forall (fun l =>
                     match float_of (strip l) with
                     | Some u => exists m, min_value = Some m /\ (u < m)%Q
                     | None => True
                     end) refused
        /\ float_of (strip line) = Some v
        /\ (forall m, min_value = Some m -> (m <= v)%Q)
        /\ exists new,
             stdout c' = out ++ new /\ length new = (2 * length refused + 1)%nat
  | (Failed e, c') =>
      e = EOFError
      /\ Forall (fun l =>
                   match float_of (strip l) with
                   | Some u => exists m, min_value = Some m /\ (u < m)%Q
                   | None => True
                   end) lines
      /\ stdin c' = []
      /\ exists new,
             stdout c' = out ++ new /\ length new = (2 * length lines + 1)%nat
  end.
Proof.
  intros lines; induction lines as [|line rest IH]; intros out; simpl.
  - split_all; [reflexivity | constructor | reflexivity | grow_output].
  - destruct (float_of (strip line)) as [u|] eqn:E;
      [destruct min_value as [m|]; [destruct (Admission.Qltb u m) eqn:Hlt|]|].
    + apply AdmissionFacts.Qltb_lt in Hlt. next_turn IH.
      * destruct IH as (refused & answer & Hl & Hr & Hv & Hmin & Hout).
        exists (line :: refused), answer.
        split_all;
          [ simpl; now rewrite Hl
          | constructor; [rewrite E; exists m; split; [reflexivity|exact Hlt]
                         | exact Hr]
          | exact Hv | exact Hmin | grow_output ].
      * destruct IH as (He & Hr & Hin & Hout).
        split_all;
          [ exact He
          | constructor; [rewrite E; exists m; split; [reflexivity|exact Hlt]
                         | exact Hr]
          | exact Hin | grow_output ].
    + exists [], line; simpl.
      split_all;
        [ reflexivity | constructor | exact E | | grow_output ].
      intros m' [= <-]. apply Qnot_lt_le. intros Hlt'.
      apply AdmissionFacts.Qltb_lt in Hlt'. congruence.
    + exists [], line; simpl.
      split_all;
        [ reflexivity | constructor | exact E
        | intros m' [=] | grow_output ].
    + next_turn IH.
      * destruct IH as (refused & answer & Hl & Hr & Hv & Hmin & Hout).
        exists (line :: refused), answer.
        split_all;
          [ simpl; now rewrite Hl
          | constructor; [now rewrite E | exact Hr]
          | exact Hv | exact Hmin | grow_output ].
      * destruct IH as (He & Hr & Hin & Hout).
        split_all;
          [ exact He
          | constructor; [now rewrite E | exact Hr]
          | exact Hin | grow_output ].
Qed.

Lemma sensor_input_float_loop_reads prompt : forall lines out,
  match SensorShell.input_float_loop float_of prompt lines out with
  | (Done v, c') =>
      exists refused line,
        lines = refused ++ line :: stdin c'
        /\ Forall (fun l => float_of (strip l) = None) refused
        /\ float_of (strip line) = Some v
        /\ exists new,
             stdout c' = out ++ new /\ length new = (2 * length refused + 1)%nat
  | (Failed e, c') =>
      e = EOFError
      /\ Forall (fun l => float_of (strip l) = None) lines
      /\ stdin c' = []
      /\ exists new,
             stdout c' = out ++ new /\ length new = (2 * length lines + 1)%nat
  end.
Proof.
  intros lines; induction lines as [|line rest IH]; intros out; simpl.
  - split_all; [reflexivity | constructor | reflexivity | grow_output].
  - destruct (float_of (strip line)) as [u|] eqn:E.
    + exists [], line; simpl.
      split_all; [reflexivity | constructor | exact E | grow_output].
    + next_turn IH.
      * destruct IH as (refused & answer & Hl & Hr & Hv & Hout).
        exists (line :: refused), answer.
        split_all;
          [ simpl; now rewrite Hl | now constructor | exact Hv
          | grow_output ].
      * destruct IH as (He & Hr & Hin & Hout).
        split_all;
          [ exact He | now constructor | exact Hin | grow_output ].
Qed.

(** *** [input_date] *)

Variable fromisoformat : string -> option string.

Lemma blank_with_default_some s default_iso d :
  OrderShell.blank_with_default s default_iso = Some d
  <-> s = EmptyString /\ default_iso = Some d /\ d <> EmptyString.
Proof.
  unfold OrderShell.blank_with_default. split.
  - destruct s; [|discriminate].
    destruct default_iso as [[|c t]|]; [discriminate | | discriminate].
    intros [= <-]. now split_all.
  - intros (-> & -> & Hd). destruct d; [now destruct Hd | reflexivity].
Qed.

Lemma input_date_loop_reads prompt default_iso : forall lines out,
  match OrderShell.input_date_loop fromisoformat prompt default_iso lines
          out with
  | (Done d, c') =>
      exists refused line,
        lines = refused ++ line :: stdin c'
        /\ Forall (fun l => fromisoformat (strip l) = None) refused
        /\ (strip line = EmptyString /\ default_iso = Some d
            /\ d <> EmptyString
            \/ fromisoformat (strip line) = Some d)
        /\ exists new,
             stdout c' = out ++ new /\ length new = (2 * length refused + 1)%nat
  | (Failed e, c') =>
      e = EOFError
      /\ Forall (fun l => fromisoformat (strip l) = None) lines
      /\ stdin c' = []
      /\ exists new,
             stdout c' = out ++ new /\ length new = (2 * length lines + 1)%nat
  end.
Proof.
  intros lines; induction lines as [|line rest IH]; intros out; simpl.
  - split_all; [reflexivity | constructor | reflexivity | grow_output].
  - destruct (OrderShell.blank_with_default (strip line) default_iso)
      as [d|] eqn:Eb; [|destruct (fromisoformat (strip line)) as [d|] eqn:E].
    + apply blank_with_default_some in Eb.
      exists [], line; simpl.
      split_all; [reflexivity | constructor | now left | grow_output].
    + exists [], line; simpl.
      split_all; [reflexivity | constructor | now right | grow_output].
    + next_turn IH.
      * destruct IH as (refused & answer & Hl & Hr & Hv & Hout).
        exists (line :: refused), answer.
        split_all;
          [ simpl; now rewrite Hl | now constructor | exact Hv
          | grow_output ].
      * destruct IH as (He & Hr & Hin & Hout).
        split_all;
          [ exact He | now constructor | exact Hin | grow_output ].
Qed.

(** *** The loops of [update_order_flow] *)

Lemma new_quantity_loop_reads existing : forall lines out,
  match OrderShell.new_quantity_loop int_of existing lines out with
  | (Done q, c') =>
      exists refused line,
        lines = refused ++ line :: stdin c'
        /\ Forall (fun l =>
                     strip l <> EmptyString
                     /\ match int_of (strip l) with
                        | Some u => u <= 0
                        | None => True
                        end) refused
        /\ (strip line = EmptyString /\ q = existing
            \/ strip line <> EmptyString
               /\ int_of (strip line) = Some q /\ 0 < q)
        /\ exists new,
             stdout c' = out ++ new /\ length new = (2 * length refused + 1)%nat
  | (Failed e, c') =>
      e = EOFError
      /\ stdin c' = []
      /\ exists new,
             stdout c' = out ++ new /\ length new = (2 * length lines + 1)%nat
  end.
Proof.
  intros lines; induction lines as [|line rest IH]; intros out; simpl.
  - split_all; [reflexivity | reflexivity | grow_output].
  - destruct (strip line) as [|ch raw] eqn:Es;
      [|destruct (int_of (String ch raw)) as [u|] eqn:E;
        [destruct (u <=? 0) eqn:Hle|]].
    + exists [], line; simpl.
      split_all; [reflexivity | constructor | left; now rewrite Es
                 | grow_output].
    + next_turn IH.
      * destruct IH as (refused & answer & Hl & Hr & Hv & Hout).
        exists (line :: refused), answer.
        split_all;
          [ simpl; now rewrite Hl
          | constructor; [rewrite Es, E; split; [discriminate | lia]
                         | exact Hr]
          | exact Hv | grow_output ].
      * destruct IH as (He & Hin & Hout).
        split_all; [exact He | exact Hin | grow_output].
    + exists [], line; simpl.
      split_all;
        [ reflexivity | constructor
        | right; rewrite Es; split_all; [discriminate | exact E | lia]
        | grow_output ].
    + next_turn IH.
      * destruct IH as (refused & answer & Hl & Hr & Hv & Hout).
        exists (line :: refused), answer.
        split_all;
          [ simpl; now rewrite Hl
          | constructor; [rewrite Es, E; split; [discriminate | exact I]
                         | exact Hr]
          | exact Hv | grow_output ].
      * destruct IH as (He & Hin & Hout).
        split_all; [exact He | exact Hin | grow_output].
Qed.

Lemma new_price_loop_reads existing : forall lines out,
  match OrderShell.new_price_loop float_of float_repr existing lines
          out with
  | (Done p, c') =>
      exists refused line,
        lines = refused ++ line :: stdin c'
        /\ Forall (fun l =>
                     strip l <> EmptyString
                     /\ match float_of (strip l) with
                        | Some u => (u < 0)%Q
                        | None => True
                        end) refused
        /\ (strip line = EmptyString /\ p = existing
            \/ strip line <> EmptyString
               /\ float_of (strip line) = Some p /\ (0 <= p)%Q)
        /\ exists new,
             stdout c' = out ++ new /\ length new = (2 * length refused + 1)%nat
  | (Failed e, c') =>
      e = EOFError
      /\ stdin c' = []
      /\ exists new,
             stdout c' = out ++ new /\ length new = (2 * length lines + 1)%nat
  end.
Proof.
  intros lines; induction lines as [|line rest IH]; intros out; simpl.
  - split_all; [reflexivity | reflexivity | grow_output].
  - destruct (strip line) as [|ch raw] eqn:Es;
      [|destruct (float_of (String ch raw)) as [u|] eqn:E;
        [destruct (Admission.Qltb u 0) eqn:Hlt|]].
    + exists [], line; simpl.
      split_all; [reflexivity | constructor | left; now rewrite Es
                 | grow_output].
    + apply AdmissionFacts.Qltb_lt in Hlt. next_turn IH.
      * destruct IH as (refused & answer & Hl & Hr & Hv & Hout).
        exists (line :: refused), answer.
        split_all;
          [ simpl; now rewrite Hl
          | constructor; [rewrite Es, E; split; [discriminate | exact Hlt]
                         | exact Hr]
          | exact Hv | grow_output ].
      * destruct IH as (He & Hin & Hout).
        split_all; [exact He | exact Hin | grow_output].
    + exists [], line; simpl.
      split_all;
        [ reflexivity | constructor | | grow_output ].
      right; rewrite Es; split_all; [discriminate | exact E |].
      apply Qnot_lt_le. intros Hlt'.
      apply AdmissionFacts.Qltb_lt in Hlt'. congruence.
    + next_turn IH.
      * destruct IH as (refused & answer & Hl & Hr & Hv & Hout).
        exists (line :: refused), answer.
        split_all;
          [ simpl; now rewrite Hl
          | constructor; [rewrite Es, E; split; [discriminate | exact I]
                         | exact Hr]
          | exact Hv | grow_output ].
      * destruct IH as (He & Hin & Hout).
        split_all; [exact He | exact Hin | grow_output].
Qed.

End Numbers.

(** *** [confirm] *)

Lemma eqb_either s a b :
  String.eqb s a || String.eqb s b = true <-> s = a \/ s = b.
Proof. rewrite orb_true_iff, !String.eqb_eq. tauto. Qed.

Lemma eqb_neither s a b :
  String.eqb s a || String.eqb s b = false <-> s <> a /\ s <> b.
Proof. rewrite orb_false_iff, !String.eqb_neq. tauto. Qed.

Lemma confirm_loop_reads prompt : forall lines out,
  match OrderShell.confirm_loop prompt lines out with
  | (Done b, c') =>
      exists refused line,
        lines = refused ++ line :: stdin c'
        /\ Forall (fun l => ~ In (lower (strip l)) ["y"; "yes"; "n"; "no"])
                  refused
        /\ In (lower (strip line)) (if b then ["y"; "yes"] else ["n"; "no"])
        /\ stdout c'
           = out
             ++ flat_map
                  (fun _ =>
                     [Prompted (prompt +:+ " (y/n): ");
                      Printed "Please answer y or n."])
                  refused
             ++ [Prompted (prompt +:+ " (y/n): ")]
  | (Failed e, c') =>
      e = EOFError
      /\ Forall (fun l => ~ In (lower (strip l)) ["y"; "yes"; "n"; "no"])
                lines
      /\ stdin c' = []
      /\ exists new, stdout c' = out ++ new
  end.
Proof.
  intros lines; induction lines as [|line rest IH]; intros out; simpl.
  - split_all; [reflexivity | constructor | reflexivity | now eexists].
  - destruct (String.eqb (lower (strip line)) "y"
              || String.eqb (lower (strip line)) "yes") eqn:Ey;
      [|destruct (String.eqb (lower (strip line)) "n"
                  || String.eqb (lower (strip line)) "no") eqn:En].
    + apply eqb_either in Ey. exists [], line.
      split_all;
        [ reflexivity | constructor | simpl; intuition congruence
        | reflexivity ].
    + apply eqb_either in En. exists [], line.
      split_all;
        [ reflexivity | constructor | simpl; intuition congruence
        | reflexivity ].
    + apply eqb_neither in Ey, En.
      assert (Hno : ~ In (lower (strip line)) ["y"; "yes"; "n"; "no"])
        by (simpl; intuition congruence).
      next_turn IH.
      * destruct IH as (refused & answer & Hl & Hr & Hv & Hout).
        exists (line :: refused), answer.
        split_all;
          [ simpl; now rewrite Hl | now constructor | exact Hv
          | rewrite Hout; simpl; now rewrite <- !app_assoc ].
      * destruct IH as (He & Hr & Hin & new & Hout).
        split_all; [exact He | now constructor | exact Hin |].
        rewrite <- !app_assoc in Hout. eexists. exact Hout.
Qed.

End ReaderFacts.

(** ** X13: a text that must not be empty *)

(** X13: [input_nonempty], in either shell, asks until a line is not
    blank.  It returns that line trimmed, which is not empty, after one
    prompt and one message for each blank line before it; trimming the
    value again changes nothing, and the default written after
    [input_nonempty(...) or] in the flows is never used.  When every line
    left is blank it raises [EOFError] after a last prompt. *)
Theorem input_nonempty_returns_the_first_line_not_blank :
  (forall prompt c,
      match OrderShell.input_nonempty prompt c with
      | (Done val, c') =>
          exists blanks line,
            stdin c = blanks ++ line :: stdin c'
            /\ Forall (fun l => strip l = EmptyString) blanks
            /\ val = strip line
            /\ val <> EmptyString
            /\ strip val = val
            /\ (forall default, or_text val default = val)
            /\ stdout c'
               = stdout c
                 ++ flat_map
                      (fun _ =>
                         [Prompted prompt;
                          Printed "Input cannot be empty. Please try again."])
                      blanks
                 ++ [Prompted prompt]
      | (Failed e, c') =>
          e = EOFError
          /\ Forall (fun l => strip l = EmptyString) (stdin c)
          /\ stdin c' = []
      end)
  /\ (forall prompt c,
         match SensorShell.input_nonempty prompt c with
         | (Done val, c') =>
             exists blanks line,
               stdin c = blanks ++ line :: stdin c'
               /\ Forall (fun l => strip l = EmptyString) blanks
               /\ val = strip line
               /\ val <> EmptyString
               /\ strip val = val
               /\ (forall default, or_text val default = val)
               /\ stdout c'
                  = stdout c
                    ++ flat_map
                         (fun _ =>
                            [Prompted prompt;
                             Printed "⚠ Input cannot be empty."])
                         blanks
                    ++ [Prompted prompt]
         | (Failed e, c') =>
             e = EOFError
             /\ Forall (fun l => strip l = EmptyString) (stdin c)
             /\ stdin c' = []
         end).
Proof.
  split; intros prompt c.
  - unfold OrderShell.input_nonempty.
    pose proof (ReaderFacts.order_input_nonempty_loop prompt (stdin c)
                  (stdout c)) as H.
    destruct (OrderShell.input_nonempty_loop prompt (stdin c) (stdout c))
      as [[val|e] c'].
    + destruct H as (blanks & line & Hl & Hb & Hv & Hne & Hout).
      exists blanks, line.
      split_all; try assumption.
      * rewrite Hv. apply StripMore.strip_idempotent.
      * intros d. destruct val; [now destruct Hne | reflexivity].
    + destruct H as (He & Hb & Hin & _). now split_all.
  - unfold SensorShell.input_nonempty.
    pose proof (ReaderFacts.sensor_input_nonempty_loop prompt (stdin c)
                  (stdout c)) as H.
    destruct (SensorShell.input_nonempty_loop prompt (stdin c) (stdout c))
      as [[val|e] c'].
    + destruct H as (blanks & line & Hl & Hb & Hv & Hne & Hout).
      exists blanks, line.
      split_all; try assumption.
      * rewrite Hv. apply StripMore.strip_idempotent.
      * intros d. destruct val; [now destruct Hne | reflexivity].
    + destruct H as (He & Hb & Hin & _). now split_all.
Qed.

(** ** X14: the numbers and the date the order shell reads *)


(** ** X15: a yes or a no *)

(** X15: [confirm] of the order shell asks until the answer, trimmed and
    in lower case, is y, yes, n or no, with one message for each other
    answer; it returns [True] exactly for y and yes.  [confirm] of the
    sensor shell asks once: it returns [True] for y and yes and [False]
    for every other answer, n and no or not. *)
Theorem confirm_takes_yes_for_a_yes :
  (forall prompt c,
      match OrderShell.confirm prompt c with
      | (Done b, c') =>
          exists refused line,
            stdin c = refused ++ line :: stdin c'
            /\ Forall
                 (fun l => ~ In (lower (strip l)) ["y"; "yes"; "n"; "no"])
                 refused
            /\ In (lower (strip line))
                  (if b then ["y"; "yes"] else ["n"; "no"])
            /\ stdout c'
               = stdout c
                 ++ flat_map
                      (fun _ =>
                         [Prompted (prompt +:+ " (y/n): ");
                          Printed "Please answer y or n."])
                      refused
                 ++ [Prompted (prompt +:+ " (y/n): ")]
      | (Failed e, c') => e = EOFError /\ stdin c' = []
      end)
  /\ (forall prompt (s : shell SensorDB.fields),
         match SensorShell.confirm prompt s with
         | (Done b, s') =>
             exists line,
               stdin (term s) = line :: stdin (term s')
               /\ (b = true <-> In (lower (strip line)) ["y"; "yes"])
               /\ stdout (term s')
                  = stdout (term s) ++ [Prompted (prompt +:+ " (y/n): ")]
               /\ store s' = store s
         | (Failed e, s') => e = EOFError /\ stdin (term s) = []
         end).
Proof.
  split.
  - intros prompt c. unfold OrderShell.confirm.
    pose proof (ReaderFacts.confirm_loop_reads prompt (stdin c) (stdout c))
      as H.
    destruct (OrderShell.confirm_loop prompt (stdin c) (stdout c))
      as [[b|e] c'].
    + exact H.
    + now destruct H as (He & _ & Hin & _).
  - intros prompt s.
    unfold SensorShell.confirm, and_then, input, on_console, read, pure.
    destruct (stdin (term s)) as [|line rest]; simpl.
    + now split.
    + exists line. split_all; try reflexivity.
      rewrite ReaderFacts.eqb_either. simpl. intuition congruence.
Qed.

(** ** Rules for the flows *)

Module FlowFacts.

Import Flow.

Lemma extends_refl c : extends c c.
Proof. split; [now exists [] | exists []; now rewrite app_nil_r]. Qed.

Lemma extends_trans c1 c2 c3 : extends c1 c2 -> extends c2 c3 -> extends c1 c3.
Proof.
  intros [[u1 H1] [n1 G1]] [[u2 H2] [n2 G2]]. split.
  - exists (u1 ++ u2). now rewrite H1, H2, app_assoc.
  - exists (n1 ++ n2). now rewrite G2, G1, app_assoc.
Qed.

Lemma extends_length c c' :
  extends c c' -> (length (stdin c') <= length (stdin c))%nat.
Proof. intros [[u H] _]. rewrite H, length_app. lia. Qed.

Lemma reads_write text : reads (write text) (fun _ => True).
Proof.
  intros c. split; [|exact I]. split; simpl.
  - now exists [].
  - now exists [Printed text].
Qed.

Lemma reads_read prompt : reads (read prompt) (fun _ => True).
Proof.
  intros c. unfold read. destruct (stdin c) as [|line rest] eqn:E; simpl.
  - split; [|now split]. split; simpl.
    + exists []. now rewrite E.
    + now exists [Prompted prompt].
  - split; [|exact I]. split; simpl.
    + exists [line]. now rewrite E.
    + now exists [Prompted prompt].
Qed.

Section Rules.

Context {R : Type}.
Variable inv : world R -> Prop.
Variable ok : exc -> console -> Prop.
Hypothesis eof_ok : forall e c, at_eof e c -> ok e c.

Lemma follows_refl (s : shell R) : follows s s.
Proof. unfold follows. split_all; [apply extends_refl | lia | reflexivity]. Qed.

Lemma follows_trans (s1 s2 s3 : shell R) :
  follows s1 s2 -> follows s2 s3 -> follows s1 s3.
Proof.
  intros (H1 & T1 & C1) (H2 & T2 & C2). unfold follows. split_all.
  - now apply extends_trans with (term s2).
  - lia.
  - congruence.
Qed.

Lemma safe_pure {A} (a : A) (post : A -> Prop) :
  post a -> safe inv ok (pure a) post.
Proof.
  intros Hp s Hi. simpl.
  split_all; [apply follows_refl | exact Hi | exact Hp].
Qed.

Lemma safe_bind {A B} (m : IO R A) (k : A -> IO R B) (P : A -> Prop)
    (Q : B -> Prop) :
  safe inv ok m P -> (forall a, P a -> safe inv ok (k a) Q) ->
  safe inv ok (and_then m k) Q.
Proof.
  intros Hm Hk s Hi. unfold and_then.
  destruct (Hm s Hi) as (Hf & Hi' & Hr).
  destruct (m s) as [[a|e] s1]; simpl in *.
  - destruct (Hk a Hr s1 Hi') as (Hf2 & Hi2 & Hr2).
    split_all; [now apply follows_trans with s1 | exact Hi2 | exact Hr2].
  - now split_all.
Qed.

Lemma safe_on_console {A} (f : console -> result A * console)
    (post : A -> Prop) :
  reads f post -> safe inv ok (on_console f) post.
Proof.
  intros Hf s Hi. unfold on_console.
  destruct (Hf (term s)) as [He Hr].
  destruct (f (term s)) as [[a|e] c]; simpl in *.
  - unfold follows; simpl.
    split_all; [exact He | lia | reflexivity | exact Hi | exact Hr].
  - unfold follows; simpl.
    split_all; [exact He | lia | reflexivity | exact Hi | now apply eof_ok].
Qed.

Lemma safe_print text : safe inv ok (print text) (fun _ => True).
Proof. apply safe_on_console, reads_write. Qed.

Lemma safe_input prompt : safe inv ok (input prompt) (fun _ => True).
Proof. apply safe_on_console, reads_read. Qed.

Lemma safe_clock : safe inv ok clock (fun _ => True).
Proof.
  intros s Hi. unfold follows; simpl.
  split_all; [apply extends_refl | lia | reflexivity | exact Hi | exact I].
Qed.

(** A method of the store that keeps the invariant and raises no
    exception. *)
Lemma safe_call {A} (m : M (world R) A) (post : A -> Prop) :
  (forall w, inv w ->
     exists a w', m w = (Returned a, w') /\ inv w' /\ post a) ->
  safe inv ok (call m) post.
Proof.
  intros Hm s Hi. unfold call.
  destruct (Hm (store s) Hi) as (a & w' & -> & Hi' & Hp).
  unfold follows; simpl.
  split_all; [apply extends_refl | lia | reflexivity | exact Hi' | exact Hp].
Qed.

(** A step that looks at the state and changes nothing. *)
Lemma safe_look {A} (f : shell R -> A) (post : A -> Prop) :
  (forall s, inv (store s) -> post (f s)) ->
  safe inv ok (fun s => (Done (f s), s)) post.
Proof.
  intros Hf s Hi. simpl.
  split_all; [apply follows_refl | exact Hi | now apply Hf].
Qed.

(** *** The turns of a menu *)

Variable goodbye : string.

Lemma ends_well_from (s s1 : shell R) o :
  follows s s1 -> ends_well inv ok goodbye s1 o ->
  ends_well inv ok goodbye s o.
Proof.
  intros Hf (r & s' & Ho & Hf' & Hi & Hr). exists r, s'.
  split_all; [exact Ho | now apply follows_trans with s1 | exact Hi | exact Hr].
Qed.

(** A flow, and then the turns that are left. *)
Lemma ends_after (next : shell R -> option (result unit * shell R))
    (flow : IO R unit) (s1 : shell R) :
  inv (store s1) ->
  safe inv ok flow (fun _ => True) ->
  (forall s2, follows s1 s2 -> inv (store s2) ->
     ends_well inv ok goodbye s2 (next s2)) ->
  ends_well inv ok goodbye s1
    (match flow s1 with
     | (Failed e, s2) => Some (Failed e, s2)
     | (Done _, s2) => next s2
     end).
Proof.
  intros Hi Hflow Hnext. destruct (Hflow s1 Hi) as (Hf & Hi2 & Hr).
  destruct (flow s1) as [[[]|e] s2]; simpl in *.
  - apply ends_well_from with s2; [exact Hf | now apply Hnext].
  - exists (Failed e), s2. now split_all.
Qed.

(** The exit. *)
Lemma ends_with_goodbye (s1 : shell R) :
  inv (store s1) ->
  ends_well inv ok goodbye s1 (Some (print goodbye s1)).
Proof.
  intros Hi. eexists _, _. split; [reflexivity|].
  unfold follows, extends; simpl.
  split_all; [now exists [] | now eexists | lia | reflexivity | exact Hi
             | now eexists].
Qed.

End Rules.

(** *** The readers *)

Lemma extends_intro c c' used new :
  stdin c = used ++ stdin c' -> stdout c' = stdout c ++ new -> extends c c'.
Proof. intros H1 H2. split; eauto. Qed.

Lemma extends_at_eof c c' new :
  stdin c' = [] -> stdout c' = stdout c ++ new -> extends c c'.
Proof.
  intros H1 H2. split; [|eauto]. exists (stdin c). now rewrite H1, app_nil_r.
Qed.

Lemma snoc_cons {A} (l : list A) (x : A) (l' : list A) :
  l ++ x :: l' = (l ++ [x]) ++ l'.
Proof. now rewrite <- app_assoc. Qed.

Lemma reads_input_int int_of prompt min_value :
  reads (OrderShell.input_int int_of prompt min_value)
        (fun v => forall m, min_value = Some m -> m <= v).
Proof.
  intros c. unfold OrderShell.input_int.
  pose proof (ReaderFacts.input_int_loop_reads int_of prompt min_value
                (stdin c) (stdout c)) as H.
  destruct (OrderShell.input_int_loop int_of prompt min_value (stdin c)
              (stdout c)) as [[v|e] c']; simpl.
  - destruct H as (refused & line & Hl & _ & _ & Hmin & new & Hout & _).
    rewrite snoc_cons in Hl.
    split; [eapply extends_intro; eassumption | exact Hmin].
  - destruct H as (He & _ & Hin & new & Hout & _).
    split; [eapply extends_at_eof; eassumption | now split].
Qed.

Lemma reads_order_input_float float_of float_repr prompt min_value :
  reads (OrderShell.input_float float_of float_repr prompt min_value)
        (fun v => forall m, min_value = Some m -> (m <= v)%Q).
Proof.
  intros c. unfold OrderShell.input_float.
  pose proof (ReaderFacts.order_input_float_loop_reads float_of float_repr
                prompt min_value (stdin c) (stdout c)) as H.
  destruct (OrderShell.input_float_loop float_of float_repr prompt min_value
              (stdin c) (stdout c)) as [[v|e] c']; simpl.
  - destruct H as (refused & line & Hl & _ & _ & Hmin & new & Hout & _).
    rewrite snoc_cons in Hl.
    split; [eapply extends_intro; eassumption | exact Hmin].
  - destruct H as (He & _ & Hin & new & Hout & _).
    split; [eapply extends_at_eof; eassumption | now split].
Qed.

Lemma reads_sensor_input_float float_of prompt :
  reads (SensorShell.input_float float_of prompt) (fun _ => True).
Proof.
  intros c. unfold SensorShell.input_float.
  pose proof (ReaderFacts.sensor_input_float_loop_reads float_of prompt
                (stdin c) (stdout c)) as H.
  destruct (SensorShell.input_float_loop float_of prompt (stdin c)
              (stdout c)) as [[v|e] c']; simpl.
  - destruct H as (refused & line & Hl & _ & _ & new & Hout & _).
    rewrite snoc_cons in Hl.
    split; [eapply extends_intro; eassumption | exact I].
  - destruct H as (He & _ & Hin & new & Hout & _).
    split; [eapply extends_at_eof; eassumption | now split].
Qed.

Lemma reads_input_date fromisoformat prompt default_iso :
  reads (OrderShell.input_date fromisoformat prompt default_iso)
        (fun _ => True).
Proof.
  intros c. unfold OrderShell.input_date.
  pose proof (ReaderFacts.input_date_loop_reads fromisoformat prompt
                default_iso (stdin c) (stdout c)) as H.
  destruct (OrderShell.input_date_loop fromisoformat prompt default_iso
              (stdin c) (stdout c)) as [[v|e] c']; simpl.
  - destruct H as (refused & line & Hl & _ & _ & new & Hout & _).
    rewrite snoc_cons in Hl.
    split; [eapply extends_intro; eassumption | exact I].
  - destruct H as (He & _ & Hin & new & Hout & _).
    split; [eapply extends_at_eof; eassumption | now split].
Qed.

Lemma reads_new_quantity int_of existing :
  reads (fun c =>
           OrderShell.new_quantity_loop int_of existing (stdin c) (stdout c))
        (fun q => q = existing \/ 0 < q).
Proof.
  intros c.
  pose proof (ReaderFacts.new_quantity_loop_reads int_of existing (stdin c)
                (stdout c)) as H.
  destruct (OrderShell.new_quantity_loop int_of existing (stdin c)
              (stdout c)) as [[v|e] c']; simpl.
  - destruct H as (refused & line & Hl & _ & Hv & new & Hout & _).
    rewrite snoc_cons in Hl.
    split; [eapply extends_intro; eassumption | tauto].
  - destruct H as (He & Hin & new & Hout & _).
    split; [eapply extends_at_eof; eassumption | now split].
Qed.

Lemma reads_new_price float_of float_repr existing :
  reads (fun c =>
           OrderShell.new_price_loop float_of float_repr existing (stdin c)
             (stdout c))
        (fun p => p = existing \/ (0 <= p)%Q).
Proof.
  intros c.
  pose proof (ReaderFacts.new_price_loop_reads float_of float_repr existing
                (stdin c) (stdout c)) as H.
  destruct (OrderShell.new_price_loop float_of float_repr existing (stdin c)
              (stdout c)) as [[v|e] c']; simpl.
  - destruct H as (refused & line & Hl & _ & Hv & new & Hout & _).
    rewrite snoc_cons in Hl.
    split; [eapply extends_intro; eassumption | tauto].
  - destruct H as (He & Hin & new & Hout & _).
    split; [eapply extends_at_eof; eassumption | now split].
Qed.

Lemma reads_confirm prompt : reads (OrderShell.confirm prompt) (fun _ => True).
Proof.
  intros c. unfold OrderShell.confirm.
  pose proof (ReaderFacts.confirm_loop_reads prompt (stdin c) (stdout c))
    as H.
  destruct (OrderShell.confirm_loop prompt (stdin c) (stdout c))
    as [[v|e] c']; simpl.
  - destruct H as (refused & line & Hl & _ & _ & Hout).
    rewrite snoc_cons in Hl.
    split; [eapply extends_intro; eassumption | exact I].
  - destruct H as (He & _ & Hin & new & Hout).
    split; [eapply extends_at_eof; eassumption | now split].
Qed.

Lemma reads_order_input_nonempty prompt :
  reads (OrderShell.input_nonempty prompt)
        (fun val => val <> EmptyString /\ strip val = val).
Proof.
  intros c. unfold OrderShell.input_nonempty.
  pose proof (ReaderFacts.order_input_nonempty_loop prompt (stdin c)
                (stdout c)) as H.
  destruct (OrderShell.input_nonempty_loop prompt (stdin c) (stdout c))
    as [[val|e] c']; simpl.
  - destruct H as (blanks & line & Hl & _ & Hv & Hne & Hout).
    unfold extends. split_all.
    + exists (blanks ++ [line]). now rewrite <- app_assoc.
    + eexists. exact Hout.
    + exact Hne.
    + rewrite Hv. apply StripMore.strip_idempotent.
  - destruct H as (He & _ & Hin & Hout). unfold extends, at_eof. split_all.
    + exists (stdin c). now rewrite Hin, app_nil_r.
    + eexists. exact Hout.
    + exact He.
    + exact Hin.
Qed.

Lemma reads_sensor_input_nonempty prompt :
  reads (SensorShell.input_nonempty prompt)
        (fun val => val <> EmptyString /\ strip val = val).
Proof.
  intros c. unfold SensorShell.input_nonempty.
  pose proof (ReaderFacts.sensor_input_nonempty_loop prompt (stdin c)
                (stdout c)) as H.
  destruct (SensorShell.input_nonempty_loop prompt (stdin c) (stdout c))
    as [[val|e] c']; simpl.
  - destruct H as (blanks & line & Hl & _ & Hv & Hne & Hout).
    unfold extends. split_all.
    + exists (blanks ++ [line]). now rewrite <- app_assoc.
    + eexists. exact Hout.
    + exact Hne.
    + rewrite Hv. apply StripMore.strip_idempotent.
  - destruct H as (He & _ & Hin & Hout). unfold extends, at_eof. split_all.
    + exists (stdin c). now rewrite Hin, app_nil_r.
    + eexists. exact Hout.
    + exact He.
    + exact Hin.
Qed.

(** *** One step of a flow, run *)

Lemma on_console_run {R A} (f : console -> result A * console)
    (P : A -> Prop) (s : shell R) r s' :
  reads f P ->
  on_console f s = (r, s') ->
  store s' = store s /\ ticks s' = ticks s /\ closed s' = closed s
  /\ extends (term s) (term s')
  /\ match r with
     | Done a => P a
     | Failed e => at_eof e (term s')
     end.
Proof.
  intros Hf. unfold on_console. destruct (Hf (term s)) as [He Hr].
  destruct (f (term s)) as [r0 c]. intros [= <- <-]. simpl in *.
  now split_all.
Qed.

Lemma extends_stdin c c' rest used :
  extends c c' -> stdin c' = used ++ rest ->
  exists used', stdin c = used' ++ rest.
Proof.
  intros [[u H] _] H'. exists (u ++ used). now rewrite H, H', app_assoc.
Qed.

(** [confirm] of the order shell, run: the last line it reads is the
    answer. *)
Lemma confirm_run {R} prompt (s : shell R) r s' :
  on_console (OrderShell.confirm prompt) s = (r, s') ->
  store s' = store s /\ ticks s' = ticks s /\ closed s' = closed s
  /\ match r with
     | Done b =>
         exists refused answer,
           stdin (term s) = refused ++ answer :: stdin (term s')
           /\ In (lower (strip answer))
                 (if b then ["y"; "yes"] else ["n"; "no"])
     | Failed e => e = EOFError
     end.
Proof.
  unfold on_console, OrderShell.confirm.
  pose proof (ReaderFacts.confirm_loop_reads prompt (stdin (term s))
                (stdout (term s))) as H.
  destruct (OrderShell.confirm_loop prompt (stdin (term s))
              (stdout (term s))) as [[b|e] c].
  - intros [= <- <-]. simpl.
    destruct H as (refused & answer & Hl & _ & Hin & _).
    split_all; try reflexivity. now exists refused, answer.
  - intros [= <- <-]. simpl. destruct H as (He & _).
    now split_all.
Qed.

Lemma print_eq {R} text (s : shell R) :
  print text s
  = (Done tt,
     {| term := {| stdin := stdin (term s);
                   stdout := stdout (term s) ++ [Printed text] |};
        store := store s; ticks := ticks s; closed := closed s |}).
Proof. reflexivity. Qed.

Lemma clock_eq {R} (s : shell R) :
  clock s
  = (Done (ticks s),
     {| term := term s; store := store s; ticks := S (ticks s);
        closed := closed s |}).
Proof. reflexivity. Qed.

Lemma input_eq {R} prompt (s : shell R) :
  input prompt s
  = match stdin (term s) with
    | [] =>
        (Failed EOFError,
         {| term := {| stdin := [];
                       stdout := stdout (term s) ++ [Prompted prompt] |};
            store := store s; ticks := ticks s; closed := closed s |})
    | line :: rest =>
        (Done line,
         {| term := {| stdin := rest;
                       stdout := stdout (term s) ++ [Prompted prompt] |};
            store := store s; ticks := ticks s; closed := closed s |})
    end.
Proof.
  unfold input, on_console, read. now destruct (stdin (term s)).
Qed.

End FlowFacts.

(** The step at the head of a flow that has been unfolded: a [print], a
    reading of the clock, or a reader of the console with what is known of
    it. *)
Ltac tidy := cbv beta iota; cbn [term store ticks closed stdin stdout].

Ltac head_print :=
  match goal with
  | |- context [print ?text ?s] => rewrite (FlowFacts.print_eq text s); tidy
  end.

Ltac head_clock :=
  match goal with
  | |- context [@clock ?R ?s] => rewrite (@FlowFacts.clock_eq R s); tidy
  end.

Ltac head_reader known :=
  match goal with
  | |- context [on_console ?f ?s] =>
      let r := fresh "r" in
      let s' := fresh "s" in
      let E := fresh "E" in
      destruct (on_console f s) as [r s'] eqn:E;
      apply (FlowFacts.on_console_run f _ s r s' known) in E;
      simpl in E;
      let Hst := fresh "Hst" in
      let Htk := fresh "Htk" in
      let Hcl := fresh "Hcl" in
      let Hex := fresh "Hex" in
      let Hv := fresh "Hv" in
      destruct E as (Hst & Htk & Hcl & Hex & Hv);
      destruct r as [?|?]; tidy
  end.

(** ** The order shell *)

Module OrderShellFacts.

Import Flow FlowFacts.

(** The rows of the order table keep satisfying its constraints. *)
Lemma checked_after_add today n p q pr d st (w : OrderDB.world) :
  0 < q -> (0 <= pr)%Q ->
  all_checked OrderDB.check w ->
  exists i w',
    OrderDB.add_order today n p q pr d st w = (Returned i, w')
    /\ all_checked OrderDB.check w' /\ True.
Proof.
  intros Hq Hp Hi. eexists _, _. split_all.
  - now apply OrderFacts.add_order_returns.
  - unfold all_checked; simpl. apply List.Forall_app. split; [exact Hi|].
    constructor; [|constructor]. simpl.
    now apply OrderFacts.check_true_iff.
  - exact I.
Qed.

Lemma checked_after_update i n p q pr d st (w : OrderDB.world) :
  0 < q -> (0 <= pr)%Q ->
  all_checked OrderDB.check w ->
  exists b w',
    OrderDB.update_order i n p q pr d st w = (Returned b, w')
    /\ all_checked OrderDB.check w'
    /\ (b = true <-> is_Some (OrderDB.get_order i w)).
Proof.
  intros Hq Hp Hi. destruct (OrderDB.get_order i w) as [r|] eqn:E.
  - eexists _, _. split_all.
    + now apply (OrderFacts.update_order_found _ _ _ _ _ _ _ _ r).
    + unfold all_checked; simpl. apply List.Forall_forall.
      intros x Hx. apply in_map_iff in Hx. destruct Hx as (y & <- & Hy).
      unfold rewrite_row. destruct (matches i y).
      * simpl. now apply OrderFacts.check_true_iff.
      * unfold all_checked in Hi. rewrite List.Forall_forall in Hi.
        now apply Hi.
    + split; [intros _; now exists r | reflexivity].
  - eexists _, _. split_all.
    + now apply OrderFacts.update_order_missing.
    + exact Hi.
    + split; [discriminate | intros [? [=]]].
Qed.

Lemma checked_after_delete i (w : OrderDB.world) :
  all_checked OrderDB.check w ->
  exists b w',
    OrderDB.delete_order i w = (Returned b, w')
    /\ all_checked OrderDB.check w'
    /\ (b = true <-> is_Some (OrderDB.get_order i w)).
Proof.
  intros Hi. eexists _, _. split_all.
  - apply OrderFacts.delete_order_returns.
  - unfold all_checked in *; simpl. rewrite List.Forall_forall in *.
    intros x Hx. apply filter_In in Hx. now apply Hi.
  - destruct (OrderDB.get_order i w); split;
      [now eexists | reflexivity | discriminate | intros [? [=]]].
Qed.

Lemma checked_row i (w : OrderDB.world) r :
  all_checked OrderDB.check w ->
  OrderDB.get_order i w = Some r ->
  0 < OrderDB.quantity (snd r) /\ (0 <= OrderDB.unit_price (snd r))%Q.
Proof.
  intros Hi Hr. apply OrderFacts.check_true_iff.
  unfold all_checked in Hi. rewrite List.Forall_forall in Hi.
  apply Hi. unfold OrderDB.get_order, select_one in Hr.
  now apply find_some in Hr.
Qed.

Section Program.

Variable int_of : string -> option Z.
Variable float_of : string -> option Q.
Variable fromisoformat : string -> option string.
Variable float_repr : Q -> string.
Variable today_text : nat -> string.
Variable default_path : string.
Variable str_of_exn : exn -> string.

(** A flow of the order shell keeps the constraints of the table and
    fails only when the input has run out. *)
Local Notation "'fine'" := (safe (all_checked OrderDB.check) at_eof).

Ltac step :=
  first
    [ apply safe_print; now auto
    | apply safe_input; now auto
    | apply safe_clock
    | apply safe_on_console; [now auto|] ].

Lemma fine_print_order_row row :
  fine (OrderShell.print_order_row float_repr row) (fun _ => True).
Proof.
  unfold OrderShell.print_order_row.
  repeat (eapply safe_bind; [step | intros _ _]). step.
Qed.

Lemma fine_print_rows rows :
  fine (OrderShell.print_rows float_repr rows) (fun _ => True).
Proof.
  induction rows as [|r rows IH]; simpl.
  - now apply safe_pure.
  - eapply safe_bind; [apply fine_print_order_row | intros _ _; exact IH].
Qed.

Lemma fine_get_row i :
  fine (OrderShell.get_row i)
       (fun found =>
          forall r, found = Some r ->
            0 < OrderDB.quantity (snd r)
            /\ (0 <= OrderDB.unit_price (snd r))%Q).
Proof.
  unfold OrderShell.get_row.
  apply (safe_look _ _ (fun s => OrderDB.get_order i (store s))).
  intros s Hi r Hr. now apply (checked_row i (store s)).
Qed.

Lemma fine_list_orders :
  fine (OrderShell.list_orders float_repr) (fun _ => True).
Proof.
  unfold OrderShell.list_orders. eapply safe_bind.
  - apply (safe_look _ _ (fun s => OrderDB.get_all_orders (store s))
             (fun _ => True)). now intros.
  - intros [|r rows] _; [step|].
    eapply safe_bind; [step | intros _ _; apply fine_print_rows].
Qed.

Lemma fine_view_orders_flow :
  fine (OrderShell.view_orders_flow float_repr) (fun _ => True).
Proof.
  unfold OrderShell.view_orders_flow.
  eapply safe_bind; [step | intros _ _; apply fine_list_orders].
Qed.

Lemma fine_add_order_flow :
  fine (OrderShell.add_order_flow int_of float_of fromisoformat float_repr
          today_text)
       (fun _ => True).
Proof.
  unfold OrderShell.add_order_flow.
  eapply safe_bind; [step | intros _ _].
  eapply safe_bind; [step; apply reads_order_input_nonempty | intros n _].
  eapply safe_bind; [step; apply reads_order_input_nonempty | intros p _].
  eapply safe_bind; [step; apply reads_input_int | intros q Hq].
  eapply safe_bind; [step; apply reads_order_input_float | intros pr Hpr].
  eapply safe_bind; [step | intros tick _].
  eapply safe_bind; [step; apply reads_input_date | intros d _].
  eapply safe_bind; [step; apply reads_order_input_nonempty | intros st _].
  eapply safe_bind; [|intros i _; step].
  apply safe_call. intros w Hi.
  apply checked_after_add; [|now apply Hpr|exact Hi].
  specialize (Hq 1 eq_refl). lia.
Qed.

Lemma fine_maybe prompt current_val :
  fine (OrderShell.maybe prompt current_val) (fun _ => True).
Proof.
  unfold OrderShell.maybe.
  eapply safe_bind; [step | intros line _]. now apply safe_pure.
Qed.

Lemma fine_update_order_flow :
  fine (OrderShell.update_order_flow int_of float_of fromisoformat
          float_repr)
       (fun _ => True).
Proof.
  unfold OrderShell.update_order_flow.
  eapply safe_bind; [step | intros _ _].
  eapply safe_bind; [step; apply reads_input_int | intros i _].
  eapply safe_bind; [apply fine_get_row | intros [existing|] Hex]; [|step].
  destruct (Hex existing eq_refl) as [Hq Hp].
  eapply safe_bind; [step | intros _ _].
  eapply safe_bind; [apply fine_print_order_row | intros _ _].
  eapply safe_bind; [step | intros _ _].
  eapply safe_bind; [apply fine_maybe | intros n _].
  eapply safe_bind; [apply fine_maybe | intros p _].
  eapply safe_bind; [step; apply reads_new_quantity | intros q Hq'].
  eapply safe_bind; [step; apply reads_new_price | intros pr Hpr].
  eapply safe_bind; [step | intros _ _].
  eapply safe_bind; [step; apply reads_input_date | intros d _].
  eapply safe_bind; [step | intros line _].
  eapply safe_bind; [|intros [|] _; step].
  apply safe_call. intros w Hi.
  destruct (checked_after_update i n p q pr d
              (or_text (strip line) (OrderDB.status (snd existing))) w)
    as (b & w' & Hu & Hi' & _).
  - destruct Hq' as [->|Hq']; [exact Hq | exact Hq'].
  - destruct Hpr as [->|Hpr]; [exact Hp | exact Hpr].
  - exact Hi.
  - exists b, w'. split_all; [exact Hu | exact Hi' | exact I].
Qed.

Lemma fine_delete_order_flow :
  fine (OrderShell.delete_order_flow int_of float_repr) (fun _ => True).
Proof.
  unfold OrderShell.delete_order_flow.
  eapply safe_bind; [step | intros _ _].
  eapply safe_bind; [step; apply reads_input_int | intros i _].
  eapply safe_bind; [apply fine_get_row | intros [existing|] _]; [|step].
  eapply safe_bind; [step | intros _ _].
  eapply safe_bind; [apply fine_print_order_row | intros _ _].
  eapply safe_bind; [step; apply reads_confirm | intros [|] _]; [|step].
  eapply safe_bind; [|intros [|] _; step].
  apply safe_call. intros w Hi.
  destruct (checked_after_delete i w Hi) as (b & w' & Hd & Hi' & _).
  exists b, w'. split_all; [exact Hd | exact Hi' | exact I].
Qed.

Lemma fine_export_flow :
  fine (OrderShell.export_flow float_repr default_path str_of_exn)
       (fun _ => True).
Proof.
  unfold OrderShell.export_flow.
  eapply safe_bind; [step | intros _ _].
  eapply safe_bind; [step | intros line _].
  intros s Hi.
  destruct (OrderDB.get_all_orders (store s)) as [|r rows] eqn:E.
  - rewrite OrderMore.order_export_empty by exact E.
    unfold follows, extends; simpl.
    split_all; [now exists [] | now eexists | lia | reflexivity | exact Hi
               | exact I].
  - rewrite OrderMore.order_export_nonempty by (rewrite E; discriminate).
    unfold follows, extends; simpl.
    split_all; [now exists [] | now eexists | lia | reflexivity | exact Hi
               | exact I].
Qed.

(** *** The menu *)

Lemma order_ask_choice (s : shell OrderDB.fields) :
  and_then (print OrderShell.menu_text)
    (fun _ => input "Choose an option (1-6): ") s
  = match stdin (term s) with
    | [] =>
        (Failed EOFError,
         {| term :=
              {| stdin := [];
                 stdout := stdout (term s)
                           ++ [Printed OrderShell.menu_text;
                               Prompted "Choose an option (1-6): "] |};
            store := store s; ticks := ticks s; closed := closed s |})
    | line :: rest =>
        (Done line,
         {| term :=
              {| stdin := rest;
                 stdout := stdout (term s)
                           ++ [Printed OrderShell.menu_text;
                               Prompted "Choose an option (1-6): "] |};
            store := store s; ticks := ticks s; closed := closed s |})
    end.
Proof.
  unfold and_then, print, input, on_console, write, read; simpl.
  destruct (stdin (term s)); now rewrite <- app_assoc.
Qed.

Local Notation "'turns'" :=
  (OrderShell.menu_turns int_of float_of fromisoformat float_repr today_text
     default_path str_of_exn).

(** With a turn more than there are lines to read, the loop ends. *)
Lemma order_menu_turns_end fuel : forall s,
  all_checked OrderDB.check (store s) ->
  (length (stdin (term s)) < fuel)%nat ->
  ends_well (all_checked OrderDB.check) at_eof "Goodbye 👋" s (turns fuel s).
Proof.
  induction fuel as [|fuel IH]; intros s Hi Hlen; [lia|].
  cbn [OrderShell.menu_turns]. rewrite order_ask_choice.
  destruct (stdin (term s)) as [|line rest] eqn:E.
  - eexists _, _. split; [reflexivity|].
    unfold follows, extends, at_eof; simpl.
    split_all; [exists []; now rewrite E | now eexists | lia | reflexivity
               | exact Hi | reflexivity | reflexivity].
  - simpl in Hlen.
    match goal with
    | |- ends_well _ _ _ _ (if _ then match _ ?s1 with _ => _ end else _) =>
        set (s1' := s1);
        assert (Hs1 : follows s s1')
          by (unfold follows, extends; simpl;
              split_all; [exists [line]; now rewrite E | now eexists | lia
                         | reflexivity]);
        assert (Hnext : forall s2, follows s1' s2 ->
                  all_checked OrderDB.check (store s2) ->
                  ends_well (all_checked OrderDB.check) at_eof "Goodbye 👋"
                    s2 (turns fuel s2))
          by (intros s2 [He _] Hi2; apply IH; [exact Hi2|];
              apply extends_length in He; simpl in He; lia)
    end.
    apply ends_well_from with s1'; [exact Hs1|].
    assert (Hi1 : all_checked OrderDB.check (store s1')) by exact Hi.
    clearbody s1'.
    repeat match goal with
           | |- ends_well _ _ _ _ (if ?b then _ else _) => destruct b
           end.
    + apply ends_after; [exact Hi1 | apply fine_add_order_flow | exact Hnext].
    + apply ends_after;
        [exact Hi1 | apply fine_view_orders_flow | exact Hnext].
    + apply ends_after;
        [exact Hi1 | apply fine_update_order_flow | exact Hnext].
    + apply ends_after;
        [exact Hi1 | apply fine_delete_order_flow | exact Hnext].
    + apply ends_after; [exact Hi1 | apply fine_export_flow | exact Hnext].
    + now apply ends_with_goodbye.
    + apply ends_after; [exact Hi1 | now apply safe_print | exact Hnext].
Qed.

(** A turn more changes nothing once the loop has ended. *)
Lemma order_menu_turns_more fuel : forall s o,
  turns fuel s = Some o -> turns (S fuel) s = Some o.
Proof.
  induction fuel as [|fuel IH]; intros s o; [discriminate|].
  intros H. cbn [OrderShell.menu_turns] in *.
  destruct (and_then (print OrderShell.menu_text)
              (fun _ => input "Choose an option (1-6): ") s)
    as [[line|e] s1]; [|exact H].
  repeat match goal with
         | H : (if ?b then _ else _) = _ |- _ => destruct b
         end;
    try exact H;
    match goal with
    | H : match ?flow s1 with _ => _ end = _ |- _ =>
        destruct (flow s1) as [[[]|e] s2]; [now apply IH | exact H]
    end.
Qed.

Lemma order_menu_turns_plus k fuel s o :
  turns fuel s = Some o -> turns (k + fuel) s = Some o.
Proof.
  intros H. induction k as [|k IH]; [exact H|].
  now apply order_menu_turns_more.
Qed.

End Program.

End OrderShellFacts.

(** ** X16: the order shell validates what it passes to the store *)



(** ** X17: the order menu ends, and closes the connection *)



(** The session of the example above: the only order is deleted, the
    export of the empty table is refused, and the menu is left; the line
    after the 6 is not read. *)
Example order_session_run :
  match OrderShell.menu_loop SampleReaders.int_of SampleReaders.float_of
          SampleReaders.fromisoformat Samples.fraction_text
          Sessions.today_text "/home/orders_export.csv" Sessions.str_of_exn
          (Some (conn Samples.one_order)) ∅
          {| stdin := ["4"; "1"; "yes"; "5"; ""; "6"; "2"]; stdout := [] |}
  with
  | Some (r, s') =>
      r = Done tt
      /\ stdin (term s') = ["2"]
      /\ OrderDB.get_all_orders (store s') = []
      /\ files (store s') = ∅
      /\ closed s' = true
      /\ List.filter
           (fun o =>
              match o with
              | Printed text => (String.length text <? 40)%nat
              | Prompted _ => false
              end)
           (stdout (term s'))
         = [Printed (nl +:+ "-- Delete Order --");
            Printed "Order to be deleted:"; Printed "ID: 1";
            Printed "  Customer : Ada"; Printed "  Product  : Valve";
            Printed "  Quantity : 3"; Printed "  UnitPrice: 21/2";
            Printed "  Date     : 2024-03-01"; Printed "  Status   : pending";
            Printed "✅ Order deleted.";
            Printed (nl +:+ "-- Export Orders to CSV --");
            Printed "⚠️ No orders to export."; Printed "Goodbye 👋"]
  | None => False
  end.
Proof. vm_compute. repeat split. Qed.

(** ** X18: what the add flows store *)


(** ** X19: what the delete flows delete *)


(** ** X20: what the update flow of the order shell changes *)

Ltac head_input :=
  match goal with
  | |- context [@input ?R ?p ?s] =>
      change (@input R p s) with (@on_console R string (read p) s);
      head_reader (FlowFacts.reads_read p)
  end.

(** The flow has failed at the end of the input, the store untouched. *)
Ltac failed_at_eof :=
  split;
  [ match goal with
    | H : Flow.at_eof ?e _ |- ?e = EOFError => apply H
    end
  | congruence ].



(** ** X21: leaving every field of an order blank *)

(** X21: in [update_order_flow], when the id read names an order and the
    six lines that follow are blank, the flow reads exactly those lines
    and calls [update_order] with the values of the order itself: the
    quantity and the price are unchanged, the texts are those of the order,
    trimmed, and the update is reported as a success.  (The order
    satisfies the constraints of the table, and its date is not empty: a
    blank line can not keep an empty date.) *)
Theorem blank_lines_keep_the_order :
  forall (int_of : string -> option Z) (float_of : string -> option Q)
         (fromisoformat : string -> option string)
         (float_repr : Q -> string) (s : shell OrderDB.fields)
         (idline : string) (blanks rest : list string) (i : Z)
         (old : OrderDB.row),
    stdin (term s) = idline :: blanks ++ rest ->
    length blanks = 6%nat ->
    Forall (fun l => strip l = EmptyString) blanks ->
    int_of (strip idline) = Some i ->
    1 <= i ->
    OrderDB.get_order i (store s) = Some old ->
    OrderDB.check (snd old) = true ->
    OrderDB.order_date (snd old) <> EmptyString ->
    exists s' out,
      OrderShell.update_order_flow int_of float_of fromisoformat float_repr s
      = (Done tt, s')
      /\ stdin (term s') = rest
      /\ stdout (term s') = out ++ [Printed "✅ Order updated successfully."]
      /\ store s'
         = snd (OrderDB.update_order i (OrderDB.customer_name (snd old))
                  (OrderDB.product (snd old)) (OrderDB.quantity (snd old))
                  (OrderDB.unit_price (snd old))
                  (OrderDB.order_date (snd old)) (OrderDB.status (snd old))
                  (store s))
      /\ OrderDB.get_order i (store s')
         = Some (i,
                 {| OrderDB.customer_name :=
                      strip (OrderDB.customer_name (snd old));
                    OrderDB.product := strip (OrderDB.product (snd old));
                    OrderDB.quantity := OrderDB.quantity (snd old);
                    OrderDB.unit_price := OrderDB.unit_price (snd old);
                    OrderDB.order_date :=
                      strip (OrderDB.order_date (snd old));
                    OrderDB.status := strip (OrderDB.status (snd old)) |}).
Proof.
  intros int_of float_of fromisoformat float_repr s idline blanks rest i old
         Hin Hlen Hblank Hint Hi Hold Hcheck Hdate.
  destruct blanks as [|b1 [|b2 [|b3 [|b4 [|b5 [|b6 [|]]]]]]];
    try discriminate Hlen.
  cbn [app] in Hin.
  repeat match goal with
         | H : Forall _ (_ :: _) |- _ =>
             let H1 := fresh "Hb" in
             apply Forall_cons_1 in H; destruct H as [H1 H]
         end.
  apply OrderFacts.check_true_iff in Hcheck. destruct Hcheck as [Hq Hp].
  assert (Hupd := OrderFacts.update_order_found i
                    (OrderDB.customer_name (snd old))
                    (OrderDB.product (snd old)) (OrderDB.quantity (snd old))
                    (OrderDB.unit_price (snd old))
                    (OrderDB.order_date (snd old))
                    (OrderDB.status (snd old)) (store s) old Hold Hq Hp).
  unfold OrderShell.update_order_flow, OrderShell.print_order_row,
    OrderShell.get_row, OrderShell.maybe, and_then.
  head_print.
  unfold on_console at 1, OrderShell.input_int. tidy. rewrite Hin.
  cbn [OrderShell.input_int_loop]. rewrite Hint.
  destruct (i <? 1) eqn:Hlt; [lia|]. tidy.
  rewrite Hold. tidy.
  repeat head_print.
  rewrite FlowFacts.input_eq. tidy. unfold pure at 1. tidy.
  rewrite FlowFacts.input_eq. tidy. unfold pure at 1. tidy.
  rewrite Hb, Hb0. cbn [or_text].
  unfold on_console at 1. tidy.
  cbn [OrderShell.new_quantity_loop]. rewrite Hb1. tidy.
  unfold on_console at 1. tidy.
  cbn [OrderShell.new_price_loop]. rewrite Hb2. tidy.
  head_clock.
  unfold on_console at 1, OrderShell.input_date. tidy.
  cbn [OrderShell.input_date_loop]. rewrite Hb3.
  rewrite (proj2 (ReaderFacts.blank_with_default_some EmptyString
                    (Some (OrderDB.order_date (snd old)))
                    (OrderDB.order_date (snd old))))
    by now split_all.
  tidy.
  rewrite FlowFacts.input_eq. tidy. rewrite Hb4. cbn [or_text].
  unfold call. tidy. rewrite Hupd. rewrite FlowFacts.print_eq. tidy.
  eexists _, _. split; [reflexivity|]. tidy.
  split_all; [reflexivity | reflexivity | reflexivity |].
  unfold OrderDB.get_order, select_one. cbn [conn rows].
  now apply (TableFacts.find_rewrite_same _ _ _ old).
Qed.

Lemma blank_lines_keep_the_order_witness :
  exists s' out,
    OrderShell.update_order_flow SampleReaders.int_of SampleReaders.float_of
      SampleReaders.fromisoformat Samples.fraction_text
      (Sessions.at_the_orders ["1"; ""; " "; ""; ""; ""; ""; "6"])
    = (Done tt, s')
    /\ stdin (term s') = ["6"]
    /\ stdout (term s') = out ++ [Printed "✅ Order updated successfully."]
    /\ store s'
       = snd (OrderDB.update_order 1 "Ada" "Valve" 3 (21 # 2) "2024-03-01"
                "pending"
                (store (Sessions.at_the_orders
                          ["1"; ""; " "; ""; ""; ""; ""; "6"])))
    /\ OrderDB.get_order 1 (store s')
       = Some (1,
               {| OrderDB.customer_name := strip "Ada";
                  OrderDB.product := strip "Valve";
                  OrderDB.quantity := 3;
                  OrderDB.unit_price := 21 # 2;
                  OrderDB.order_date := strip "2024-03-01";
                  OrderDB.status := strip "pending" |}).
Proof.
  assert (Hblank : Forall (fun l => strip l = EmptyString)
                          [""; " "; ""; ""; ""; ""])
    by (repeat constructor).
  assert (Hi : 1 <= 1) by lia.
  assert (Hdate : "2024-03-01" <> EmptyString) by discriminate.
  exact (blank_lines_keep_the_order SampleReaders.int_of
           SampleReaders.float_of SampleReaders.fromisoformat
           Samples.fraction_text
           (Sessions.at_the_orders ["1"; ""; " "; ""; ""; ""; ""; "6"])
           "1" [""; " "; ""; ""; ""; ""] ["6"] 1
           (1, {| OrderDB.customer_name := "Ada";
                  OrderDB.product := "Valve";
                  OrderDB.quantity := 3;
                  OrderDB.unit_price := 21 # 2;
                  OrderDB.order_date := "2024-03-01";
                  OrderDB.status := "pending" |})
           eq_refl eq_refl Hblank eq_refl Hi eq_refl eq_refl Hdate).
Defined.

(** ** X22: what the flows of the sensor shell do to a reading *)

Ltac sensor_nonempty :=
  match goal with
  | |- context [on_console (SensorShell.input_nonempty ?p) ?s] =>
      head_reader (FlowFacts.reads_sensor_input_nonempty p)
  end.

Ltac sensor_float :=
  match goal with
  | |- context [on_console (SensorShell.input_float ?f ?p) ?s] =>
      head_reader (FlowFacts.reads_sensor_input_float f p)
  end.


(** ** X23: what the sensor shell deletes *)


(** ** The sensor shell *)

Module SensorShellFacts.

Import Flow FlowFacts.

Section Program.

Variable int_of : string -> option Z.
Variable float_of : string -> option Q.
Variable float_repr : Q -> string.
Variable now_text : nat -> string.

(** What may end a flow of the sensor shell: the end of the input, or a
    line read as an id that [int] refuses. *)
Local Notation "'bad_id'" :=
  (fun (e : exc) (c : console) =>
     at_eof e c \/ exists text, e = ValueError_of text /\ int_of text = None).

Local Notation "'fine'" :=
  (safe (fun _ : world SensorDB.fields => True) bad_id).

Ltac step :=
  first
    [ apply safe_print; intros; now left
    | apply safe_input; intros; now left
    | apply safe_clock
    | apply safe_on_console; [intros; now left|] ].

Lemma fine_print_reading row :
  fine (SensorShell.print_reading float_repr row) (fun _ => True).
Proof.
  unfold SensorShell.print_reading.
  repeat (eapply safe_bind; [step | intros _ _]). step.
Qed.

Lemma fine_sensor_print_rows rows :
  fine (SensorShell.print_rows float_repr rows) (fun _ => True).
Proof.
  induction rows as [|r rows IH]; simpl.
  - now apply safe_pure.
  - eapply safe_bind; [apply fine_print_reading | intros _ _; exact IH].
Qed.

Lemma fine_input_id prompt :
  fine (SensorShell.input_id int_of prompt) (fun _ => True).
Proof.
  unfold SensorShell.input_id.
  eapply safe_bind; [step | intros line _].
  intros s _. destruct (int_of line) as [i|] eqn:E; simpl.
  - split_all; [apply follows_refl | exact I | exact I].
  - split_all; [apply follows_refl | exact I |]. right. now exists line.
Qed.

Lemma fine_confirm prompt : fine (SensorShell.confirm prompt) (fun _ => True).
Proof.
  unfold SensorShell.confirm.
  eapply safe_bind; [step | intros line _]. now apply safe_pure.
Qed.

Lemma fine_sensor_get_row i : fine (SensorShell.get_row i) (fun _ => True).
Proof.
  unfold SensorShell.get_row.
  now apply (safe_look _ _ (fun s => SensorDB.get_reading i (store s))).
Qed.

Lemma fine_add_reading_flow :
  fine (SensorShell.add_reading_flow float_of now_text) (fun _ => True).
Proof.
  unfold SensorShell.add_reading_flow.
  eapply safe_bind; [step | intros _ _].
  eapply safe_bind; [step; apply reads_sensor_input_nonempty | intros n _].
  eapply safe_bind; [step; apply reads_sensor_input_float | intros v _].
  eapply safe_bind; [step; apply reads_sensor_input_nonempty | intros u _].
  eapply safe_bind; [step; apply reads_sensor_input_nonempty | intros st _].
  eapply safe_bind; [step | intros tick _].
  eapply safe_bind with (P := fun _ => True); [|intros i _; step].
  apply safe_call. intros w _. eexists _, _.
  split_all; [apply SensorFacts.add_reading_returns | exact I | exact I].
Qed.

Lemma fine_view_readings_flow :
  fine (SensorShell.view_readings_flow float_repr) (fun _ => True).
Proof.
  unfold SensorShell.view_readings_flow. eapply safe_bind.
  - apply (safe_look _ _ (fun s => SensorDB.get_all_readings (store s))
             (fun _ => True)). now intros.
  - intros [|r rows] _; [step|]. apply fine_sensor_print_rows.
Qed.

Lemma fine_update_reading_flow :
  fine (SensorShell.update_reading_flow int_of float_of float_repr now_text)
       (fun _ => True).
Proof.
  unfold SensorShell.update_reading_flow.
  eapply safe_bind; [apply fine_input_id | intros i _].
  eapply safe_bind; [apply fine_sensor_get_row | intros [row|] _]; [|step].
  eapply safe_bind; [step | intros _ _].
  eapply safe_bind; [apply fine_print_reading | intros _ _].
  eapply safe_bind; [step; apply reads_sensor_input_nonempty | intros n _].
  eapply safe_bind; [step; apply reads_sensor_input_float | intros v _].
  eapply safe_bind; [step; apply reads_sensor_input_nonempty | intros u _].
  eapply safe_bind; [step; apply reads_sensor_input_nonempty | intros st _].
  eapply safe_bind; [step | intros tick _].
  eapply safe_bind with (P := fun _ => True); [|intros [|] _; step].
  apply safe_call. intros w _.
  destruct (SensorDB.get_reading i w) as [r|] eqn:E.
  - eexists _, _.
    split_all;
      [now apply (SensorFacts.update_reading_found _ _ _ _ _ _ _ r)
      | exact I | exact I].
  - eexists _, _.
    split_all;
      [now apply SensorFacts.update_reading_missing | exact I | exact I].
Qed.

Lemma fine_delete_reading_flow :
  fine (SensorShell.delete_reading_flow int_of float_repr) (fun _ => True).
Proof.
  unfold SensorShell.delete_reading_flow.
  eapply safe_bind; [apply fine_input_id | intros i _].
  eapply safe_bind; [apply fine_sensor_get_row | intros [row|] _]; [|step].
  eapply safe_bind; [apply fine_print_reading | intros _ _].
  eapply safe_bind; [apply fine_confirm | intros [|] _];
    [|now apply safe_pure].
  eapply safe_bind with (P := fun _ => True); [|intros [|] _; step].
  apply safe_call. intros w _. eexists _, _.
  split_all; [apply SensorFacts.delete_reading_returns | exact I | exact I].
Qed.

Lemma fine_sensor_export_flow :
  fine (SensorShell.export_flow float_repr) (fun _ => True).
Proof.
  unfold SensorShell.export_flow.
  eapply safe_bind; [step | intros line _].
  intros s _.
  destruct (SensorDB.get_all_readings (store s)) as [|r rows] eqn:E.
  - rewrite SensorMore.sensor_export_empty by exact E.
    unfold follows, extends; simpl.
    split_all; [now exists [] | now eexists | lia | reflexivity | exact I
               | exact I].
  - rewrite SensorMore.sensor_export_nonempty by (rewrite E; discriminate).
    unfold follows, extends; simpl.
    split_all; [now exists [] | now eexists | lia | reflexivity | exact I
               | exact I].
Qed.

(** *** The menu *)

Lemma sensor_ask_choice (s : shell SensorDB.fields) :
  and_then (print SensorShell.menu_text)
    (fun _ => input "Choose an option (1-6): ") s
  = match stdin (term s) with
    | [] =>
        (Failed EOFError,
         {| term :=
              {| stdin := [];
                 stdout := stdout (term s)
                           ++ [Printed SensorShell.menu_text;
                               Prompted "Choose an option (1-6): "] |};
            store := store s; ticks := ticks s; closed := closed s |})
    | line :: rest =>
        (Done line,
         {| term :=
              {| stdin := rest;
                 stdout := stdout (term s)
                           ++ [Printed SensorShell.menu_text;
                               Prompted "Choose an option (1-6): "] |};
            store := store s; ticks := ticks s; closed := closed s |})
    end.
Proof.
  unfold and_then, print, input, on_console, write, read; simpl.
  destruct (stdin (term s)); now rewrite <- app_assoc.
Qed.

Local Notation "'turns'" :=
  (SensorShell.menu_turns int_of float_of float_repr now_text).

Lemma sensor_menu_turns_end fuel : forall s,
  (length (stdin (term s)) < fuel)%nat ->
  ends_well (fun _ => True) bad_id "👋 Exiting program..." s (turns fuel s).
Proof.
  induction fuel as [|fuel IH]; intros s Hlen; [lia|].
  cbn [SensorShell.menu_turns]. rewrite sensor_ask_choice.
  destruct (stdin (term s)) as [|line rest] eqn:E.
  - eexists _, _. split; [reflexivity|].
    unfold follows, extends; simpl.
    split_all; [exists []; now rewrite E | now eexists | lia | reflexivity
               | exact I |].
    left. now split.
  - simpl in Hlen.
    match goal with
    | |- ends_well _ _ _ _ (if _ then match _ ?s1 with _ => _ end else _) =>
        set (s1' := s1);
        assert (Hs1 : follows s s1')
          by (unfold follows, extends; simpl;
              split_all; [exists [line]; now rewrite E | now eexists | lia
                         | reflexivity]);
        assert (Hnext : forall s2, follows s1' s2 -> True ->
                  ends_well (fun _ => True) bad_id "👋 Exiting program..."
                    s2 (turns fuel s2))
          by (intros s2 [He _] _; apply IH;
              apply extends_length in He; simpl in He; lia)
    end.
    apply ends_well_from with s1'; [exact Hs1|].
    clearbody s1'.
    repeat match goal with
           | |- ends_well _ _ _ _ (if ?b then _ else _) => destruct b
           end.
    + apply ends_after; [exact I | apply fine_add_reading_flow | exact Hnext].
    + apply ends_after;
        [exact I | apply fine_view_readings_flow | exact Hnext].
    + apply ends_after;
        [exact I | apply fine_update_reading_flow | exact Hnext].
    + apply ends_after;
        [exact I | apply fine_delete_reading_flow | exact Hnext].
    + apply ends_after; [exact I | apply fine_sensor_export_flow | exact Hnext].
    + now apply ends_with_goodbye.
    + apply ends_after; [exact I | step | exact Hnext].
Qed.

Lemma sensor_menu_turns_more fuel : forall s o,
  turns fuel s = Some o -> turns (S fuel) s = Some o.
Proof.
  induction fuel as [|fuel IH]; intros s o; [discriminate|].
  intros H. cbn [SensorShell.menu_turns] in *.
  destruct (and_then (print SensorShell.menu_text)
              (fun _ => input "Choose an option (1-6): ") s)
    as [[line|e] s1]; [|exact H].
  repeat match goal with
         | H : (if ?b then _ else _) = _ |- _ => destruct b
         end;
    try exact H;
    match goal with
    | H : match ?flow s1 with _ => _ end = _ |- _ =>
        destruct (flow s1) as [[[]|e] s2]; [now apply IH | exact H]
    end.
Qed.

Lemma sensor_menu_turns_plus k fuel s o :
  turns fuel s = Some o -> turns (k + fuel) s = Some o.
Proof.
  intros H. induction k as [|k IH]; [exact H|].
  now apply sensor_menu_turns_more.
Qed.

End Program.

End SensorShellFacts.

(** ** X24: the sensor menu ends, and closes the connection *)


(** A session of the sensor shell: a reading is added, and then a word is
    typed where the id of the reading to update is asked.  The program
    ends there with the [ValueError]; the connection is closed, the
    reading is in the table, and the lines after the word are not read. *)
Example sensor_session_run :
  match SensorShell.menu SampleReaders.int_of SampleReaders.float_of
          Samples.fraction_text Sessions.now_text None ∅
          {| stdin := ["1"; " Pump "; "x"; "7"; "kPa"; ""; "Normal"; "3";
                       "one"; "6"];
             stdout := [] |}
  with
  | Some (r, s') =>
      r = Failed (ValueError_of "one")
      /\ stdin (term s') = ["6"]
      /\ SensorDB.get_all_readings (store s')
         = [(1, {| SensorDB.sensor_name := "Pump";
                   SensorDB.value := 7 # 1;
                   SensorDB.unit := "kPa";
                   SensorDB.timestamp := "2024-03-05 10:00:00";
                   SensorDB.status := "Normal" |})]
      /\ closed s' = true
  | None => False
  end.
Proof. vm_compute. repeat split. Qed.

(** ** X25: what the export flows report *)


(** ** X26: what the view flows print *)

Module ViewFacts.

(** The lines that show an id. *)
Local Notation "'shows_id'" :=
  (fun o : output =>
     match o with
     | Printed text => String.prefix "ID: " text
     | Prompted _ => false
     end).

Lemma prefix_id x : String.prefix "ID: " ("ID: " +:+ x) = true.
Proof.
  change ("ID: " +:+ x)
    with (String "I" (String "D" (String ":" (String " " x)))).
  simpl. now destruct x.
Qed.

Lemma order_print_rows_run float_repr rows : forall s : shell OrderDB.fields,
  exists new,
    OrderShell.print_rows float_repr rows s
    = (Done tt,
       {| term := {| stdin := stdin (term s);
                     stdout := stdout (term s) ++ new |};
          store := store s; ticks := ticks s; closed := closed s |})
    /\ List.filter shows_id new
       = map (fun r => Printed ("ID: " +:+ pretty (OrderDB.id r))) rows
    /\ length new = (8 * length rows)%nat.
Proof.
  induction rows as [|r rows IH]; intros s.
  - exists []. simpl. rewrite app_nil_r. now destruct s as [[? ?] ? ? ?].
  - cbn [OrderShell.print_rows].
    unfold OrderShell.print_order_row, and_then.
    repeat head_print.
    match goal with
    | |- context [OrderShell.print_rows _ rows ?s1] =>
        destruct (IH s1) as (new & Hrun & Hids & Hlen); rewrite Hrun
    end.
    tidy. eexists (_ :: _ :: _ :: _ :: _ :: _ :: _ :: _ :: new).
    split_all.
    + now rewrite <- !app_assoc.
    + cbn [List.filter map]. rewrite prefix_id, Hids. reflexivity.
    + simpl. lia.
Qed.

Lemma sensor_print_rows_run float_repr rows :
  forall s : shell SensorDB.fields,
    exists new,
      SensorShell.print_rows float_repr rows s
      = (Done tt,
         {| term := {| stdin := stdin (term s);
                       stdout := stdout (term s) ++ new |};
            store := store s; ticks := ticks s; closed := closed s |})
      /\ List.filter shows_id new
         = map (fun r => Printed ("ID: " +:+ pretty (SensorDB.id r))) rows
      /\ length new = (6 * length rows)%nat.
Proof.
  induction rows as [|r rows IH]; intros s.
  - exists []. simpl. rewrite app_nil_r. now destruct s as [[? ?] ? ? ?].
  - cbn [SensorShell.print_rows].
    unfold SensorShell.print_reading, and_then.
    repeat head_print.
    match goal with
    | |- context [SensorShell.print_rows _ rows ?s1] =>
        destruct (IH s1) as (new & Hrun & Hids & Hlen); rewrite Hrun
    end.
    tidy. eexists (_ :: _ :: _ :: _ :: _ :: _ :: new).
    split_all.
    + now rewrite <- !app_assoc.
    + cbn [List.filter map]. rewrite prefix_id, Hids. reflexivity.
    + simpl. lia.
Qed.

End ViewFacts.

(** X26: a view flow reads no line, changes neither the store nor the
    clock, and never fails: it only prints.  What it prints to show an id
    is what the rows of the table give, once for each row and in the order
    of the table, which is the order of the ids.  An order takes eight
    calls of [print] and a reading six, after two for the headings of the
    orders; an empty table is reported with one. *)
Theorem view_flows_list_every_row :
  (forall (float_repr : Q -> string) (s : shell OrderDB.fields),
      exists new,
        OrderShell.view_orders_flow float_repr s
        = (Done tt,
           {| term := {| stdin := stdin (term s);
                         stdout := stdout (term s) ++ new |};
              store := store s; ticks := ticks s; closed := closed s |})
        /\ List.filter
             (fun o =>
                match o with
                | Printed text => String.prefix "ID: " text
                | Prompted _ => false
                end) new
           = map (fun r => Printed ("ID: " +:+ pretty (OrderDB.id r)))
                 (OrderDB.get_all_orders (store s))
        /\ length new
           = match OrderDB.get_all_orders (store s) with
             | [] => 2%nat
             | rows => (2 + 8 * length rows)%nat
             end)
  /\ (forall (float_repr : Q -> string) (s : shell SensorDB.fields),
         exists new,
           SensorShell.view_readings_flow float_repr s
           = (Done tt,
              {| term := {| stdin := stdin (term s);
                            stdout := stdout (term s) ++ new |};
                 store := store s; ticks := ticks s; closed := closed s |})
           /\ List.filter
                (fun o =>
                   match o with
                   | Printed text => String.prefix "ID: " text
                   | Prompted _ => false
                   end) new
              = map (fun r => Printed ("ID: " +:+ pretty (SensorDB.id r)))
                    (SensorDB.get_all_readings (store s))
           /\ length new
              = match SensorDB.get_all_readings (store s) with
                | [] => 1%nat
                | rows => (6 * length rows)%nat
                end).
Proof.
  split.
  - intros float_repr s.
    unfold OrderShell.view_orders_flow, OrderShell.list_orders,
      OrderShell.get_rows, and_then.
    head_print.
    destruct (OrderDB.get_all_orders (store s)) as [|r rows] eqn:E.
    + rewrite FlowFacts.print_eq. tidy.
      eexists [_; _]. split_all; [now rewrite <- !app_assoc | | ];
        reflexivity.
    + head_print.
      match goal with
      | |- context [OrderShell.print_rows _ ?l ?s1] =>
          destruct (ViewFacts.order_print_rows_run float_repr l s1)
            as (new & Hrun & Hids & Hlen); rewrite Hrun
      end.
      tidy. eexists (_ :: _ :: new).
      split_all.
      * now rewrite <- !app_assoc.
      * cbn [List.filter]. rewrite Hids. reflexivity.
      * cbn [length] in *. lia.
  - intros float_repr s.
    unfold SensorShell.view_readings_flow, SensorShell.get_rows, and_then.
    destruct (SensorDB.get_all_readings (store s)) as [|r rows] eqn:E.
    + rewrite FlowFacts.print_eq. tidy.
      eexists [_]. split_all; reflexivity.
    + destruct (ViewFacts.sensor_print_rows_run float_repr (r :: rows) s)
        as (new & Hrun & Hids & Hlen).
      exists new. now split_all.
Qed.
